(** * Currency converter: rate resolution service, cache, broadcaster, calculator

    A shallow embedding of [ExchangeRateAPIService] and
    [PerformanceMetrics] (the API service source) and of
    [CurrencyConverter] (js/currencyConverter.js), with the properties of
    the resolution engine proved about it.

    The file goes on with the rest of the service and of the converter,
    with the service worker (sw.js), and with the debounce timer of
    [fetchRates] as a timer of the page.

    Conventions of the embedding:
    - JavaScript numbers are [jsnum]: NaN, the two infinities, or a finite
      value carried as an exact rational (rounding and the sign of zero are
      not represented).
    - [localStorage] is a finite map from strings to strings; every access
      may throw, as decided by the host ([storage_fault]).
    - [Date.now()] and [performance.now()] read one integer clock in
      milliseconds; timers and network calls advance it.
    - asynchronous functions run to completion in program order: one flow
      of control, no interleaving with other requests.
    - [JSON.stringify], [JSON.parse], [Date.prototype.toISOString] and the
      [Date] parser are host functions, taken as fields of [Env], as are
      the answers of the network.
    - methods of the service run in a state and exception monad, so that
      every [try]/[catch] of the source is written out. *)

From Stdlib Require Import ZArith QArith String List Lia Bool DecimalString.
From stdpp Require Import gmap strings list pretty.

Local Open Scope Z_scope.
Local Open Scope string_scope.

(** ** JavaScript numbers *)

Inductive jsnum : Type :=
| JNaN
| JInf (negative : bool)
| JFin (q : Q).

Definition Qnegative (q : Q) : bool := (Qnum q <? 0)%Z.
Definition Qis_zero (q : Q) : bool := (Qnum q =? 0)%Z.

Definition js_of_Z (z : Z) : jsnum := JFin (inject_Z z).
Definition js_of_nat (n : nat) : jsnum := js_of_Z (Z.of_nat n).

(** [x * y] *)
Definition js_mul (x y : jsnum) : jsnum :=
  match x, y with
  | JNaN, _ | _, JNaN => JNaN
  | JInf s, JInf t => JInf (xorb s t)
  | JInf s, JFin q | JFin q, JInf s =>
      if Qis_zero q then JNaN else JInf (xorb s (Qnegative q))
  | JFin p, JFin q => JFin (p * q)
  end.

(** [x / y] *)
Definition js_div (x y : jsnum) : jsnum :=
  match x, y with
  | JNaN, _ | _, JNaN => JNaN
  | JInf _, JInf _ => JNaN
  | JInf s, JFin q => JInf (xorb s (Qnegative q))
  | JFin _, JInf _ => JFin 0
  | JFin p, JFin q =>
      if Qis_zero q
      then (if Qis_zero p then JNaN else JInf (Qnegative p))
      else JFin (p / q)
  end.

(** [x + y] *)
Definition js_add (x y : jsnum) : jsnum :=
  match x, y with
  | JNaN, _ | _, JNaN => JNaN
  | JInf s, JInf t => if eqb s t then JInf s else JNaN
  | JInf s, JFin _ | JFin _, JInf s => JInf s
  | JFin p, JFin q => JFin (p + q)
  end.

(** Truthiness of a number: everything but [0] and [NaN]. *)
Definition js_truthy (x : jsnum) : bool :=
  match x with
  | JNaN => false
  | JInf _ => true
  | JFin q => negb (Qis_zero q)
  end.

(** [x <= 0] *)
Definition js_le0 (x : jsnum) : bool :=
  match x with
  | JNaN => false
  | JInf s => s
  | JFin q => Qnegative q || Qis_zero q
  end.

(** [o || d] where [o] is a property read that may yield [undefined]. *)
Definition js_or (o : option jsnum) (d : jsnum) : jsnum :=
  match o with
  | Some x => if js_truthy x then x else d
  | None => d
  end.



(** ** Strings *)

(** [s.startsWith(p)] *)
Definition startsWith (s p : string) : bool := String.prefix p s.

(** [s.replace(pat, rep)] with a string pattern: the first occurrence. *)
Definition js_replace (s pat rep : string) : string :=
  match String.index 0 pat s with
  | Some i =>
      String.substring 0 i s ++ rep
        ++ String.substring (i + String.length pat)
             (String.length s - (i + String.length pat)) s
  | None => s
  end.

(** [!s] for the result of [getItem]: [null] and the empty string. *)
Definition falsy_item (o : option string) : bool :=
  match o with
  | None => true
  | Some s => if decide (s = "") then true else false
  end.

(** ** Rate tables, thrown values, host environment *)

Abbreviation RateTable := (gmap string jsnum).

(** What a [throw] carries: an [Error] with its message, or [undefined]. *)
Inductive Thrown : Type :=
| ThrownUndefined
| ThrownError (message : string).

Inductive Outcome (A : Type) : Type :=
| Ok (a : A)
| Throw (e : Thrown).
Arguments Ok {A} a.
Arguments Throw {A} e.

Inductive StorageOp : Type :=
| OpGetItem (key : string)
| OpSetItem (key value : string)
| OpRemoveItem (key : string)
| OpKeys.

(** The parsed body of an HTTP response. *)
Inductive Body : Type :=
| BodyInvalid (message : string)
| BodyJson (rates conversion_rates : option RateTable) (base : option string).

Inductive Reply : Type :=
| NetworkError (message : string)
| HttpResponse (status : nat) (statusText : string) (body : Body).

Record NetReply : Type := {
  latency : N;
  reply : Reply
}.

Record Env : Type := {
  JSON_stringify : RateTable -> string;
  JSON_parse : string -> option RateTable;
  toISOString : Z -> string;
  Date_parse : string -> option Z;
  storage_fault : StorageOp -> option string;
  net : nat -> string -> NetReply
}.

(** ** Service state *)

Inductive What : Type :=
| Fetch (attempt : nat) (url : string)
| Sleep (ms : Z).

Record Event : Type := {
  ev_time : Z;
  ev_what : What
}.

Record Metrics : Type := {
  apiCalls : nat;
  cacheHits : nat;
  errors : nat;
  totalResponseTime : jsnum;
  averageResponseTime : jsnum
}.

(** The fields of an [ExchangeRateAPIService] together with the host
    objects it touches. [events] is a ghost log, newest event first. *)
Record Service : Type := {
  localStorage : gmap string string;
  clock : Z;
  events : list Event;
  isOnline : bool;
  lastRequestTime : Z;
  metrics : Metrics;
  fallbackRates : RateTable
}.

Definition set_localStorage (f : gmap string string -> gmap string string)
    (s : Service) : Service :=
  {| localStorage := f (localStorage s); clock := clock s; events := events s;
     isOnline := isOnline s; lastRequestTime := lastRequestTime s;
     metrics := metrics s; fallbackRates := fallbackRates s |}.

Definition set_clock (t : Z) (s : Service) : Service :=
  {| localStorage := localStorage s; clock := t; events := events s;
     isOnline := isOnline s; lastRequestTime := lastRequestTime s;
     metrics := metrics s; fallbackRates := fallbackRates s |}.

Definition log_event (w : What) (s : Service) : Service :=
  {| localStorage := localStorage s; clock := clock s;
     events := {| ev_time := clock s; ev_what := w |} :: events s;
     isOnline := isOnline s; lastRequestTime := lastRequestTime s;
     metrics := metrics s; fallbackRates := fallbackRates s |}.

Definition set_lastRequestTime (t : Z) (s : Service) : Service :=
  {| localStorage := localStorage s; clock := clock s; events := events s;
     isOnline := isOnline s; lastRequestTime := t;
     metrics := metrics s; fallbackRates := fallbackRates s |}.

Definition set_metrics (f : Metrics -> Metrics) (s : Service) : Service :=
  {| localStorage := localStorage s; clock := clock s; events := events s;
     isOnline := isOnline s; lastRequestTime := lastRequestTime s;
     metrics := f (metrics s); fallbackRates := fallbackRates s |}.

(** The events in the order they happened. *)
Definition trace (s : Service) : list Event := rev (events s).

(** ** A state and exception monad for the service's methods *)

Definition M (A : Type) : Type := Service -> Outcome A * Service.

#[global] Instance M_ret : MRet M := fun A a s => (Ok a, s).
#[global] Instance M_bind : MBind M := fun A B f m s =>
  match m s with
  | (Ok a, s') => f a s'
  | (Throw e, s') => (Throw e, s')
  end.

Definition throw {A} (e : Thrown) : M A := fun s => (Throw e, s).
Definition gets {A} (f : Service -> A) : M A := fun s => (Ok (f s), s).
Definition modify (f : Service -> Service) : M unit := fun s => (Ok tt, f s).

(** [try { body } catch (error) { handler }] *)
Definition try_catch {A} (body : M A) (handler : Thrown -> M A) : M A :=
  fun s =>
    match body s with
    | (Ok a, s') => (Ok a, s')
    | (Throw e, s') => handler e s'
    end.

(** [l.forEach(f)] on an array that [f] does not touch. *)
Fixpoint forEach {A} (f : A -> M unit) (l : list A) : M unit :=
  match l with
  | [] => mret tt
  | x :: l' => f x ≫= λ _, forEach f l'
  end.

(** [await new Promise(resolve => setTimeout(resolve, ms))] *)
Definition sleep (ms : Z) : M unit :=
  modify (fun s => set_clock (clock s + Z.max 0 ms) (log_event (Sleep ms) s)).

(** ** localStorage *)

Section Storage.
Variable env : Env.

Definition storage_op {A} (op : StorageOp) (run : M A) : M A :=
  match storage_fault env op with
  | Some message => throw (ThrownError message)
  | None => run
  end.

Definition getItem (key : string) : M (option string) :=
  storage_op (OpGetItem key) (gets (fun s => localStorage s !! key)).

Definition setItem (key value : string) : M unit :=
  storage_op (OpSetItem key value)
    (modify (set_localStorage (insert key value))).

Definition removeItem (key : string) : M unit :=
  storage_op (OpRemoveItem key) (modify (set_localStorage (delete key))).

(** [Object.keys(localStorage)]; the order is the host's. *)
Definition Object_keys : M (list string) :=
  storage_op OpKeys (gets (fun s => (map_to_list (localStorage s)).*1)).
End Storage.

(** ** PerformanceMetrics

    The calls to the analytics hook [gtag] are left out: they are made
    only when the page defines it, and they do not touch the counters. *)

Definition initial_metrics : Metrics :=
  {| apiCalls := 0; cacheHits := 0; errors := 0;
     totalResponseTime := js_of_Z 0; averageResponseTime := js_of_Z 0 |}.

Definition recordApiSuccess (responseTime : jsnum) (m : Metrics) : Metrics :=
  let calls := S (apiCalls m) in
  let total := js_add (totalResponseTime m) responseTime in
  {| apiCalls := calls; cacheHits := cacheHits m; errors := errors m;
     totalResponseTime := total;
     averageResponseTime := js_div total (js_of_nat calls) |}.

Definition recordCacheHit (responseTime : jsnum) (m : Metrics) : Metrics :=
  {| apiCalls := apiCalls m; cacheHits := S (cacheHits m); errors := errors m;
     totalResponseTime := totalResponseTime m;
     averageResponseTime := averageResponseTime m |}.

Definition recordApiError (responseTime : jsnum) (errorMessage : string)
    (m : Metrics) : Metrics :=
  {| apiCalls := apiCalls m; cacheHits := cacheHits m; errors := S (errors m);
     totalResponseTime := totalResponseTime m;
     averageResponseTime := averageResponseTime m |}.

(** The object returned by [getMetrics]: the counters and the hit rate. *)
Record MetricsReport : Type := {
  report_counters : Metrics;
  cacheHitRate : jsnum
}.

Definition getMetrics (m : Metrics) : MetricsReport :=
  {| report_counters := m;
     cacheHitRate :=
       js_mul
         (js_div (js_of_nat (cacheHits m))
                 (js_add (js_of_nat (apiCalls m)) (js_of_nat (cacheHits m))))
         (js_of_Z 100) |}.

Definition reset (m : Metrics) : Metrics := initial_metrics.

(** ** ExchangeRateAPIService *)

Definition baseUrl : string := "https://api.exchangerate-api.com/v4/latest".
Definition fallbackUrl : string := "https://open.er-api.com/v6/latest".
Definition cacheKey : string := "exchangeRates".
Definition cacheTimestampKey : string := "exchangeRatesTimestamp".
Definition cacheDuration : Z := 5 * 60 * 1000.
Definition minRequestInterval : Z := 1000.
Definition fetchTimeout : Z := 10000.

(** [`${this.cacheKey}_${baseCurrency}`] and its timestamp sibling *)
Definition dataKeyOf (baseCurrency : string) : string :=
  cacheKey ++ "_" ++ baseCurrency.
Definition timestampKeyOf (baseCurrency : string) : string :=
  cacheTimestampKey ++ "_" ++ baseCurrency.

(** What [getCachedRates] returns on a hit; [c_age] is [None] for NaN. *)
Record Cached : Type := {
  c_rates : RateTable;
  c_timestamp : string;
  c_age : option Z
}.

(** What [fetchWithRetry] returns. *)
Record Fetched : Type := {
  f_rates : RateTable;
  f_base : string
}.

(** What [getExchangeRates] returns. *)
Record RatesResult : Type := {
  success : bool;
  r_rates : RateTable;
  r_timestamp : string;
  source : string;
  warning : option string
}.

(** [age < limit] and [age > limit], false when the age is NaN. *)
Definition age_lt (age : option Z) (limit : Z) : bool :=
  match age with Some a => (a <? limit)%Z | None => false end.
Definition age_gt (age : option Z) (limit : Z) : bool :=
  match age with Some a => (limit <? a)%Z | None => false end.

Section Service.
Variable env : Env.

Definition Date_now : M Z := gets clock.

(** [now - new Date(timestamp).getTime()] *)
Definition age_of (now : Z) (timestamp : string) : option Z :=
  match Date_parse env timestamp with
  | Some t => Some (now - t)
  | None => None
  end.

Definition getCachedRates (baseCurrency : string) (allowStale : bool)
    : M (option Cached) :=
  try_catch
    (cachedData ← getItem env (dataKeyOf baseCurrency);
     cachedTimestamp ← getItem env (timestampKeyOf baseCurrency);
     if falsy_item cachedData || falsy_item cachedTimestamp
     then mret None
     else
       let data := default "" cachedData in
       let timestamp := default "" cachedTimestamp in
       now ← Date_now;
       let age := age_of now timestamp in
       if allowStale || age_lt age cacheDuration
       then
         match JSON_parse env data with
         | Some rates =>
             mret (Some {| c_rates := rates; c_timestamp := timestamp;
                           c_age := age |})
         | None => throw (ThrownError "Unexpected token in JSON")
         end
       else mret None)
    (fun error => mret None).

(** The body of the [keys.forEach] callback of [cleanOldCache]. *)
Definition cleanOldCache_step (now : Z) (key : string) : M unit :=
  if startsWith key cacheTimestampKey
  then
    timestamp ← getItem env key;
    if falsy_item timestamp then mret tt
    else
      let age := age_of now (default "" timestamp) in
      if age_gt age (cacheDuration * 2)
      then
        let dataKey := js_replace key cacheTimestampKey cacheKey in
        removeItem env key ≫= λ _, removeItem env dataKey
      else mret tt
  else mret tt.

Definition cleanOldCache : M unit :=
  try_catch
    (keys ← Object_keys env;
     now ← Date_now;
     forEach (cleanOldCache_step now) keys)
    (fun error => mret tt).

Definition cacheRates (baseCurrency : string) (rates : RateTable) : M unit :=
  try_catch
    (now ← Date_now;
     let timestamp := toISOString env now in
     setItem env (dataKeyOf baseCurrency) (JSON_stringify env rates) ≫= λ _,
     setItem env (timestampKeyOf baseCurrency) timestamp ≫= λ _,
     cleanOldCache)
    (fun error => mret tt).

Definition clearCache_step (key : string) : M unit :=
  if startsWith key cacheKey || startsWith key cacheTimestampKey
  then removeItem env key
  else mret tt.

Definition clearCache : M unit :=
  keys ← Object_keys env;
  forEach clearCache_step keys.

(** [response.ok] *)
Definition response_ok (status : nat) : bool :=
  (200 <=? status)%nat && (status <=? 299)%nat.

Definition abort_message : string := "The operation was aborted.".

(** The body of the [try] inside the two loops of [fetchWithRetry]: one
    network call, with the 10 s abort timer, and the validation of the
    response. *)
Definition attempt_fetch (baseCurrency : string) (attempt : nat)
    (url : string) : M Fetched :=
  modify (log_event (Fetch attempt url)) ≫= λ _,
  let answer := net env attempt url in
  start ← Date_now;
  if (fetchTimeout <=? Z.of_N (latency answer))%Z
  then
    modify (set_clock (start + fetchTimeout)) ≫= λ _,
    throw (ThrownError abort_message)
  else
    modify (set_clock (start + Z.of_N (latency answer))) ≫= λ _,
    match reply answer with
    | NetworkError message => throw (ThrownError message)
    | HttpResponse status statusText body =>
        if negb (response_ok status)
        then throw (ThrownError
                      ("HTTP " ++ pretty status ++ ": " ++ statusText))
        else
          match body with
          | BodyInvalid message => throw (ThrownError message)
          | BodyJson rates conversion_rates base =>
              let base' :=
                match base with
                | Some b => if decide (b = "") then baseCurrency else b
                | None => baseCurrency
                end in
              match rates, conversion_rates with
              | Some r, _ | None, Some r =>
                  mret {| f_rates := r; f_base := base' |}
              | None, None =>
                  throw (ThrownError "Invalid API response format")
              end
          end
    end.

(** The [catch] block of an attempt. *)
Definition attempt_failed (maxRetries attempt : nat) (error : Thrown)
    : M (Fetched + option Thrown) :=
  (if (attempt <? maxRetries - 1)%nat
   then sleep (1000 * (Z.of_nat attempt + 1))
   else mret tt) ≫= λ _,
  mret (inr (Some error)).

(** [for (const url of urls)]: [inl] is a [return] out of the function,
    [inr] carries [lastError] to the next iteration. *)
Fixpoint for_urls (baseCurrency : string) (maxRetries attempt : nat)
    (urls : list string) (lastError : option Thrown)
    : M (Fetched + option Thrown) :=
  match urls with
  | [] => mret (inr lastError)
  | url :: rest =>
      x ← try_catch
            (r ← attempt_fetch baseCurrency attempt url; mret (inl r))
            (attempt_failed maxRetries attempt);
      match x with
      | inl r => mret (inl r)
      | inr lastError' =>
          for_urls baseCurrency maxRetries attempt rest lastError'
      end
  end.

(** [for (let attempt = 0; attempt < maxRetries; attempt++)], by the
    number of rounds that remain. *)
Fixpoint for_attempts (baseCurrency : string) (maxRetries : nat)
    (urls : list string) (remaining attempt : nat)
    (lastError : option Thrown) : M (Fetched + option Thrown) :=
  match remaining with
  | O => mret (inr lastError)
  | S remaining' =>
      x ← for_urls baseCurrency maxRetries attempt urls lastError;
      match x with
      | inl r => mret (inl r)
      | inr lastError' =>
          for_attempts baseCurrency maxRetries urls remaining' (S attempt)
            lastError'
      end
  end.

Definition endpoints (baseCurrency : string) : list string :=
  [baseUrl ++ "/" ++ baseCurrency; fallbackUrl ++ "/" ++ baseCurrency].

Definition fetchWithRetry (baseCurrency : string) (maxRetries : nat)
    : M Fetched :=
  x ← for_attempts baseCurrency maxRetries (endpoints baseCurrency)
        maxRetries 0 None;
  match x with
  | inl r => mret r
  | inr (Some lastError) => throw lastError
  | inr None => throw ThrownUndefined
  end.

(** [error.message] *)
Definition message_of (error : Thrown) : M string :=
  match error with
  | ThrownError message => mret message
  | ThrownUndefined =>
      throw (ThrownError "Cannot read properties of undefined")
  end.

Definition elapsed_since (startTime : Z) : M jsnum :=
  gets (fun s => js_of_Z (clock s - startTime)).

Definition new_Date_toISOString : M string :=
  gets (fun s => toISOString env (clock s)).

Definition getExchangeRates (baseCurrency : string) (forceRefresh : bool)
    : M RatesResult :=
  startTime ← Date_now;
  try_catch
    (fresh ← (if forceRefresh then mret None
              else getCachedRates baseCurrency false);
     match fresh with
     | Some cachedRates =>
         responseTime ← elapsed_since startTime;
         modify (set_metrics (recordCacheHit responseTime)) ≫= λ _,
         mret {| success := true; r_rates := c_rates cachedRates;
                 r_timestamp := c_timestamp cachedRates;
                 source := "cache"; warning := None |}
     | None =>
         online ← gets isOnline;
         if negb online
         then
           stale ← getCachedRates baseCurrency true;
           match stale with
           | Some cachedRates =>
               mret {| success := true; r_rates := c_rates cachedRates;
                       r_timestamp := c_timestamp cachedRates;
                       source := "offline_cache";
                       warning := Some "Last Refreshed Rate" |}
           | None =>
               rates ← gets fallbackRates;
               timestamp ← new_Date_toISOString;
               mret {| success := true; r_rates := rates;
                       r_timestamp := timestamp;
                       source := "fallback";
                       warning := Some "Last Refreshed Rate" |}
           end
         else
           now ← Date_now;
           last ← gets lastRequestTime;
           (if (now - last <? minRequestInterval)%Z
            then sleep (minRequestInterval - (now - last))
            else mret tt) ≫= λ _,
           result ← fetchWithRetry baseCurrency 3;
           finished ← Date_now;
           modify (set_lastRequestTime finished) ≫= λ _,
           cacheRates baseCurrency (f_rates result) ≫= λ _,
           responseTime ← elapsed_since startTime;
           modify (set_metrics (recordApiSuccess responseTime)) ≫= λ _,
           timestamp ← new_Date_toISOString;
           mret {| success := true; r_rates := f_rates result;
                   r_timestamp := timestamp;
                   source := "api"; warning := None |}
     end)
    (fun error =>
       responseTime ← elapsed_since startTime;
       message ← message_of error;
       modify (set_metrics (recordApiError responseTime message)) ≫= λ _,
       cached ← getCachedRates baseCurrency true;
       match cached with
       | Some cachedRates =>
           mret {| success := true; r_rates := c_rates cachedRates;
                   r_timestamp := c_timestamp cachedRates;
                   source := "error_fallback_cache";
                   warning := Some "Last Refreshed Rate" |}
       | None =>
           rates ← gets fallbackRates;
           timestamp ← new_Date_toISOString;
           mret {| success := true; r_rates := rates;
                   r_timestamp := timestamp;
                   source := "error_fallback_hardcoded";
                   warning := Some "Last Refreshed Rate" |}
       end).
End Service.

(** ** CurrencyConverter *)

Record EngineState : Type := {
  loading : bool;
  error : option string;
  rates : RateTable;
  lastUpdate : option string;
  isOffline : bool;
  state_source : option string
}.

(** The object literal passed to [setState]: the fields it mentions. A
    field set to [null] is [Some None]. *)
Record Patch : Type := {
  patch_loading : option bool;
  patch_error : option (option string);
  patch_rates : option RateTable;
  patch_lastUpdate : option (option string);
  patch_isOffline : option bool;
  patch_source : option (option string)
}.

(** [{ ...state, ...newState }] *)
Definition merge (s : EngineState) (p : Patch) : EngineState :=
  {| loading := default (loading s) (patch_loading p);
     error := default (error s) (patch_error p);
     rates := default (rates s) (patch_rates p);
     lastUpdate := default (lastUpdate s) (patch_lastUpdate p);
     isOffline := default (isOffline s) (patch_isOffline p);
     state_source := default (state_source s) (patch_source p) |}.

(** Callbacks are functions compared by identity: a callback is named by
    a number. What a callback does to the converter when it is invoked is
    to manage subscriptions: it returns normally and does not call
    [setState] itself. *)
Inductive Action : Type :=
| ActSubscribe (callback : nat)
| ActUnsubscribe (callback : nat).

(** A [CurrencyConverter]. [subscribers] is a reference into [arrays], the
    JavaScript arrays allocated so far; [calls] is a ghost log of the
    callback invocations, newest first. *)
Record Converter : Type := {
  apiService : Service;
  state : EngineState;
  subscribers : nat;
  arrays : gmap nat (list nat);
  debounceTimer : option Z;
  calls : list (nat * EngineState)
}.

Definition set_apiService (s : Service) (c : Converter) : Converter :=
  {| apiService := s; state := state c; subscribers := subscribers c;
     arrays := arrays c; debounceTimer := debounceTimer c; calls := calls c |}.

Definition set_state (s : EngineState) (c : Converter) : Converter :=
  {| apiService := apiService c; state := s; subscribers := subscribers c;
     arrays := arrays c; debounceTimer := debounceTimer c; calls := calls c |}.

Definition set_subscribers (a : nat) (arrs : gmap nat (list nat))
    (c : Converter) : Converter :=
  {| apiService := apiService c; state := state c; subscribers := a;
     arrays := arrs; debounceTimer := debounceTimer c; calls := calls c |}.

Definition set_debounceTimer (t : option Z) (c : Converter) : Converter :=
  {| apiService := apiService c; state := state c;
     subscribers := subscribers c; arrays := arrays c; debounceTimer := t;
     calls := calls c |}.

Definition log_call (callback : nat) (s : EngineState) (c : Converter)
    : Converter :=
  {| apiService := apiService c; state := state c;
     subscribers := subscribers c; arrays := arrays c;
     debounceTimer := debounceTimer c; calls := (callback, s) :: calls c |}.

(** The contents of the array behind a reference. *)
Definition array_at (c : Converter) (a : nat) : list nat :=
  default [] (arrays c !! a).

(** [this.subscribers.push(callback)]: the array is changed in place. *)
Definition subscribe (callback : nat) (c : Converter) : Converter :=
  let a := subscribers c in
  set_subscribers a (<[a := (array_at c a ++ [callback])%list]> (arrays c)) c.

(** The closure returned by [subscribe]:
    [this.subscribers = this.subscribers.filter(sub => sub !== callback)].
    [filter] allocates a new array. *)
Definition unsubscribe (callback : nat) (c : Converter) : Converter :=
  let a' := fresh (dom (arrays c)) in
  let kept := filter (fun sub => sub ≠ callback) (array_at c (subscribers c)) in
  set_subscribers a' (<[a' := kept]> (arrays c)) c.

Definition run_action (c : Converter) (act : Action) : Converter :=
  match act with
  | ActSubscribe callback => subscribe callback c
  | ActUnsubscribe callback => unsubscribe callback c
  end.

(** An awaited promise: resolved with a value, or never settled. *)
Inductive Settled (A : Type) : Type :=
| Resolved (a : A)
| Pending.
Arguments Resolved {A} a.
Arguments Pending {A}.

(** What [convertCurrency] resolves to. *)
Record Conversion : Type := {
  convertedAmount : jsnum;
  exchangeRate : jsnum;
  conv_error : option string;
  conv_source : option string;
  conv_lastUpdate : option string
}.

Section Converter.
Variable env : Env.
(** What each callback does when it is called with a state. *)
Variable behaviour : nat -> EngineState -> list Action.

(** [callback(this.state)] *)
Definition invoke (callback : nat) (c : Converter) : Converter :=
  let argument := state c in
  fold_left run_action (behaviour callback argument)
    (log_call callback argument c).

(** [Array.prototype.forEach] on the array behind [a]: the length is
    read once, each element is read when its turn comes. *)
Fixpoint forEach_array (a : nat) (remaining k : nat) (c : Converter)
    : Converter :=
  match remaining with
  | O => c
  | S remaining' =>
      let c' :=
        match array_at c a !! k with
        | Some callback => invoke callback c
        | None => c
        end in
      forEach_array a remaining' (S k) c'
  end.

Definition setState (newState : Patch) (c : Converter) : Converter :=
  let c1 := set_state (merge (state c) newState) c in
  let a := subscribers c1 in
  forEach_array a (length (array_at c1 a)) 0 c1.

(** [result.warning || null] *)
Definition warning_or_null (w : option string) : option string :=
  match w with
  | Some s => if decide (s = "") then None else Some s
  | None => None
  end.

(** [fetchRates], for a call that no other call of [fetchRates]
    supersedes, followed to its end: the debounce timer is armed (no
    earlier timer is pending in a single flow of control), and its
    callback runs 300 ms later. The promise is resolved with the result,
    or with [null] from the [catch] block; it stays pending if the
    [catch] block itself throws on [error.message]. The [clearTimeout]
    of the source, by which a later call keeps an earlier one from ever
    settling, is in [call_fetchRates] below, where the call and the
    callback of its timer are two steps of the page. *)
Definition fetchRates (baseCurrency : string) (forceRefresh : bool)
    (c : Converter) : Settled (option RatesResult) * Converter :=
  let due := clock (apiService c) + 300 in
  let c := set_debounceTimer (Some due) c in
  let c := set_apiService (snd (sleep 300 (apiService c))) c in
  let c := setState
             {| patch_loading := Some true; patch_error := Some None;
                patch_rates := None; patch_lastUpdate := None;
                patch_isOffline := None; patch_source := None |} c in
  match getExchangeRates env baseCurrency forceRefresh (apiService c) with
  | (Ok result, s) =>
      let c := set_apiService s c in
      let c := setState
                 {| patch_loading := Some false;
                    patch_error := Some (warning_or_null (warning result));
                    patch_rates := Some (r_rates result);
                    patch_lastUpdate := Some (Some (r_timestamp result));
                    patch_isOffline := None;
                    patch_source := Some (Some (source result)) |} c in
      (Resolved (Some result), c)
  | (Throw (ThrownError message), s) =>
      let c := set_apiService s c in
      let c := setState
                 {| patch_loading := Some false;
                    patch_error :=
                      Some (Some ("Failed to fetch exchange rates: "
                                    ++ message));
                    patch_rates := None; patch_lastUpdate := None;
                    patch_isOffline := None; patch_source := None |} c in
      (Resolved None, c)
  | (Throw ThrownUndefined, s) => (Pending, set_apiService s c)
  end.

(** [rates[code] || 1], for a code that the table holds or that no
    object inherits: the read of a name such as "toString" on a table
    without an entry of that name yields a function of
    [Object.prototype], which this lookup does not have. *)
Definition rate_or_1 (table : RateTable) (code : string) : jsnum :=
  js_or (table !! code) (js_of_Z 1).

(** [convertCurrency], followed to its end as [fetchRates] is: the fetch
    it starts on an empty table is not superseded. The promise of
    [fetchRates] is never rejected and the table is an object, so the
    [catch] block of the source has nothing to catch here. The call and
    what follows its [await] are [call_convertCurrency] and
    [resume_convertCurrency] below. *)
Definition convertCurrency (amount : jsnum) (fromCurrency toCurrency : string)
    (c : Converter) : Settled Conversion * Converter :=
  if negb (js_truthy amount) || js_le0 amount
  then
    (Resolved {| convertedAmount := js_of_Z 0; exchangeRate := js_of_Z 0;
                 conv_error := None; conv_source := None;
                 conv_lastUpdate := None |}, c)
  else
    let '(fetched, c) :=
      if (length (map_to_list (rates (state c))).*1 =? 0)%nat
      then fetchRates fromCurrency false c
      else (Resolved None, c) in
    match fetched with
    | Pending => (Pending, c)
    | Resolved _ =>
        let table := rates (state c) in
        let rate :=
          if decide (fromCurrency = "USD")
          then rate_or_1 table toCurrency
          else if decide (toCurrency = "USD")
          then js_div (js_of_Z 1) (rate_or_1 table fromCurrency)
          else
            let fromRate := rate_or_1 table fromCurrency in
            let toRate := rate_or_1 table toCurrency in
            js_div toRate fromRate in
        (Resolved {| convertedAmount := js_mul amount rate;
                     exchangeRate := rate;
                     conv_error := None;
                     conv_source := state_source (state c);
                     conv_lastUpdate := lastUpdate (state c) |}, c)
    end.
End Converter.

(** * The rest of the service *)

(** ** The constructor *)

(** [this.fallbackRates] as the constructor writes it. *)
Definition hardcoded_fallbackRates : RateTable :=
  list_to_map
    [ ("EUR", JFin (876 # 1000)); ("GBP", JFin (738 # 1000));
      ("JPY", JFin (1562 # 10)); ("AUD", JFin (1542 # 1000));
      ("CAD", JFin (1384 # 1000)); ("CHF", JFin (891 # 1000));
      ("CNY", JFin (7245 # 1000)); ("INR", JFin (8312 # 100));
      ("KRW", JFin (13985 # 10)); ("MXN", JFin (1875 # 100));
      ("SGD", JFin (1348 # 1000)); ("HKD", JFin (7785 # 1000));
      ("NOK", JFin (1085 # 100)); ("SEK", JFin (1042 # 100));
      ("DKK", JFin (653 # 100)); ("PLN", JFin (412 # 100));
      ("CZK", JFin (2315 # 100)); ("HUF", JFin (3852 # 10));
      ("RUB", JFin (895 # 10)); ("BRL", JFin (548 # 100));
      ("ZAR", JFin (1825 # 100)); ("TRY", JFin (3285 # 100));
      ("ILS", JFin (368 # 100)); ("AED", JFin (3673 # 1000));
      ("SAR", JFin (3751 # 1000)); ("THB", JFin (3645 # 100));
      ("MYR", JFin (4685 # 1000)); ("IDR", JFin (16125 # 1));
      ("PHP", JFin (5825 # 100)); ("VND", JFin (24850 # 1));
      ("EGP", JFin (4915 # 100)); ("NGN", JFin (1545 # 1));
      ("KES", JFin (1295 # 10)); ("GHS", JFin (1585 # 100));
      ("MAD", JFin (982 # 100)) ].

(** [new ExchangeRateAPIService()] on a host whose storage holds [store],
    whose clock shows [now] and whose [navigator.onLine] is [onLine]. *)
Definition new_service (store : gmap string string) (now : Z) (onLine : bool)
    : Service :=
  {| localStorage := store; clock := now; events := [];
     isOnline := onLine; lastRequestTime := 0; metrics := initial_metrics;
     fallbackRates := hardcoded_fallbackRates |}.

Definition set_isOnline (b : bool) (s : Service) : Service :=
  {| localStorage := localStorage s; clock := clock s; events := events s;
     isOnline := b; lastRequestTime := lastRequestTime s;
     metrics := metrics s; fallbackRates := fallbackRates s |}.

(** ** getCacheStats and processRequestQueue *)

(** What [getCacheStats] returns. Lengths are counted in characters of
    the embedding's strings. *)
Record CacheStats : Type := {
  totalEntries : nat;
  totalSize : nat;
  oldestEntry : option string
}.

(** [l.reduce(f, init)] *)
Fixpoint reduce {A B} (f : B -> A -> M B) (l : list A) (init : B) : M B :=
  match l with
  | [] => mret init
  | x :: l' => f init x ≫= λ acc, reduce f l' acc
  end.

(** [localStorage.getItem(key)?.length || 0] *)
Definition length_or_0 (item : option string) : nat :=
  match item with
  | Some value => String.length value
  | None => 0
  end.

(** An entry of [requestQueue]: the base currency, and a number that
    names the [resolve]/[reject] pair of the request. *)
Record QueuedRequest : Type := {
  q_baseCurrency : string;
  q_id : nat
}.

(** A call of [request.resolve] or of [request.reject]. *)
Inductive Settlement : Type :=
| Resolve (request : nat) (result : RatesResult)
| Reject (request : nat) (error : Thrown).

Section ServiceRest.
Variable env : Env.

(** [new Date(a) < new Date(b)]: false when either is not a date. *)
Definition date_lt (a b : string) : bool :=
  match Date_parse env a, Date_parse env b with
  | Some x, Some y => (x <? y)%Z
  | _, _ => false
  end.

(** The callbacks of the two [reduce] calls of [getCacheStats]. *)
Definition add_size (size : nat) (key : string) : M nat :=
  item ← getItem env key;
  mret (size + length_or_0 item)%nat.

Definition older (oldest : option string) (key : string) : M (option string) :=
  timestamp ← getItem env key;
  if negb (falsy_item timestamp)
     && (falsy_item oldest
         || date_lt (default "" timestamp) (default "" oldest))
  then mret timestamp
  else mret oldest.

Definition getCacheStats : M CacheStats :=
  keys ← Object_keys env;
  let cacheKeys := List.filter (fun key => startsWith key cacheKey) keys in
  let timestampKeys :=
    List.filter (fun key => startsWith key cacheTimestampKey) keys in
  size ← reduce add_size cacheKeys 0%nat;
  oldest ← reduce older timestampKeys None;
  mret {| totalEntries := length cacheKeys; totalSize := size;
          oldestEntry := oldest |}.

(** [processRequestQueue], with [this.requestQueue] passed in and the
    part of it that is left handed back, together with the calls of
    [resolve] and [reject] in the order they were made. *)
Fixpoint processRequestQueue (requestQueue : list QueuedRequest)
    : M (list QueuedRequest * list Settlement) :=
  match requestQueue with
  | [] => mret ([], [])
  | request :: rest =>
      online ← gets isOnline;
      if online : bool
      then
        settled ← try_catch
                    (result ← getExchangeRates env (q_baseCurrency request)
                                true;
                     mret (Resolve (q_id request) result))
                    (fun error => mret (Reject (q_id request) error));
        done ← processRequestQueue rest;
        mret (done.1, settled :: done.2)
      else mret (requestQueue, [])
  end.

(** The listeners of [initializeEventListeners]. *)
Definition service_online (requestQueue : list QueuedRequest)
    : M (list QueuedRequest * list Settlement) :=
  modify (set_isOnline true) ≫= λ _, processRequestQueue requestQueue.

Definition service_offline : M unit := modify (set_isOnline false).
End ServiceRest.

(** ** Histories of the metrics *)

(** A call of one of the three recording methods. *)
Inductive Recorded : Type :=
| ApiSuccess (responseTime : jsnum)
| CacheHit (responseTime : jsnum)
| ApiError (responseTime : jsnum) (errorMessage : string).

Definition record (m : Metrics) (call : Recorded) : Metrics :=
  match call with
  | ApiSuccess responseTime => recordApiSuccess responseTime m
  | CacheHit responseTime => recordCacheHit responseTime m
  | ApiError responseTime errorMessage =>
      recordApiError responseTime errorMessage m
  end.

(** * The rest of the converter *)

(** An element of the array [getPopularRates] returns. *)
Record PopularRate : Type := {
  pair_from : string;
  pair_to : string;
  pair_id : string;
  pair_rate : string
}.

(** The [popularPairs] of [getPopularRates]: [from], [to] and [id]. *)
Definition popularPairs : list (string * string * string) :=
  [ ("USD", "EUR", "usdeur"); ("USD", "GBP", "usdgbp");
    ("USD", "JPY", "usdjpy"); ("EUR", "GBP", "eurgbp");
    ("GBP", "USD", "gbpusd") ].

(** [rates[code] || 0], for a code as in [rate_or_1]. *)
Definition rate_or_0 (table : RateTable) (code : string) : jsnum :=
  js_or (table !! code) (js_of_Z 0).

(** The rate [getPopularRates] computes for a pair, before formatting. *)
Definition popular_rate (table : RateTable) (from to : string) : jsnum :=
  if decide (from = "USD")
  then rate_or_0 table to
  else if decide (to = "USD")
  then js_div (js_of_Z 1) (rate_or_1 table from)
  else
    let fromRate := rate_or_1 table from in
    let toRate := rate_or_1 table to in
    js_div toRate fromRate.

(** [new CurrencyConverter()] before its last line: the state and the
    empty list of subscribers, around a service. *)
Definition new_converter (service : Service) (onLine : bool) : Converter :=
  {| apiService := service;
     state := {| loading := false; error := None; rates := ∅;
                 lastUpdate := None; isOffline := negb onLine;
                 state_source := None |};
     subscribers := 0; arrays := {[ 0%nat := [] ]};
     debounceTimer := None; calls := [] |}.

Section ConverterRest.
Variable env : Env.
Variable behaviour : nat -> EngineState -> list Action.
(** [new Intl.NumberFormat('en-US', {minimumFractionDigits: 2,
    maximumFractionDigits: 6}).format] *)
Variable NumberFormat_format : jsnum -> string.

Definition formatCurrency (amount : jsnum) : string :=
  match amount with
  | JNaN => "0.00"
  | _ => NumberFormat_format amount
  end.

Definition getPopularRates (c : Converter) : list PopularRate :=
  map (fun pair : string * string * string =>
         let '(from, to, id) := pair in
         {| pair_from := from; pair_to := to; pair_id := id;
            pair_rate :=
              formatCurrency (popular_rate (rates (state c)) from to) |})
      popularPairs.

Definition loadInitialRates (c : Converter)
    : Settled (option RatesResult) * Converter :=
  fetchRates env behaviour "USD" false c.

(** [refreshRates]; [field] is
    [document.getElementById('fromCurrency')?.value]. *)
Definition refreshRates (field : option string) (c : Converter)
    : Settled (option RatesResult) * Converter :=
  let fromCurrency :=
    if falsy_item field then "USD" else default "" field in
  fetchRates env behaviour fromCurrency true c.

(** [new CurrencyConverter()], up to the point where the reload started
    by its last line has settled. *)
Definition new_CurrencyConverter (store : gmap string string) (now : Z) (onLine : bool)
    : Settled (option RatesResult) * Converter :=
  loadInitialRates (new_converter (new_service store now onLine) onLine).

(** The two listeners of the converter's [initializeEventListeners],
    each up to the point where what it started has settled. *)
Definition converter_online (field : option string) (c : Converter)
    : Settled (option RatesResult) * Converter :=
  let c := setState behaviour
             {| patch_loading := None; patch_error := None;
                patch_rates := None; patch_lastUpdate := None;
                patch_isOffline := Some false; patch_source := None |} c in
  refreshRates field c.

Definition converter_offline (c : Converter) : Converter :=
  setState behaviour
    {| patch_loading := None; patch_error := None;
       patch_rates := None; patch_lastUpdate := None;
       patch_isOffline := Some true; patch_source := None |} c.

(** The converter's [clearCache], up to the point where the reload it
    starts without awaiting has settled. When the service's
    [clearCache] throws, neither [setState] nor the reload runs. *)
Definition converter_clearCache (c : Converter)
    : Outcome (Settled (option RatesResult)) * Converter :=
  match clearCache env (apiService c) with
  | (Throw e, s) => (Throw e, set_apiService s c)
  | (Ok _, s) =>
      let c := set_apiService s c in
      let c := setState behaviour
                 {| patch_loading := None;
                    patch_error :=
                      Some (Some "Cache cleared - fetching fresh data...");
                    patch_rates := Some ∅;
                    patch_lastUpdate := Some None;
                    patch_isOffline := None; patch_source := None |} c in
      let '(reloaded, c) := loadInitialRates c in
      (Ok reloaded, c)
  end.
End ConverterRest.

(** * The service worker

    The worker answers the page's requests. Its caches are maps from the
    URL of a request to the response stored for it; the bodies of the
    two responses the worker makes up itself are constructors of their
    own. [cache.put] is taken to have finished before the next request
    is handled, and the cache storage to work. *)

Inductive SwBody : Type :=
| Payload (text : string)
(** [JSON.stringify({error: 'Network unavailable and no cached data',
    offline: true})] *)
| OfflineNotice
(** The "You're Offline" page. *)
| OfflinePage.

Record SwResponse : Type := {
  sw_status : nat;
  sw_statusText : string;
  sw_headers : gmap string string;
  sw_body : SwBody
}.

(** What [fetch(request)] does in the worker: it rejects, or it is
    answered. *)
Inductive SwNetwork : Type :=
| SwRejected (message : string)
| SwAnswered (networkResponse : SwResponse).

Abbreviation SwCache := (gmap string SwResponse).

Definition apiUrls : list string :=
  ["https://api.exchangerate-api.com"; "https://open.er-api.com"].

(** [s.includes(sub)] *)
Definition includes (s sub : string) : bool :=
  match String.index 0 sub s with
  | Some _ => true
  | None => false
  end.

(** [isApiRequest(url)], on [url.href]. *)
Definition isApiRequest (href : string) : bool :=
  existsb (fun apiUrl => includes href (js_replace apiUrl "https://" ""))
    apiUrls.

Definition with_header (name value : string) (r : SwResponse) : SwResponse :=
  {| sw_status := sw_status r; sw_statusText := sw_statusText r;
     sw_headers := <[name := value]> (sw_headers r);
     sw_body := sw_body r |}.

Section ServiceWorker.
(** [n.toString()] and [parseInt(text)] of the host; [None] is NaN. *)
Variable Number_toString : Z -> string.
Variable parseInt : string -> option Z.

(** The copy of a network response that [handleApiRequest] stores. *)
Definition cachedResponse_of (now : Z) (networkResponse : SwResponse)
    : SwResponse :=
  with_header "sw-cache-ttl" (Number_toString (5 * 60 * 1000))
    (with_header "sw-cache-timestamp" (Number_toString now) networkResponse).

(** [age < ttl] for [age = Date.now() - parseInt(cacheTimestamp)] and
    [ttl = parseInt(cacheTTL)]: false when either is NaN. *)
Definition within_ttl (now : Z) (cacheTimestamp cacheTTL : string) : bool :=
  match parseInt cacheTimestamp, parseInt cacheTTL with
  | Some stamp, Some ttl => (now - stamp <? ttl)%Z
  | _, _ => false
  end.

(** The [catch] block of [handleApiRequest]. *)
Definition handleApiRequest_catch (now : Z) (url : string) (cache : SwCache)
    : SwResponse :=
  match cache !! url with
  | Some cachedResponse =>
      let cacheTimestamp := sw_headers cachedResponse !! "sw-cache-timestamp" in
      let cacheTTL := sw_headers cachedResponse !! "sw-cache-ttl" in
      if negb (falsy_item cacheTimestamp) && negb (falsy_item cacheTTL)
         && within_ttl now (default "" cacheTimestamp) (default "" cacheTTL)
      then cachedResponse
      else with_header "sw-cache-stale" "true" cachedResponse
  | None =>
      {| sw_status := 503; sw_statusText := "";
         sw_headers := {[ "content-type" := "application/json" ]};
         sw_body := OfflineNotice |}
  end.

(** [handleApiRequest(request)]; [now] is what [Date.now()] yields when
    it is read, once, after the network has answered or failed. *)
Definition handleApiRequest (network : SwNetwork) (now : Z) (url : string)
    (cache : SwCache) : SwResponse * SwCache :=
  match network with
  | SwAnswered networkResponse =>
      if response_ok (sw_status networkResponse)
      then (networkResponse,
            <[url := cachedResponse_of now networkResponse]> cache)
      else (handleApiRequest_catch now url cache, cache)
  | SwRejected _ => (handleApiRequest_catch now url cache, cache)
  end.

(** [handleStaticRequest(request)]: a response, or the error of the
    network thrown again; [navigate] is [request.mode === 'navigate']. *)
Definition handleStaticRequest (network : SwNetwork) (navigate : bool)
    (url : string) (cache : SwCache) : (SwResponse + string) * SwCache :=
  match cache !! url with
  | Some cachedResponse => (inl cachedResponse, cache)
  | None =>
      match network with
      | SwAnswered networkResponse =>
          (inl networkResponse,
           if response_ok (sw_status networkResponse)
           then <[url := networkResponse]> cache
           else cache)
      | SwRejected message =>
          if navigate
          then (inl {| sw_status := 200; sw_statusText := "";
                       sw_headers := {[ "content-type" := "text/html" ]};
                       sw_body := OfflinePage |}, cache)
          else (inr message, cache)
      end
  end.
End ServiceWorker.

(** [updateExchangeRates()], the background sync. *)
Definition updateExchangeRates (network : SwNetwork) (cache : SwCache)
    : SwCache :=
  match network with
  | SwAnswered response =>
      if response_ok (sw_status response)
      then <["https://api.exchangerate-api.com/v4/latest/USD" := response]>
             cache
      else cache
  | SwRejected _ => cache
  end.

(** * The debounce timer of fetchRates

    [fetchRates] above is a call of [fetchRates] followed to its end.
    Here the call and the callback of its timer are two steps of the
    page, so that a second call can come between them. A timer is named
    by its handle; the promise a call returns is named by the handle of
    the timer the call sets, whose callback holds its [resolve]. *)

Record Timer : Type := {
  handle : nat;
  due : Z;
  timer_baseCurrency : string;
  timer_forceRefresh : bool
}.

(** The page: the converter, the timers that are pending, the handle in
    [this.debounceTimer] (the converter's field of that name keeps the
    time the timer is due), the next handle of [setTimeout], and the
    promises of [fetchRates] resolved so far, with their values. *)
Record Page : Type := {
  converter : Converter;
  timers : list Timer;
  armed : option nat;
  next_handle : nat;
  settled : list (nat * option RatesResult)
}.

(** [clearTimeout(handle)] *)
Definition clearTimeout (h : nat) (pending : list Timer) : list Timer :=
  List.filter (fun t => negb (handle t =? h)%nat) pending.

(** The call of [fetchRates], up to the promise it returns. *)
Definition call_fetchRates (baseCurrency : string) (forceRefresh : bool)
    (p : Page) : nat * Page :=
  let pending :=
    match armed p with
    | Some h => clearTimeout h (timers p)
    | None => timers p
    end in
  let h := next_handle p in
  let t := {| handle := h;
              due := clock (apiService (converter p)) + 300;
              timer_baseCurrency := baseCurrency;
              timer_forceRefresh := forceRefresh |} in
  (h, {| converter := set_debounceTimer (Some (due t)) (converter p);
         timers := (pending ++ [t])%list;
         armed := Some h;
         next_handle := S h;
         settled := settled p |}).

Section Debounce.
Variable env : Env.
Variable behaviour : nat -> EngineState -> list Action.

(** The callback of the timer. *)
Definition fetchRates_callback (baseCurrency : string) (forceRefresh : bool)
    (c : Converter) : Settled (option RatesResult) * Converter :=
  let c := setState behaviour
             {| patch_loading := Some true; patch_error := Some None;
                patch_rates := None; patch_lastUpdate := None;
                patch_isOffline := None; patch_source := None |} c in
  match getExchangeRates env baseCurrency forceRefresh (apiService c) with
  | (Ok result, s) =>
      let c := set_apiService s c in
      let c := setState behaviour
                 {| patch_loading := Some false;
                    patch_error := Some (warning_or_null (warning result));
                    patch_rates := Some (r_rates result);
                    patch_lastUpdate := Some (Some (r_timestamp result));
                    patch_isOffline := None;
                    patch_source := Some (Some (source result)) |} c in
      (Resolved (Some result), c)
  | (Throw (ThrownError message), s) =>
      let c := set_apiService s c in
      let c := setState behaviour
                 {| patch_loading := Some false;
                    patch_error :=
                      Some (Some ("Failed to fetch exchange rates: "
                                    ++ message));
                    patch_rates := None; patch_lastUpdate := None;
                    patch_isOffline := None; patch_source := None |} c in
      (Resolved None, c)
  | (Throw ThrownUndefined, s) => (Pending, set_apiService s c)
  end.

(** The timer with the handle [h] fires, once the time it is due has
    come: its callback runs to its end. Nothing happens if the timer is
    not pending. *)
Definition fire (h : nat) (p : Page) : Page :=
  match List.find (fun t => (handle t =? h)%nat) (timers p) with
  | None => p
  | Some t =>
      let c := converter p in
      let wait := Z.max 0 (due t - clock (apiService c)) in
      let c := set_apiService (sleep wait (apiService c)).2 c in
      let '(outcome, c) :=
        fetchRates_callback (timer_baseCurrency t) (timer_forceRefresh t) c in
      {| converter := c;
         timers := clearTimeout h (timers p);
         armed := armed p;
         next_handle := next_handle p;
         settled :=
           match outcome with
           | Resolved value => (h, value) :: settled p
           | Pending => settled p
           end |}
  end.
End Debounce.



(** * Specification-level definitions *)

(** ** Assumptions on the host *)

(** The storage never throws. *)
Definition reliable (env : Env) : Prop :=
  ∀ op, storage_fault env op = None.

(** Never throwing. *)
Definition total {A} (m : M A) : Prop :=
  ∀ s, ∃ a s', m s = (Ok a, s').

(** What is thrown is an [Error], not [undefined]. *)
Definition is_error (e : Thrown) : Prop :=
  match e with
  | ThrownError _ => True
  | ThrownUndefined => False
  end.

(** ** Frames *)

(** Two states that differ in the local storage only. *)
Definition same_service (s s' : Service) : Prop :=
  clock s' = clock s ∧ events s' = events s ∧ isOnline s' = isOnline s
  ∧ lastRequestTime s' = lastRequestTime s ∧ metrics s' = metrics s
  ∧ fallbackRates s' = fallbackRates s.

(** A computation that touches nothing but the local storage. *)
Definition storage_only {A} (m : M A) : Prop :=
  ∀ s, same_service s (m s).2.

(** Two states that differ in the clock and the event log only. *)
Definition same_but_time (s s' : Service) : Prop :=
  localStorage s' = localStorage s ∧ isOnline s' = isOnline s
  ∧ lastRequestTime s' = lastRequestTime s ∧ metrics s' = metrics s
  ∧ fallbackRates s' = fallbackRates s.

(** ** Provenance *)

(** The six values of the [source] field. *)
Definition sources : list string :=
  ["cache"; "offline_cache"; "fallback"; "api";
   "error_fallback_cache"; "error_fallback_hardcoded"].

(** The provenance tags of the specification and the [source] strings
    that stand for them. *)
Inductive Provenance : Type :=
| network
| cache
| offline_cache
| static_fallback
| error_cache_fallback
| error_static_fallback.

Definition source_of (p : Provenance) : string :=
  match p with
  | network => "api"
  | cache => "cache"
  | offline_cache => "offline_cache"
  | static_fallback => "fallback"
  | error_cache_fallback => "error_fallback_cache"
  | error_static_fallback => "error_fallback_hardcoded"
  end.

(** The result records of [getExchangeRates]. *)
Definition cached_result (c : Cached) (tag : string) (w : option string)
    : RatesResult :=
  {| success := true; r_rates := c_rates c; r_timestamp := c_timestamp c;
     source := tag; warning := w |}.

Definition fallback_result (env : Env) (s : Service) (tag : string)
    : RatesResult :=
  {| success := true; r_rates := fallbackRates s;
     r_timestamp := toISOString env (clock s);
     source := tag; warning := Some "Last Refreshed Rate" |}.

(** ** Cache entries *)

(** A readable cache entry for a base currency: both items are stored,
    neither is empty, and the data item parses. *)
Definition entry_exists (env : Env) (s : Service) (baseCurrency : string)
    : bool :=
  negb (falsy_item (localStorage s !! dataKeyOf baseCurrency))
  && negb (falsy_item (localStorage s !! timestampKeyOf baseCurrency))
  && bool_decide
       (is_Some (JSON_parse env
                   (default "" (localStorage s !! dataKeyOf baseCurrency)))).

(** The entry is there and younger than the TTL. *)
Definition entry_fresh (env : Env) (s : Service) (baseCurrency : string)
    : bool :=
  entry_exists env s baseCurrency
  && age_lt (age_of env (clock s)
               (default "" (localStorage s !! timestampKeyOf baseCurrency)))
       cacheDuration.

(** The entry of a base currency as [getCachedRates] reports it. *)
Definition entry_view (env : Env) (s : Service) (baseCurrency : string)
    : Cached :=
  let data := default "" (localStorage s !! dataKeyOf baseCurrency) in
  let timestamp :=
    default "" (localStorage s !! timestampKeyOf baseCurrency) in
  {| c_rates := default ∅ (JSON_parse env data);
     c_timestamp := timestamp;
     c_age := age_of env (clock s) timestamp |}.

(** What [getCachedRates] yields in a state. *)
Definition cache_read (env : Env) (baseCurrency : string) (allowStale : bool)
    (s : Service) : option Cached :=
  match getCachedRates env baseCurrency allowStale s with
  | (Ok found, _) => found
  | (Throw _, _) => None
  end.

(** The key under which a foreign writer could shadow the timestamp item
    of a base currency: [cleanOldCache] maps it to that item's key. The
    service itself never writes it. *)
Definition shadowKeyOf (baseCurrency : string) : string :=
  cacheTimestampKey ++ "Timestamp_" ++ baseCurrency.

(** The test of [cleanOldCache] on one key, and the two sweeps as
    functions on the stored items. *)
Definition expired (env : Env) (now : Z) (m : gmap string string)
    (key : string) : bool :=
  startsWith key cacheTimestampKey
  && negb (falsy_item (m !! key))
  && age_gt (age_of env now (default "" (m !! key))) (cacheDuration * 2).

Definition sweep_step (env : Env) (now : Z) (m : gmap string string)
    (key : string) : gmap string string :=
  if expired env now m key
  then delete (js_replace key cacheTimestampKey cacheKey) (delete key m)
  else m.

Definition clear_step (m : gmap string string) (key : string)
    : gmap string string :=
  if startsWith key cacheKey || startsWith key cacheTimestampKey
  then delete key m
  else m.

(** ** The fetch pipeline *)

(** What one network attempt yields, and how long it takes: both depend
    on the host's answer only. *)
Definition attempt_outcome (env : Env) (baseCurrency : string) (attempt : nat)
    (url : string) : Outcome Fetched :=
  fst (attempt_fetch env baseCurrency attempt url
         {| localStorage := ∅; clock := 0; events := []; isOnline := true;
            lastRequestTime := 0; metrics := initial_metrics;
            fallbackRates := ∅ |}).

Definition attempt_duration (env : Env) (attempt : nat) (url : string) : Z :=
  Z.min fetchTimeout (Z.of_N (latency (net env attempt url))).

Definition attempt_fails (env : Env) (baseCurrency : string)
    (x : nat * string) : bool :=
  match attempt_outcome env baseCurrency x.1 x.2 with
  | Ok _ => false
  | Throw _ => true
  end.

(** The error thrown by an attempt, if it fails. *)
Definition attempt_error (env : Env) (baseCurrency : string)
    (x : nat * string) : option Thrown :=
  match attempt_outcome env baseCurrency x.1 x.2 with
  | Ok _ => None
  | Throw e => Some e
  end.

(** Every endpoint fails in every round. *)
Definition all_fail (env : Env) (baseCurrency : string) : Prop :=
  ∀ attempt url, attempt_fails env baseCurrency (attempt, url) = true.

(** The attempts of [fetchWithRetry] in program order. *)
Definition plan (maxRetries : nat) (urls : list string) : list (nat * string) :=
  flat_map (fun attempt => map (fun url => (attempt, url)) urls)
    (seq 0 maxRetries).

(** The attempts made before the first success, and that success. *)
Fixpoint failed_prefix (fails : nat * string -> bool)
    (l : list (nat * string)) : list (nat * string) :=
  match l with
  | [] => []
  | x :: l' => if fails x then x :: failed_prefix fails l' else []
  end.

Fixpoint first_success (fails : nat * string -> bool)
    (l : list (nat * string)) : option (nat * string) :=
  match l with
  | [] => None
  | x :: l' => if fails x then first_success fails l' else Some x
  end.

(** The error of the last attempt of a plan. *)
Definition last_error (env : Env) (baseCurrency : string)
    (l : list (nat * string)) : option Thrown :=
  match last l with
  | Some x => attempt_error env baseCurrency x
  | None => None
  end.

(** What a failed attempt leaves in the log: the call, and the backoff
    pause unless the round is the last one. *)
Definition failed_segment (maxRetries : nat) (x : nat * string) : list What :=
  Fetch x.1 x.2
    :: (if (x.1 <? maxRetries - 1)%nat
        then [Sleep (1000 * (Z.of_nat x.1 + 1))]
        else []).

(** The state after one attempt, and after the pause that follows a
    failed one. *)
Definition after_attempt (env : Env) (x : nat * string) (s : Service)
    : Service :=
  set_clock (clock s + attempt_duration env x.1 x.2)
    (log_event (Fetch x.1 x.2) s).

Definition after_backoff (maxRetries : nat) (x : nat * string) (s : Service)
    : Service :=
  if (x.1 <? maxRetries - 1)%nat
  then snd (sleep (1000 * (Z.of_nat x.1 + 1)) s)
  else s.

(** The two loops of [fetchWithRetry] as one walk along the plan. *)
Fixpoint walk (env : Env) (baseCurrency : string) (maxRetries : nat)
    (l : list (nat * string)) (lastError : option Thrown) (s : Service)
    : (Fetched + option Thrown) * Service :=
  match l with
  | [] => (inr lastError, s)
  | x :: l' =>
      match attempt_outcome env baseCurrency x.1 x.2 with
      | Ok r => (inl r, after_attempt env x s)
      | Throw e =>
          walk env baseCurrency maxRetries l' (Some e)
            (after_backoff maxRetries x (after_attempt env x s))
      end
  end.

(** ** The states [getExchangeRates] passes through *)

(** After the rate limiting check. *)
Definition rate_limited (s : Service) : Service :=
  if (clock s - lastRequestTime s <? minRequestInterval)%Z
  then snd (sleep (minRequestInterval - (clock s - lastRequestTime s)) s)
  else s.

(** The state in which the [catch] block reads the cache, and the one in
    which a successful run ends. *)
Definition after_failure (message : string) (startTime : Z) (s : Service)
    : Service :=
  set_metrics (recordApiError (js_of_Z (clock s - startTime)) message) s.

Definition after_success (env : Env) (baseCurrency : string)
    (table : RateTable) (startTime : Z) (s : Service) : Service :=
  let s' := (cacheRates env baseCurrency table
               (set_lastRequestTime (clock s) s)).2 in
  set_metrics (recordApiSuccess (js_of_Z (clock s' - startTime))) s'.

(** ** Reading the event log *)

(** The start times of the network calls of a log, with their round. *)
Fixpoint fetch_starts (l : list Event) : list (nat * Z) :=
  match l with
  | [] => []
  | {| ev_time := t; ev_what := Fetch attempt _ |} :: l' =>
      (attempt, t) :: fetch_starts l'
  | _ :: l' => fetch_starts l'
  end.

(** A pause lies between two network calls of one round. *)
Fixpoint sleeps_inside_a_round (l : list What) : bool :=
  match l with
  | Fetch a _ :: ((Sleep _ :: Fetch b _ :: _) as l') =>
      (a =? b)%nat || sleeps_inside_a_round l'
  | _ :: l' => sleeps_inside_a_round l'
  | [] => false
  end.

(** Successive calls start at least [gap] milliseconds apart. *)
Fixpoint spaced_by (gap : Z) (starts : list Z) : bool :=
  match starts with
  | t :: ((t' :: _) as rest) => (t + gap <=? t')%Z && spaced_by gap rest
  | _ => true
  end.

(** A call made in a round that is not the last one is followed by the
    next call no sooner than the backoff pause of its round. *)
Fixpoint backoff_spaced (maxRetries : nat) (starts : list (nat * Z)) : bool :=
  match starts with
  | (a, t) :: (((_, t') :: _) as rest) =>
      (if (a <? maxRetries - 1)%nat
       then (t + 1000 * (Z.of_nat a + 1) <=? t')%Z
       else true)
      && backoff_spaced maxRetries rest
  | _ => true
  end.

(** ** Notification rounds and rate tables *)

(** The callback invocations in the order they happened. *)
Definition call_log (c : Converter) : list (nat * EngineState) :=
  rev (calls c).

(** During a round over the array behind [a], which held [subs] when the
    round began: the array still begins with [subs], and the state is
    still the merged one. *)
Definition steady (a : nat) (subs : list nat) (merged : EngineState)
    (c : Converter) : Prop :=
  (∃ extra, arrays c !! a = Some (subs ++ extra)%list) ∧ state c = merged.


(** ** Hosts and states used in the examples *)

#[global] Instance Q_eq_dec : EqDecision Q.
Proof. solve_decision. Defined.

#[global] Instance jsnum_eq_dec : EqDecision jsnum.
Proof. solve_decision. Defined.

(** The table of the specification's conversion examples. *)
Definition example_table : RateTable :=
  {[ "EUR" := JFin (9 # 10); "GBP" := JFin (8 # 10) ]}.

(** A host that writes timestamps as decimal milliseconds, knows how to
    write and read back [example_table], and whose storage works. *)
Definition example_host (answers : nat -> string -> NetReply) : Env :=
  {| JSON_stringify :=
       fun table =>
         if decide (table = example_table) then "EUR:0.9,GBP:0.8" else "{}";
     JSON_parse :=
       fun text =>
         if decide (text = "EUR:0.9,GBP:0.8") then Some example_table
         else if decide (text = "{}") then Some ∅
         else None;
     toISOString := fun t => NilZero.string_of_int (Z.to_int t);
     Date_parse := fun text => Z.of_int <$> NilZero.int_of_string text;
     storage_fault := fun _ => None;
     net := answers |}.

(** Every network call fails at once. *)
Definition unreachable : nat -> string -> NetReply :=
  fun _ _ => {| latency := 0; reply := NetworkError "Failed to fetch" |}.

(** The primary endpoint answers with status 503; the other one answers
    with [example_table] after 120 ms. *)
Definition primary_down : nat -> string -> NetReply :=
  fun _ url =>
    if startsWith url baseUrl
    then {| latency := 40;
            reply := HttpResponse 503 "Service Unavailable"
                       (BodyInvalid "Unexpected end of JSON input") |}
    else {| latency := 120;
            reply := HttpResponse 200 "OK"
                       (BodyJson None (Some example_table) None) |}.

(** The fallback table of the examples. *)
Definition example_fallback : RateTable :=
  {[ "EUR" := JFin (876 # 1000); "GBP" := JFin (738 # 1000) ]}.

(** A service that is online, has made no request yet and holds
    [store] in the local storage, at the time [now]. *)
Definition service_at (now : Z) (store : gmap string string) : Service :=
  {| localStorage := store; clock := now; events := []; isOnline := true;
     lastRequestTime := 0; metrics := initial_metrics;
     fallbackRates := example_fallback |}.

(** A storage holding an entry for USD written at time 1000. *)
Definition stored_entry : gmap string string :=
  {[ "exchangeRates_USD" := "EUR:0.9,GBP:0.8";
     "exchangeRatesTimestamp_USD" := "1000" ]}.

(** A converter that holds [table], with the callbacks [subs] subscribed
    in that order, over a service that is offline with an empty storage. *)
Definition converter_with (table : RateTable) (subs : list nat) : Converter :=
  {| apiService :=
       {| localStorage := ∅; clock := 5000; events := []; isOnline := false;
          lastRequestTime := 0; metrics := initial_metrics;
          fallbackRates := example_fallback |};
     state := {| loading := false; error := None; rates := table;
                 lastUpdate := None; isOffline := true;
                 state_source := None |};
     subscribers := 0;
     arrays := {[ 0%nat := subs ]};
     debounceTimer := None;
     calls := [] |}.

(** Callbacks that only look at the state. *)
Definition observers : nat -> EngineState -> list Action := fun _ _ => [].

(** Callback 1 unsubscribes itself and callback 2 when it is called, and
    subscribes callback 4; the others only look. *)
Definition unsubscribing : nat -> EngineState -> list Action :=
  fun callback _ =>
    match callback with
    | 1%nat => [ActUnsubscribe 1%nat; ActUnsubscribe 2%nat; ActSubscribe 4%nat]
    | _ => []
    end.

(** ** Counting and timing the network calls *)

(** The number of network calls in the log. *)
Definition network_calls (s : Service) : nat :=
  length (fetch_starts (trace s)).

(** The longest an attempt can take: the abort timer, and the backoff
    pause of its round if it fails. *)
Definition attempt_budget (maxRetries : nat) (x : nat * string) : Z :=
  fetchTimeout
  + (if (x.1 <? maxRetries - 1)%nat then 1000 * (Z.of_nat x.1 + 1) else 0).

Definition time_budget (maxRetries : nat) (l : list (nat * string)) : Z :=
  foldr (fun x acc => attempt_budget maxRetries x + acc) 0 l.

(** The sources that stand for a failed network resolution. *)
Definition error_source (tag : string) : bool :=
  bool_decide (tag = "error_fallback_cache")
  || bool_decide (tag = "error_fallback_hardcoded").

(** A service that is offline, at the time [now]. *)
Definition offline_at (now : Z) (store : gmap string string) : Service :=
  set_isOnline false (service_at now store).

(** ** Cache statistics *)

(** The two folds of [getCacheStats] as functions of the stored items. *)
Definition size_of (m : gmap string string) (keys : list string)
    (size : nat) : nat :=
  foldl (fun size key => (size + length_or_0 (m !! key))%nat) size keys.

Definition older_of (env : Env) (m : gmap string string)
    (oldest : option string) (key : string) : option string :=
  if negb (falsy_item (m !! key))
     && (falsy_item oldest
         || date_lt env (default "" (m !! key)) (default "" oldest))
  then m !! key
  else oldest.

(** The statistics of a storage whose keys are listed in the order
    [keys]. *)
Definition stats_of (env : Env) (m : gmap string string)
    (keys : list string) : CacheStats :=
  {| totalEntries :=
       length (List.filter (fun key => startsWith key cacheKey) keys);
     totalSize :=
       size_of m (List.filter (fun key => startsWith key cacheKey) keys) 0;
     oldestEntry :=
       foldl (older_of env m) None
         (List.filter (fun key => startsWith key cacheTimestampKey) keys) |}.

(** Every timestamp item of a storage holds a date. *)
Definition timestamps_are_dates (env : Env) (m : gmap string string) : bool :=
  forallb
    (fun item : string * string =>
       implb (startsWith item.1 cacheTimestampKey)
         (negb (falsy_item (Some item.2))
          && bool_decide (is_Some (Date_parse env item.2))))
    (map_to_list m).

(** A storage without cache items. *)
Definition no_cache_items (m : gmap string string) : bool :=
  forallb (fun item : string * string => negb (startsWith item.1 cacheKey))
    (map_to_list m).

(** ** Histories of the metrics *)

Definition is_CacheHit (call : Recorded) : bool :=
  match call with CacheHit _ => true | _ => false end.
Definition is_ApiError (call : Recorded) : bool :=
  match call with ApiError _ _ => true | _ => false end.

(** The response times of the successful network calls of a history,
    in its order. *)
Definition success_times (history : list Recorded) : list jsnum :=
  flat_map (fun call => match call with
                        | ApiSuccess responseTime => [responseTime]
                        | _ => []
                        end) history.

(** The average the metrics hold when they are consistent. *)
Definition average_of (m : Metrics) : jsnum :=
  if (apiCalls m =? 0)%nat then js_of_Z 0
  else js_div (totalResponseTime m) (js_of_nat (apiCalls m)).

(** A storage holding two entries, for USD and for EUR, and a foreign
    item. *)
Definition two_entries : gmap string string :=
  {[ "exchangeRates_USD" := "EUR:0.9,GBP:0.8";
     "exchangeRatesTimestamp_USD" := "7000";
     "exchangeRates_EUR" := "{}";
     "exchangeRatesTimestamp_EUR" := "3000";
     "theme" := "dark" ]}.

(** ** The converter *)

(** [amount > 0]: the amounts [convertCurrency] converts. *)
Definition js_gt0 (x : jsnum) : bool :=
  match x with
  | JNaN => false
  | JInf negative => negb negative
  | JFin q => (0 <? Qnum q)%Z
  end.

(** The result of [convertCurrency] for an amount it does not convert. *)
Definition nothing_converted : Conversion :=
  {| convertedAmount := js_of_Z 0; exchangeRate := js_of_Z 0;
     conv_error := None; conv_source := None; conv_lastUpdate := None |}.

(** The property names that every object inherits from
    [Object.prototype] in a browser: read on a table that has no entry
    of that name, they yield a function or an object, not
    [undefined]. *)
Definition Object_prototype : list string :=
  ["constructor"; "__defineGetter__"; "__defineSetter__"; "hasOwnProperty";
   "__lookupGetter__"; "__lookupSetter__"; "isPrototypeOf";
   "propertyIsEnumerable"; "toString"; "valueOf"; "__proto__";
   "toLocaleString"].

Definition inherited (code : string) : bool :=
  bool_decide (code ∈ Object_prototype).

(** The rate [convertCurrency] reads off a table. *)
Definition exchange_rate (table : RateTable) (fromCurrency toCurrency : string)
    : jsnum :=
  if decide (fromCurrency = "USD")
  then rate_or_1 table toCurrency
  else if decide (toCurrency = "USD")
  then js_div (js_of_Z 1) (rate_or_1 table fromCurrency)
  else js_div (rate_or_1 table toCurrency) (rate_or_1 table fromCurrency).

(** The object literals passed to [setState]. *)
Definition loading_patch : Patch :=
  {| patch_loading := Some true; patch_error := Some None;
     patch_rates := None; patch_lastUpdate := None;
     patch_isOffline := None; patch_source := None |}.

Definition loaded_patch (result : RatesResult) : Patch :=
  {| patch_loading := Some false;
     patch_error := Some (warning_or_null (warning result));
     patch_rates := Some (r_rates result);
     patch_lastUpdate := Some (Some (r_timestamp result));
     patch_isOffline := None;
     patch_source := Some (Some (source result)) |}.


(** The callbacks that a round of [setState] calls, with the state they
    are given. *)
Definition round (subs : list nat) (s : EngineState)
    : list (nat * EngineState) :=
  map (fun callback => (callback, s)) subs.

(** What happens on the page, each event handled to its end before the
    next one: the two connectivity events (the listener of the service
    was registered first and runs first; its queue is empty, nothing
    ever being pushed to it), and the calls the user interface makes. *)
Inductive PageEvent : Type :=
| EvOnline (field : option string)
| EvOffline
| EvConvert (amount : jsnum) (fromCurrency toCurrency : string)
| EvRefresh (field : option string)
| EvClearCache
| EvSubscribe (callback : nat)
| EvUnsubscribe (callback : nat).

Definition page_step (env : Env) (behaviour : nat -> EngineState -> list Action)
    (c : Converter) (ev : PageEvent) : Converter :=
  match ev with
  | EvOnline field =>
      let s := (service_online env [] (apiService c)).2 in
      (converter_online env behaviour field (set_apiService s c)).2
  | EvOffline =>
      let s := (service_offline (apiService c)).2 in
      converter_offline behaviour (set_apiService s c)
  | EvConvert amount fromCurrency toCurrency =>
      (convertCurrency env behaviour amount fromCurrency toCurrency c).2
  | EvRefresh field => (refreshRates env behaviour field c).2
  | EvClearCache => (converter_clearCache env behaviour c).2
  | EvSubscribe callback => subscribe callback c
  | EvUnsubscribe callback => unsubscribe callback c
  end.

(** The converter's [isOffline] and the service's [isOnline] say the
    same. *)
Definition flags_agree (c : Converter) : Prop :=
  isOffline (state c) = negb (isOnline (apiService c)).

(** A host whose storage may not be used: every access throws. *)
Definition storage_denied : Env :=
  {| JSON_stringify := JSON_stringify (example_host unreachable);
     JSON_parse := JSON_parse (example_host unreachable);
     toISOString := toISOString (example_host unreachable);
     Date_parse := Date_parse (example_host unreachable);
     storage_fault := fun _ => Some "The operation is insecure.";
     net := unreachable |}.

(** A formatter for the examples: numerator and denominator. *)
Definition plain_format (x : jsnum) : string :=
  match x with
  | JFin q => pretty (Qnum q) ++ "/" ++ pretty (Z.pos (Qden q))
  | JInf negative => if negative then "-Infinity" else "Infinity"
  | JNaN => "NaN"
  end.

(** ** The service worker *)

(** The response the worker makes up when it has nothing to answer an
    API request with. *)
Definition offline_notice : SwResponse :=
  {| sw_status := 503; sw_statusText := "";
     sw_headers := {[ "content-type" := "application/json" ]};
     sw_body := OfflineNotice |}.

(** An API request as the worker sees it: what the network does, the
    time, and the URL. *)
Record ApiRequest : Type := {
  rq_network : SwNetwork;
  rq_now : Z;
  rq_url : string
}.

(** The worker handling API requests one after the other: the responses
    it gives, and the cache it ends with. *)
Fixpoint serve (toString : Z -> string) (parseInt : string -> option Z)
    (requests : list ApiRequest) (cache : SwCache)
    : list SwResponse * SwCache :=
  match requests with
  | [] => ([], cache)
  | rq :: rest =>
      let '(response, cache') :=
        handleApiRequest toString parseInt (rq_network rq) (rq_now rq)
          (rq_url rq) cache in
      let '(responses, cache'') := serve toString parseInt rest cache' in
      (response :: responses, cache'')
  end.

(** Every stored copy has a status from 200 to 299. *)
Definition copies_ok (cache : SwCache) : Prop :=
  ∀ url r, cache !! url = Some r → response_ok (sw_status r) = true.

(** The network fails: it rejects, or answers with a status that is not
    from 200 to 299. *)
Definition network_fails (network : SwNetwork) : bool :=
  match network with
  | SwRejected _ => true
  | SwAnswered r => negb (response_ok (sw_status r))
  end.

(** What the page's [fetch] yields for a response of the worker;
    [json] is [response.json()] on a payload. The notice of the worker
    is an object without rates. *)
Definition reply_of (json : string -> Body) (r : SwResponse) : Reply :=
  HttpResponse (sw_status r) (sw_statusText r)
    match sw_body r with
    | Payload text => json text
    | OfflineNotice => BodyJson None None None
    | OfflinePage => BodyInvalid "Unexpected token < in JSON"
    end.

(** A host whose network is out of reach, seen through the worker: the
    worker answers every request of the page from the cache it holds,
    after [delay] milliseconds; [times] is the worker's clock at each
    request. *)
Definition behind_worker (env : Env) (toString : Z -> string)
    (parseInt : string -> option Z) (json : string -> Body) (delay : N)
    (times : nat -> string -> Z) (cache : SwCache) : Env :=
  {| JSON_stringify := JSON_stringify env;
     JSON_parse := JSON_parse env;
     toISOString := toISOString env;
     Date_parse := Date_parse env;
     storage_fault := storage_fault env;
     net := fun attempt url =>
              {| latency := delay;
                 reply :=
                   reply_of json
                     (handleApiRequest toString parseInt
                        (SwRejected "Failed to fetch") (times attempt url)
                        url cache).1 |} |}.

(** Decimal numerals, for the examples. *)
Definition decimal (z : Z) : string := NilZero.string_of_int (Z.to_int z).
Definition parse_decimal (text : string) : option Z :=
  Z.of_int <$> NilZero.int_of_string text.

(** A response of the API, and how the page reads its payload. *)
Definition api_response : SwResponse :=
  {| sw_status := 200; sw_statusText := "OK";
     sw_headers := {[ "content-type" := "application/json" ]};
     sw_body := Payload "EUR:0.9,GBP:0.8" |}.

Definition example_json (text : string) : Body :=
  if decide (text = "EUR:0.9,GBP:0.8")
  then BodyJson (Some example_table) None (Some "USD")
  else BodyInvalid "Unexpected token in JSON".

(** ** Calls of fetchRates and their timers *)

(** The page around a converter, before any call of [fetchRates];
    handles start at 1. *)
Definition new_page (c : Converter) : Page :=
  {| converter := c; timers := []; armed := None; next_handle := 1;
     settled := [] |}.

(** What happens on the page: [fetchRates] is called, or a timer
    fires. *)
Inductive PageOp : Type :=
| CallFetchRates (baseCurrency : string) (forceRefresh : bool)
| Fire (h : nat).

Definition page_op (env : Env) (behaviour : nat -> EngineState -> list Action)
    (p : Page) (op : PageOp) : Page :=
  match op with
  | CallFetchRates baseCurrency forceRefresh =>
      (call_fetchRates baseCurrency forceRefresh p).2
  | Fire h => fire env behaviour h p
  end.

(** The promises resolved so far, and the timers that are pending, by
    their handles. *)
Definition settled_handles (p : Page) : list nat := (settled p).*1.
Definition pending_handles (p : Page) : list nat := map handle (timers p).

(** The handles in use are below the next one, and the one timer that
    can be pending is the one in [this.debounceTimer]. *)
Definition page_ok (p : Page) : Prop :=
  (∀ h, h ∈ settled_handles p → (h < next_handle p)%nat)
  ∧ (∀ h, h ∈ pending_handles p → (h < next_handle p)%nat)
  ∧ (pending_handles p = []
     ∨ ∃ h, pending_handles p = [h] ∧ armed p = Some h).

(** * Properties *)

(** ** The monad *)

Lemma bind_ok {A B} (m : M A) (f : A -> M B) s a s' :
  m s = (Ok a, s') → (m ≫= f) s = f a s'.
Proof. intros H. unfold mbind, M_bind. by rewrite H. Qed.

Lemma bind_throw {A B} (m : M A) (f : A -> M B) s e s' :
  m s = (Throw e, s') → (m ≫= f) s = (Throw e, s').
Proof. intros H. unfold mbind, M_bind. by rewrite H. Qed.

Lemma bind_inv {A B} (m : M A) (f : A -> M B) s r s' :
  (m ≫= f) s = (r, s') →
  (∃ a s1, m s = (Ok a, s1) ∧ f a s1 = (r, s'))
  ∨ (∃ e, m s = (Throw e, s') ∧ r = Throw e).
Proof.
  unfold mbind, M_bind. destruct (m s) as [[a|e] s1]; intros H.
  - left. eauto.
  - right. exists e. by inversion H.
Qed.

Ltac monad_unfold :=
  unfold mbind, M_bind, mret, M_ret, try_catch, throw, gets, modify,
    storage_op in *.

Lemma total_ret {A} (a : A) : total (mret a).
Proof. intros s. by exists a, s. Qed.

Lemma total_gets {A} (f : Service -> A) : total (gets f).
Proof. intros s. by exists (f s), s. Qed.

Lemma total_modify f : total (modify f).
Proof. intros s. by exists tt, (f s). Qed.

Lemma total_bind {A B} (m : M A) (f : A -> M B) :
  total m → (∀ a, total (f a)) → total (m ≫= f).
Proof.
  intros Hm Hf s. destruct (Hm s) as (a & s1 & H1).
  destruct (Hf a s1) as (b & s2 & H2).
  exists b, s2. by rewrite (bind_ok _ _ _ _ _ H1).
Qed.

Lemma total_try_catch {A} (body : M A) handler :
  (∀ e, total (handler e)) → total (try_catch body handler).
Proof.
  intros Hh s. unfold try_catch.
  destruct (body s) as [[a|e] s1]; [by exists a, s1 | apply Hh].
Qed.

Lemma total_sleep ms : total (sleep ms).
Proof. apply total_modify. Qed.

(** ** The cache: reads and writes never throw *)

Section CacheTotal.
Variable env : Env.

Lemma getCachedRates_total baseCurrency allowStale :
  total (getCachedRates env baseCurrency allowStale).
Proof. apply total_try_catch. intros e. apply total_ret. Qed.

Lemma cleanOldCache_total : total (cleanOldCache env).
Proof. apply total_try_catch. intros e. apply total_ret. Qed.

Lemma cacheRates_total baseCurrency table :
  total (cacheRates env baseCurrency table).
Proof. apply total_try_catch. intros e. apply total_ret. Qed.
End CacheTotal.

(** ** The fetch pipeline throws errors, never [undefined] *)

Section Pipeline.
Variable env : Env.
Variable baseCurrency : string.

(** An attempt logs the call, lets the time of the answer pass (at most
    the 10 s of the abort timer) and yields what the answer dictates. *)
Lemma attempt_fetch_eq attempt url s :
  attempt_fetch env baseCurrency attempt url s
  = (attempt_outcome env baseCurrency attempt url,
     set_clock (clock s + attempt_duration env attempt url)
       (log_event (Fetch attempt url) s)).
Proof.
  unfold attempt_outcome, attempt_duration, attempt_fetch, Date_now.
  monad_unfold. cbn [fst snd clock log_event set_clock].
  destruct (Z.leb_spec fetchTimeout (Z.of_N (latency (net env attempt url)))).
  - rewrite Z.min_l by done. reflexivity.
  - rewrite Z.min_r by lia.
    destruct (reply (net env attempt url)) as [msg|status text body]; [done|].
    destruct (negb (response_ok status)); [done|].
    destruct body as [msg|r cr b]; [done|].
    destruct r, cr; reflexivity.
Qed.

Lemma attempt_outcome_error attempt url e :
  attempt_outcome env baseCurrency attempt url = Throw e → is_error e.
Proof.
  unfold attempt_outcome, attempt_fetch, Date_now. monad_unfold.
  cbn [fst snd clock log_event set_clock].
  destruct (fetchTimeout <=? _)%Z; [intros [= <-]; exact I|].
  destruct (reply _) as [msg|status text body]; [intros [= <-]; exact I|].
  destruct (negb _); [intros [= <-]; exact I|].
  destruct body as [msg|r cr b]; [intros [= <-]; exact I|].
  destruct r, cr; cbn; try discriminate. intros [= <-]; exact I.
Qed.

Lemma attempt_duration_nonneg attempt url :
  (0 ≤ attempt_duration env attempt url)%Z.
Proof. unfold attempt_duration, fetchTimeout. lia. Qed.
End Pipeline.

Section Walk.
Variable env : Env.
Variable baseCurrency : string.
Variable maxRetries : nat.

Local Abbreviation walk' := (walk env baseCurrency maxRetries).
Local Abbreviation fails := (attempt_fails env baseCurrency).

Lemma attempt_failed_eq attempt e s :
  attempt_failed maxRetries attempt e s
  = (Ok (inr (Some e)), after_backoff maxRetries (attempt, "") s).
Proof.
  unfold attempt_failed, after_backoff. monad_unfold. cbn [fst].
  by destruct (attempt <? maxRetries - 1)%nat.
Qed.

Lemma after_backoff_url attempt url url' s :
  after_backoff maxRetries (attempt, url) s
  = after_backoff maxRetries (attempt, url') s.
Proof. reflexivity. Qed.

Lemma for_urls_walk attempt urls lastError s :
  for_urls env baseCurrency maxRetries attempt urls lastError s
  = (Ok (walk' (map (pair attempt) urls) lastError s).1,
     (walk' (map (pair attempt) urls) lastError s).2).
Proof.
  revert lastError s. induction urls as [|url urls IH]; intros lastError s.
  - reflexivity.
  - cbn [for_urls map walk fst snd].
    unfold mbind at 1, M_bind at 1, try_catch.
    unfold mbind at 1, M_bind at 1.
    rewrite attempt_fetch_eq.
    destruct (attempt_outcome env baseCurrency attempt url) as [r|e].
    + reflexivity.
    + rewrite attempt_failed_eq. rewrite IH. reflexivity.
Qed.

Lemma walk_app l1 l2 lastError s :
  walk' (l1 ++ l2)%list lastError s
  = match walk' l1 lastError s with
    | (inl r, s') => (inl r, s')
    | (inr lastError', s') => walk' l2 lastError' s'
    end.
Proof.
  revert lastError s. induction l1 as [|x l1 IH]; intros lastError s.
  - reflexivity.
  - cbn [app walk]. destruct (attempt_outcome _ _ _ _); [done|]. apply IH.
Qed.

Lemma for_attempts_walk urls remaining attempt lastError s :
  let l := flat_map (fun a => map (pair a) urls) (seq attempt remaining) in
  for_attempts env baseCurrency maxRetries urls remaining attempt lastError s
  = (Ok (walk' l lastError s).1, (walk' l lastError s).2).
Proof.
  revert attempt lastError s.
  induction remaining as [|k IH]; intros attempt lastError s.
  - reflexivity.
  - cbn [for_attempts seq flat_map]. rewrite walk_app.
    unfold mbind, M_bind. rewrite for_urls_walk.
    destruct (walk' (map (pair attempt) urls) lastError s) as [[r|e] s'];
      [reflexivity|].
    cbn [fst snd]. apply IH.
Qed.

Lemma first_success_None l :
  first_success fails l = None → ∀ x, x ∈ l → fails x = true.
Proof.
  induction l as [|y l IH]; cbn [first_success]; intros H x Hx.
  - by apply elem_of_nil in Hx.
  - destruct (fails y) eqn:Hy; [|done].
    apply elem_of_cons in Hx as [->|Hx]; auto.
Qed.

Lemma last_error_all_fail l :
  first_success fails l = None → l ≠ [] →
  ∃ e, last_error env baseCurrency l = Some e.
Proof.
  intros Hnone Hne. unfold last_error.
  destruct (last l) as [z|] eqn:Hz.
  - pose proof (first_success_None l Hnone z) as Hf.
    unfold attempt_fails, attempt_error in *.
    destruct (attempt_outcome env baseCurrency z.1 z.2) as [r|e].
    + discriminate Hf. apply list_elem_of_lookup. rewrite last_lookup in Hz. eauto.
    + eauto.
  - apply last_None in Hz. done.
Qed.

(** The result of a walk: the first attempt that succeeds decides it;
    when none does, the error of the last attempt is left. *)
Lemma walk_result l lastError s :
  (walk' l lastError s).1
  = match first_success fails l with
    | Some x =>
        match attempt_outcome env baseCurrency x.1 x.2 with
        | Ok r => inl r
        | Throw e => inr (Some e)
        end
    | None =>
        inr (match last_error env baseCurrency l with
             | Some e => Some e
             | None => lastError
             end)
    end.
Proof.
  revert lastError s. induction l as [|x l IH]; intros lastError s.
  - reflexivity.
  - cbn [walk first_success]. unfold attempt_fails at 1.
    destruct (attempt_outcome env baseCurrency x.1 x.2) as [r|e] eqn:Hx.
    + by rewrite Hx.
    + rewrite IH. destruct (first_success fails l) eqn:Hl; [done|].
      destruct l as [|y l].
      * unfold last_error, attempt_error. cbn [last]. by rewrite Hx.
      * destruct (last_error_all_fail (y :: l) Hl) as [e' He']; [done|].
        assert (last_error env baseCurrency (x :: y :: l)
                = last_error env baseCurrency (y :: l)) as -> by reflexivity.
        by rewrite He'.
Qed.

Lemma trace_log_event w s :
  trace (log_event w s)
  = (trace s ++ [{| ev_time := clock s; ev_what := w |}])%list.
Proof. reflexivity. Qed.

Lemma trace_after_attempt x s :
  trace (after_attempt env x s)
  = (trace s ++ [{| ev_time := clock s; ev_what := Fetch x.1 x.2 |}])%list.
Proof. reflexivity. Qed.

Lemma whats_after_failed x s :
  map ev_what (trace (after_backoff maxRetries x (after_attempt env x s)))
  = (map ev_what (trace s) ++ failed_segment maxRetries x)%list.
Proof.
  unfold after_backoff, failed_segment.
  destruct (x.1 <? maxRetries - 1)%nat.
  - unfold sleep. monad_unfold. cbn [snd]. unfold trace. cbn [events set_clock log_event after_attempt rev].
    rewrite !map_app, <- !app_assoc. reflexivity.
  - rewrite trace_after_attempt, map_app. reflexivity.
Qed.

(** What a walk adds to the log. *)
Lemma walk_whats l lastError s :
  map ev_what (trace (walk' l lastError s).2)
  = (map ev_what (trace s)
     ++ flat_map (failed_segment maxRetries) (failed_prefix fails l)
     ++ match first_success fails l with
        | Some x => [Fetch x.1 x.2]
        | None => []
        end)%list.
Proof.
  revert lastError s. induction l as [|x l IH]; intros lastError s.
  - cbn. by rewrite app_nil_r.
  - cbn [walk first_success failed_prefix]. unfold attempt_fails at 1 3.
    destruct (attempt_outcome env baseCurrency x.1 x.2) as [r|e].
    + cbn [snd flat_map app]. by rewrite trace_after_attempt, map_app.
    + rewrite IH, whats_after_failed. cbn [flat_map].
      by rewrite <- !app_assoc.
Qed.
End Walk.

Lemma fetchWithRetry_walk env baseCurrency maxRetries s :
  let w := walk env baseCurrency maxRetries
             (plan maxRetries (endpoints baseCurrency)) None s in
  fetchWithRetry env baseCurrency maxRetries s
  = (match w.1 with
     | inl r => Ok r
     | inr (Some e) => Throw e
     | inr None => Throw ThrownUndefined
     end, w.2).
Proof.
  cbv zeta. unfold fetchWithRetry, mbind, M_bind.
  rewrite for_attempts_walk. fold (plan maxRetries (endpoints baseCurrency)).
  cbv zeta.
  destruct (walk _ _ _ _ _ _) as [[r|[e|]] s']; reflexivity.
Qed.

(** ** The fetch pipeline: order of calls and pauses *)

(** C3, as stated, fails: with both endpoints unreachable and three
    rounds, the log of [fetchWithRetry] shows a pause of 1 s between the
    two calls of round 0 and a pause of 2 s between the two calls of
    round 1. *)
Lemma backoff_between_rounds_only_counterexample :
  let run := fetchWithRetry (example_host unreachable) "USD" 3
               (service_at 5000 ∅) in
  map ev_what (trace run.2)
  = [ Fetch 0 "https://api.exchangerate-api.com/v4/latest/USD";
      Sleep 1000;
      Fetch 0 "https://open.er-api.com/v6/latest/USD";
      Sleep 1000;
      Fetch 1 "https://api.exchangerate-api.com/v4/latest/USD";
      Sleep 2000;
      Fetch 1 "https://open.er-api.com/v6/latest/USD";
      Sleep 2000;
      Fetch 2 "https://api.exchangerate-api.com/v4/latest/USD";
      Fetch 2 "https://open.er-api.com/v6/latest/USD" ]
  ∧ sleeps_inside_a_round (map ev_what (trace run.2)) = true.
Proof. split; vm_compute; reflexivity. Qed.

(** C3 (amended): in [fetchWithRetry] every failed endpoint attempt of
    every round but the last is followed at once by a pause of
    1000 ms x (attempt + 1), so a pause also lies between the two
    attempts of one round; the first attempt that succeeds ends the log
    and its answer is the result; when no attempt succeeds the error of
    the last attempt is thrown. *)
Theorem fetchWithRetry_backoff_after_each_failure
    env baseCurrency maxRetries s :
  let l := plan maxRetries (endpoints baseCurrency) in
  let fails := attempt_fails env baseCurrency in
  let run := fetchWithRetry env baseCurrency maxRetries s in
  map ev_what (trace run.2)
  = (map ev_what (trace s)
     ++ flat_map (failed_segment maxRetries) (failed_prefix fails l)
     ++ match first_success fails l with
        | Some x => [Fetch x.1 x.2]
        | None => []
        end)%list
  ∧ run.1
    = match first_success fails l with
      | Some x => attempt_outcome env baseCurrency x.1 x.2
      | None =>
          Throw (default ThrownUndefined (last_error env baseCurrency l))
      end.
Proof.
  cbv zeta. rewrite fetchWithRetry_walk. cbv zeta. cbn [fst snd]. split.
  - apply walk_whats.
  - rewrite walk_result.
    destruct (first_success _ _) as [x|].
    + by destruct (attempt_outcome env baseCurrency x.1 x.2).
    + by destruct (last_error env baseCurrency _).
Qed.

(** ** Frame: what the cache operations leave alone *)

Lemma same_service_refl s : same_service s s.
Proof. by repeat split. Qed.

Lemma same_service_trans s1 s2 s3 :
  same_service s1 s2 → same_service s2 s3 → same_service s1 s3.
Proof. unfold same_service. intros (?&?&?&?&?&?) (?&?&?&?&?&?). repeat split; congruence. Qed.

Lemma storage_only_ret {A} (a : A) : storage_only (mret a).
Proof. intros s. apply same_service_refl. Qed.

Lemma storage_only_throw {A} e : storage_only (@throw A e).
Proof. intros s. apply same_service_refl. Qed.

Lemma storage_only_bind {A B} (m : M A) (f : A -> M B) :
  storage_only m → (∀ a, storage_only (f a)) → storage_only (m ≫= f).
Proof.
  intros Hm Hf s. specialize (Hm s). unfold mbind, M_bind.
  destruct (m s) as [[a|e] s1]; [|done].
  eapply same_service_trans; [exact Hm | apply Hf].
Qed.

Lemma storage_only_try_catch {A} (body : M A) handler :
  storage_only body → (∀ e, storage_only (handler e)) →
  storage_only (try_catch body handler).
Proof.
  intros Hm Hf s. specialize (Hm s). unfold try_catch.
  destruct (body s) as [[a|e] s1]; [done|].
  eapply same_service_trans; [exact Hm | apply Hf].
Qed.

Lemma storage_only_forEach {A} (f : A -> M unit) l :
  (∀ x, storage_only (f x)) → storage_only (forEach f l).
Proof.
  intros Hf. induction l as [|x l IH]; [apply storage_only_ret|].
  apply storage_only_bind; auto.
Qed.

Section StorageFrame.
Variable env : Env.

Lemma storage_only_op {A} op (run : M A) :
  storage_only run → storage_only (storage_op env op run).
Proof.
  intros H. unfold storage_op.
  destruct (storage_fault env op); [apply storage_only_throw | done].
Qed.

Lemma storage_only_getItem key : storage_only (getItem env key).
Proof. apply storage_only_op. intros s. apply same_service_refl. Qed.

Lemma storage_only_setItem key value : storage_only (setItem env key value).
Proof. apply storage_only_op. intros s. by repeat split. Qed.

Lemma storage_only_removeItem key : storage_only (removeItem env key).
Proof. apply storage_only_op. intros s. by repeat split. Qed.

Lemma storage_only_Object_keys : storage_only (Object_keys env).
Proof. apply storage_only_op. intros s. apply same_service_refl. Qed.

Lemma storage_only_Date_now : storage_only Date_now.
Proof. intros s. apply same_service_refl. Qed.

Lemma storage_only_cleanOldCache : storage_only (cleanOldCache env).
Proof.
  apply storage_only_try_catch; [|intros; apply storage_only_ret].
  apply storage_only_bind; [apply storage_only_Object_keys|intros keys].
  apply storage_only_bind; [apply storage_only_Date_now|intros now].
  apply storage_only_forEach. intros key. unfold cleanOldCache_step.
  destruct (startsWith key cacheTimestampKey); [|apply storage_only_ret].
  apply storage_only_bind; [apply storage_only_getItem|intros ts].
  destruct (falsy_item ts); [apply storage_only_ret|].
  destruct (age_gt _ _); [|apply storage_only_ret].
  apply storage_only_bind; intros; apply storage_only_removeItem.
Qed.

Lemma storage_only_cacheRates baseCurrency table :
  storage_only (cacheRates env baseCurrency table).
Proof.
  apply storage_only_try_catch; [|intros; apply storage_only_ret].
  apply storage_only_bind; [apply storage_only_Date_now|intros now].
  apply storage_only_bind; [apply storage_only_setItem|intros _].
  apply storage_only_bind; [apply storage_only_setItem|intros _].
  apply storage_only_cleanOldCache.
Qed.

Lemma storage_only_clearCache : storage_only (clearCache env).
Proof.
  apply storage_only_bind; [apply storage_only_Object_keys|intros keys].
  apply storage_only_forEach. intros key. unfold clearCache_step.
  destruct (_ || _); [apply storage_only_removeItem|apply storage_only_ret].
Qed.

(** A cache read leaves the whole state as it is. *)
Lemma getCachedRates_eq baseCurrency allowStale s :
  getCachedRates env baseCurrency allowStale s
  = (Ok (cache_read env baseCurrency allowStale s), s).
Proof.
  unfold cache_read.
  assert (∃ found, getCachedRates env baseCurrency allowStale s
                   = (Ok found, s)) as [found ->]; [|done].
  unfold getCachedRates, getItem, Date_now. monad_unfold.
  destruct (storage_fault env (OpGetItem (dataKeyOf baseCurrency)));
    [eauto|].
  destruct (storage_fault env (OpGetItem (timestampKeyOf baseCurrency)));
    [eauto|].
  destruct (_ || _); [eauto|].
  destruct (_ || _); [|eauto].
  destruct (JSON_parse env _); eauto.
Qed.
End StorageFrame.

(** ** [getExchangeRates], path by path *)

Section Resolution.
Variable env : Env.
Variable baseCurrency : string.

Lemma cacheRates_eq table s :
  cacheRates env baseCurrency table s
  = (Ok tt, (cacheRates env baseCurrency table s).2).
Proof.
  destruct (cacheRates_total env baseCurrency table s) as ([] & s' & ->).
  reflexivity.
Qed.

Lemma rate_limited_eq s :
  (if (clock s - lastRequestTime s <? minRequestInterval)%Z
   then sleep (minRequestInterval - (clock s - lastRequestTime s))
   else mret tt) s
  = (Ok tt, rate_limited s).
Proof.
  unfold rate_limited.
  by destruct (clock s - lastRequestTime s <? minRequestInterval)%Z.
Qed.

Lemma getExchangeRates_eq forceRefresh s :
  getExchangeRates env baseCurrency forceRefresh s
  = match (if forceRefresh then None
           else cache_read env baseCurrency false s) with
    | Some c =>
        (Ok (cached_result c "cache" None),
         set_metrics (recordCacheHit (js_of_Z (clock s - clock s))) s)
    | None =>
        if negb (isOnline s)
        then
          match cache_read env baseCurrency true s with
          | Some c =>
              (Ok (cached_result c "offline_cache"
                     (Some "Last Refreshed Rate")), s)
          | None => (Ok (fallback_result env s "fallback"), s)
          end
        else
          match fetchWithRetry env baseCurrency 3 (rate_limited s) with
          | (Ok result, s2) =>
              let s3 := after_success env baseCurrency (f_rates result)
                          (clock s) s2 in
              (Ok {| success := true; r_rates := f_rates result;
                     r_timestamp := toISOString env (clock s3);
                     source := "api"; warning := None |}, s3)
          | (Throw ThrownUndefined, s2) =>
              (Throw (ThrownError "Cannot read properties of undefined"),
               s2)
          | (Throw (ThrownError message), s2) =>
              let s3 := after_failure message (clock s) s2 in
              match cache_read env baseCurrency true s3 with
              | Some c =>
                  (Ok (cached_result c "error_fallback_cache"
                         (Some "Last Refreshed Rate")), s3)
              | None =>
                  (Ok (fallback_result env s3 "error_fallback_hardcoded"),
                   s3)
              end
          end
    end.
Proof.
  unfold getExchangeRates, Date_now, elapsed_since, new_Date_toISOString.
  unfold mbind at 1, M_bind at 1, gets at 1. cbv beta iota.
  unfold try_catch at 1.
  unfold mbind at 1, M_bind at 1.
  assert ((if forceRefresh then mret None
           else getCachedRates env baseCurrency false) s
          = (Ok (if forceRefresh then None
                 else cache_read env baseCurrency false s), s)) as ->.
  { destruct forceRefresh; [done|apply getCachedRates_eq]. }
  destruct (if forceRefresh then None else cache_read env baseCurrency false s)
    as [c|].
  { reflexivity. }
  unfold mbind at 1, M_bind at 1, gets at 1. cbv beta iota.
  destruct (isOnline s); cbn [negb].
  2:{ unfold mbind at 1, M_bind at 1. rewrite getCachedRates_eq.
      by destruct (cache_read env baseCurrency true s). }
  unfold mbind at 1, M_bind at 1, gets at 1. cbv beta iota.
  unfold mbind at 1, M_bind at 1, gets at 1. cbv beta iota.
  unfold mbind at 1, M_bind at 1. rewrite rate_limited_eq.
  unfold mbind at 1, M_bind at 1.
  destruct (fetchWithRetry env baseCurrency 3 (rate_limited s))
    as [[result|[|message]] s2].
  - unfold mbind at 1, M_bind at 1, gets at 1. cbv beta iota.
    unfold mbind at 1, M_bind at 1, modify at 1. cbv beta iota.
    unfold mbind at 1, M_bind at 1. rewrite cacheRates_eq.
    reflexivity.
  - reflexivity.
  - unfold mbind at 1, M_bind at 1, gets at 1. cbv beta iota.
    unfold message_of. unfold mbind at 1, M_bind at 1, mret at 1, M_ret at 1.
    unfold mbind at 1, M_bind at 1, modify at 1. cbv beta iota.
    unfold mbind at 1, M_bind at 1. rewrite getCachedRates_eq.
    fold (after_failure message (clock s) s2).
    by destruct (cache_read env baseCurrency true _).
Qed.
End Resolution.

(** ** The resolution never throws *)

Section NeverThrows.
Variable env : Env.
Variable baseCurrency : string.

Lemma last_error_is_error l e :
  last_error env baseCurrency l = Some e → is_error e.
Proof.
  unfold last_error, attempt_error. destruct (last l) as [x|]; [|done].
  destruct (attempt_outcome env baseCurrency x.1 x.2) as [r|e'] eqn:Hx;
    [done|].
  intros [= <-]. by eapply attempt_outcome_error.
Qed.

(** With at least one round, what the pipeline throws is an [Error]:
    [lastError] has been assigned. *)
Lemma fetchWithRetry_throws_error rounds s e s' :
  fetchWithRetry env baseCurrency (S rounds) s = (Throw e, s') →
  is_error e.
Proof.
  rewrite fetchWithRetry_walk. cbv zeta. rewrite walk_result.
  set (l := plan (S rounds) (endpoints baseCurrency)).
  destruct (first_success _ l) as [x|] eqn:Hl.
  - destruct (attempt_outcome env baseCurrency x.1 x.2) as [r|e'] eqn:Hx;
      [done|].
    intros [= <- _]. by eapply attempt_outcome_error.
  - destruct (last_error_all_fail env baseCurrency l Hl) as [e' He'];
      [done|].
    rewrite He'. intros [= <- _]. by eapply last_error_is_error.
Qed.

Lemma getExchangeRates_total forceRefresh s :
  ∃ r s', getExchangeRates env baseCurrency forceRefresh s = (Ok r, s').
Proof.
  rewrite getExchangeRates_eq.
  destruct (if forceRefresh then None else _); [eauto|].
  destruct (negb (isOnline s)).
  { destruct (cache_read env baseCurrency true s); eauto. }
  destruct (fetchWithRetry env baseCurrency 3 (rate_limited s))
    as [[result|e] s2] eqn:Hfetch; [eauto|].
  apply fetchWithRetry_throws_error in Hfetch.
  destruct e as [|message]; [done|]. cbv zeta.
  destruct (cache_read env baseCurrency true _); eauto.
Qed.
End NeverThrows.

(** C1: for every base currency, every host (every outcome of the
    storage accesses and of the network calls, all of them failing
    included) and every state, [getExchangeRates] does not throw: it
    returns a result record, which carries a rate table and a source tag,
    is marked successful, and reports a degraded answer through the
    optional [warning] only. *)
Theorem getExchangeRates_never_throws env baseCurrency forceRefresh s :
  ∃ r s',
    getExchangeRates env baseCurrency forceRefresh s = (Ok r, s')
    ∧ success r = true
    ∧ source r ∈ sources.
Proof.
  rewrite getExchangeRates_eq.
  destruct (if forceRefresh then None else _).
  { eexists _, _. split; [done|]. split; [done|]. set_solver. }
  destruct (negb (isOnline s)).
  { destruct (cache_read env baseCurrency true s);
      (eexists _, _; split; [done|]; split; [done|]; set_solver). }
  destruct (fetchWithRetry env baseCurrency 3 (rate_limited s))
    as [[result|e] s2] eqn:Hfetch.
  { eexists _, _. split; [done|]. split; [done|]. set_solver. }
  apply fetchWithRetry_throws_error in Hfetch.
  destruct e as [|message]; [done|]. cbv zeta.
  destruct (cache_read env baseCurrency true _);
    (eexists _, _; split; [done|]; split; [done|]; set_solver).
Qed.

(** ** Cache reads on a storage that works *)

Section CacheReads.
Variable env : Env.
Hypothesis storage_works : reliable env.

Lemma getItem_reliable key s :
  getItem env key s = (Ok (localStorage s !! key), s).
Proof. unfold getItem, storage_op. by rewrite storage_works. Qed.

Lemma setItem_reliable key value s :
  setItem env key value s
  = (Ok tt, set_localStorage (insert key value) s).
Proof. unfold setItem, storage_op. by rewrite storage_works. Qed.

Lemma removeItem_reliable key s :
  removeItem env key s = (Ok tt, set_localStorage (delete key) s).
Proof. unfold removeItem, storage_op. by rewrite storage_works. Qed.

Lemma Object_keys_reliable s :
  Object_keys env s = (Ok (map_to_list (localStorage s)).*1, s).
Proof. unfold Object_keys, storage_op. by rewrite storage_works. Qed.

Lemma cache_read_reliable baseCurrency allowStale s :
  cache_read env baseCurrency allowStale s
  = if entry_exists env s baseCurrency
       && (allowStale
           || age_lt (c_age (entry_view env s baseCurrency)) cacheDuration)
    then Some (entry_view env s baseCurrency)
    else None.
Proof.
  unfold cache_read, getCachedRates, try_catch.
  unfold mbind at 1, M_bind at 1. rewrite getItem_reliable.
  unfold mbind at 1, M_bind at 1. rewrite getItem_reliable.
  unfold entry_exists, entry_view. cbn [c_age].
  destruct (falsy_item (localStorage s !! dataKeyOf baseCurrency));
    [done|].
  destruct (falsy_item (localStorage s !! timestampKeyOf baseCurrency));
    [done|].
  cbn [orb negb andb]. unfold Date_now, mbind, M_bind, gets.
  destruct (allowStale || _); [|by rewrite andb_false_r].
  rewrite andb_true_r.
  by destruct (JSON_parse env _) as [table|].
Qed.

Lemma cache_read_stale baseCurrency s :
  cache_read env baseCurrency true s
  = if entry_exists env s baseCurrency
    then Some (entry_view env s baseCurrency) else None.
Proof. rewrite cache_read_reliable. by rewrite andb_true_r. Qed.

Lemma cache_read_fresh baseCurrency s :
  cache_read env baseCurrency false s
  = if entry_fresh env s baseCurrency
    then Some (entry_view env s baseCurrency) else None.
Proof. by rewrite cache_read_reliable. Qed.
End CacheReads.

(** ** The pipeline touches the clock and the log only *)

Lemma same_but_time_refl s : same_but_time s s.
Proof. by repeat split. Qed.

Lemma same_but_time_trans s1 s2 s3 :
  same_but_time s1 s2 → same_but_time s2 s3 → same_but_time s1 s3.
Proof.
  unfold same_but_time. intros (?&?&?&?&?) (?&?&?&?&?).
  repeat split; congruence.
Qed.

Lemma rate_limited_frame s : same_but_time s (rate_limited s).
Proof.
  unfold rate_limited. destruct (_ <? _)%Z; by repeat split.
Qed.

Lemma walk_frame env baseCurrency maxRetries l lastError s :
  same_but_time s (walk env baseCurrency maxRetries l lastError s).2.
Proof.
  revert lastError s. induction l as [|x l IH]; intros lastError s.
  - apply same_but_time_refl.
  - cbn [walk]. destruct (attempt_outcome _ _ _ _); [by repeat split|].
    eapply same_but_time_trans; [|apply IH].
    unfold after_backoff. destruct (_ <? _)%nat; by repeat split.
Qed.

Lemma fetchWithRetry_frame env baseCurrency maxRetries s :
  same_but_time s (fetchWithRetry env baseCurrency maxRetries s).2.
Proof. rewrite fetchWithRetry_walk. apply walk_frame. Qed.

Lemma entry_exists_storage env baseCurrency s s' :
  localStorage s' = localStorage s →
  entry_exists env s' baseCurrency = entry_exists env s baseCurrency.
Proof. unfold entry_exists. by intros ->. Qed.

Lemma all_fail_no_success env baseCurrency l :
  all_fail env baseCurrency →
  first_success (attempt_fails env baseCurrency) l = None.
Proof.
  intros H. induction l as [|[a u] l IH]; [done|].
  cbn [first_success]. by rewrite H.
Qed.

(** With every endpoint failing, the pipeline throws an [Error]. *)
Lemma fetchWithRetry_all_fail env baseCurrency rounds s :
  all_fail env baseCurrency →
  ∃ message,
    (fetchWithRetry env baseCurrency (S rounds) s).1
    = Throw (ThrownError message).
Proof.
  intros Hfail.
  destruct (fetchWithRetry env baseCurrency (S rounds) s) as [r s'] eqn:Hrun.
  pose proof Hrun as Hwalk. rewrite fetchWithRetry_walk in Hwalk.
  cbv zeta in Hwalk. rewrite walk_result in Hwalk.
  rewrite all_fail_no_success in Hwalk by done.
  destruct r as [result|e].
  - by destruct (last_error env baseCurrency _).
  - apply fetchWithRetry_throws_error in Hrun.
    destruct e as [|message]; [done|]. by exists message.
Qed.

(** ** Provenance *)

(** C2: the [source] of every result stands for one of the six
    provenance tags; and when the resolution reaches the network (the
    service is online and no fresh entry answers the request) and every
    endpoint fails, the source is that of [error_cache_fallback] if a
    readable entry, fresh or stale, is stored for the base currency, and
    that of [error_static_fallback] otherwise. *)
Theorem getExchangeRates_provenance env baseCurrency forceRefresh s :
  let run := getExchangeRates env baseCurrency forceRefresh s in
  (∃ r p, run.1 = Ok r ∧ source r = source_of p)
  ∧ (reliable env →
     isOnline s = true →
     forceRefresh = true ∨ entry_fresh env s baseCurrency = false →
     all_fail env baseCurrency →
     ∃ r, run.1 = Ok r
          ∧ source r
            = source_of (if entry_exists env s baseCurrency
                         then error_cache_fallback
                         else error_static_fallback)).
Proof.
  cbv zeta. rewrite getExchangeRates_eq. split.
  - destruct (if forceRefresh then None else _).
    { by eexists _, cache. }
    destruct (negb (isOnline s)).
    { destruct (cache_read env baseCurrency true s);
        [by eexists _, offline_cache | by eexists _, static_fallback]. }
    destruct (fetchWithRetry env baseCurrency 3 (rate_limited s))
      as [[result|e] s2] eqn:Hfetch.
    { by eexists _, network. }
    apply fetchWithRetry_throws_error in Hfetch.
    destruct e as [|message]; [done|]. cbv zeta.
    destruct (cache_read env baseCurrency true _);
      [by eexists _, error_cache_fallback
      | by eexists _, error_static_fallback].
  - intros Hrel Honline Hmiss Hfail.
    assert ((if forceRefresh then None
             else cache_read env baseCurrency false s) = None) as ->.
    { destruct Hmiss as [->| Hstale]; [done|].
      destruct forceRefresh; [done|].
      by rewrite cache_read_fresh, Hstale. }
    rewrite Honline. cbn [negb].
    destruct (fetchWithRetry_all_fail env baseCurrency 2 (rate_limited s)
                Hfail) as [message Hthrow].
    pose proof (fetchWithRetry_frame env baseCurrency 3 (rate_limited s))
      as (Hstore & _).
    destruct (fetchWithRetry env baseCurrency 3 (rate_limited s))
      as [r s2].
    cbn [fst snd] in *. subst r. cbv zeta.
    rewrite cache_read_stale by done.
    rewrite (entry_exists_storage env baseCurrency s).
    + by destruct (entry_exists env s baseCurrency); eexists.
    + cbn. rewrite Hstore. apply rate_limited_frame.
Qed.

(** With an entry written at time 1000 and both endpoints unreachable at
    time 1000000, the stale entry is served. *)
Lemma getExchangeRates_provenance_witness :
  ∃ r,
    (getExchangeRates (example_host unreachable) "USD" false
       (service_at 1000000 stored_entry)).1 = Ok r
    ∧ source r = "error_fallback_cache".
Proof.
  apply (proj2 (getExchangeRates_provenance (example_host unreachable) "USD"
                  false (service_at 1000000 stored_entry))).
  - intros op. reflexivity.
  - reflexivity.
  - right. vm_compute. reflexivity.
  - intros attempt url. reflexivity.
Defined.

(** ** Rate limiting and the start times of the network calls *)

Lemma fetch_starts_app l1 l2 :
  fetch_starts (l1 ++ l2)%list = (fetch_starts l1 ++ fetch_starts l2)%list.
Proof.
  induction l1 as [|[t [a u|ms]] l1 IH]; cbn [app fetch_starts];
    by rewrite ?IH.
Qed.

Lemma fetch_starts_after_failed env maxRetries x s :
  fetch_starts (trace (after_backoff maxRetries x (after_attempt env x s)))
  = (fetch_starts (trace s) ++ [(x.1, clock s)])%list.
Proof.
  unfold after_backoff. destruct (_ <? _)%nat.
  - unfold trace. cbn [sleep modify snd events set_clock log_event
                         after_attempt rev].
    rewrite <- app_assoc, fetch_starts_app. reflexivity.
  - rewrite trace_after_attempt, fetch_starts_app. reflexivity.
Qed.

Lemma clock_after_failed env maxRetries x s :
  (clock s + (if (x.1 <? maxRetries - 1)%nat
              then 1000 * (Z.of_nat x.1 + 1) else 0)
   ≤ clock (after_backoff maxRetries x (after_attempt env x s)))%Z.
Proof.
  pose proof (attempt_duration_nonneg env x.1 x.2).
  unfold after_backoff. destruct (_ <? _)%nat; cbn; lia.
Qed.

Lemma walk_timing env baseCurrency maxRetries l lastError s :
  ∃ calls,
    fetch_starts (trace (walk env baseCurrency maxRetries l lastError s).2)
    = (fetch_starts (trace s) ++ calls)%list
    ∧ Forall (fun c => (clock s ≤ c.2)%Z) calls
    ∧ backoff_spaced maxRetries calls = true.
Proof.
  revert lastError s. induction l as [|x l IH]; intros lastError s.
  - exists []. cbn. by rewrite app_nil_r.
  - cbn [walk]. destruct (attempt_outcome _ _ _ _) as [r|e].
    + exists [(x.1, clock s)]. cbn [snd].
      rewrite trace_after_attempt, fetch_starts_app.
      split; [done|]. split; [|done].
      constructor; [cbn; lia|constructor].
    + destruct (IH (Some e)
                  (after_backoff maxRetries x (after_attempt env x s)))
        as (calls & Hstarts & Hall & Hspaced).
      pose proof (clock_after_failed env maxRetries x s) as Hclock.
      exists ((x.1, clock s) :: calls).
      rewrite Hstarts, fetch_starts_after_failed, <- app_assoc.
      split; [done|]. split.
      * constructor; [cbn; lia|].
        eapply Forall_impl; [exact Hall|]. intros c Hc. cbn in Hc.
        destruct (_ <? _)%nat; lia.
      * cbn [backoff_spaced]. destruct calls as [|[a' t'] calls]; [done|].
        rewrite Hspaced, andb_true_r.
        apply Forall_cons in Hall as [Hhead _]. cbn in Hhead.
        destruct (_ <? _)%nat; [apply Z.leb_le; lia|done].
Qed.

Lemma rate_limited_clock s :
  (lastRequestTime s + minRequestInterval ≤ clock (rate_limited s))%Z.
Proof.
  unfold rate_limited.
  destruct (Z.ltb_spec (clock s - lastRequestTime s) minRequestInterval);
    cbn; lia.
Qed.

Lemma rate_limited_starts s :
  fetch_starts (trace (rate_limited s)) = fetch_starts (trace s).
Proof.
  unfold rate_limited. destruct (_ <? _)%Z; [|done].
  unfold trace. cbn [sleep modify snd events set_clock log_event rev].
  rewrite fetch_starts_app. cbn. by rewrite app_nil_r.
Qed.

Lemma after_success_events env baseCurrency table startTime s :
  events (after_success env baseCurrency table startTime s) = events s.
Proof.
  unfold after_success. cbn.
  by destruct (storage_only_cacheRates env baseCurrency table
                 (set_lastRequestTime (clock s) s)) as (_ & -> & _).
Qed.

(** C4: the code does not keep the interval that the claim, and the
    comment of the constructor on [minRequestInterval] (1 second between
    requests), ask for. A forced refresh at time 5000, online, with both
    endpoints failing at once, makes its six network calls at 5000,
    6000, 7000, 9000, 11000 and 11000: the two calls of the last round
    start at the same millisecond. The rate limiting check is made once,
    before the pipeline, and the pipeline pauses only after a failure of
    a round that is not the last. *)
Lemma getExchangeRates_last_round_unspaced :
  let run := getExchangeRates (example_host unreachable) "USD" true
               (service_at 5000 ∅) in
  fetch_starts (trace run.2)
  = [(0%nat, 5000); (0%nat, 6000); (1%nat, 7000); (1%nat, 9000);
     (2%nat, 11000); (2%nat, 11000)]
  ∧ spaced_by minRequestInterval (map snd (fetch_starts (trace run.2)))
    = false.
Proof. split; vm_compute; reflexivity. Qed.

(** What the code does keep: the rate limiting check is made once per
    call of [getExchangeRates], before the fetch pipeline, so that every
    network call of the invocation starts at least [minRequestInterval]
    (1 s) after the recorded [lastRequestTime]; and a call made in round
    0 or 1 is followed by the next call no sooner than the backoff pause
    of its round, 1000 ms x (attempt + 1). Nothing separates the calls
    of the last round. *)
Theorem getExchangeRates_rate_limit env baseCurrency forceRefresh s :
  let run := getExchangeRates env baseCurrency forceRefresh s in
  ∃ calls,
    fetch_starts (trace run.2) = (fetch_starts (trace s) ++ calls)%list
    ∧ Forall (fun c => (lastRequestTime s + minRequestInterval ≤ c.2)%Z)
        calls
    ∧ backoff_spaced 3 calls = true.
Proof.
  cbv zeta. rewrite getExchangeRates_eq.
  assert (∃ calls : list (nat * Z),
            fetch_starts (trace s) = (fetch_starts (trace s) ++ calls)%list
            ∧ Forall (fun c => (lastRequestTime s + minRequestInterval ≤ c.2)%Z)
                calls
            ∧ backoff_spaced 3 calls = true) as Hidle.
  { exists []. by rewrite app_nil_r. }
  destruct (if forceRefresh then None else _); [exact Hidle|].
  destruct (negb (isOnline s)).
  { by destruct (cache_read env baseCurrency true s). }
  clear Hidle.
  destruct (walk_timing env baseCurrency 3 (plan 3 (endpoints baseCurrency))
              None (rate_limited s)) as (calls & Hstarts & Hall & Hspaced).
  rewrite rate_limited_starts in Hstarts.
  pose proof (rate_limited_clock s) as Hclock.
  assert (Forall (fun c => (lastRequestTime s + minRequestInterval ≤ c.2)%Z)
            calls) as Hall'.
  { eapply Forall_impl; [exact Hall|]. intros c Hc. cbn in Hc. lia. }
  assert ((fetchWithRetry env baseCurrency 3 (rate_limited s)).2
          = (walk env baseCurrency 3 (plan 3 (endpoints baseCurrency))
               None (rate_limited s)).2) as Hs2.
  { by rewrite fetchWithRetry_walk. }
  rewrite <- Hs2 in Hstarts. clear Hs2.
  destruct (fetchWithRetry env baseCurrency 3 (rate_limited s))
    as [r s2].
  cbn [snd] in Hstarts.
  exists calls. split; [|done].
  destruct r as [result|[|message]]; cbv zeta; cbn [snd].
  - unfold trace. rewrite after_success_events. exact Hstarts.
  - exact Hstarts.
  - by destruct (cache_read env baseCurrency true _).
Qed.

(** ** A resolution through the second endpoint *)

(** The primary endpoint answers 503, the pipeline pauses for a second
    and the other endpoint answers: the result comes from the network,
    the table is cached with the time of the answer, that time is the
    recorded last request time, and one success is counted. *)
Example resolution_through_second_endpoint :
  let host := example_host primary_down in
  let run := getExchangeRates host "USD" false (service_at 5000 ∅) in
  (∃ r, run.1 = Ok r ∧ source r = "api" ∧ r_rates r = example_table
        ∧ warning r = None)
  ∧ trace run.2
    = [ {| ev_time := 5000;
           ev_what := Fetch 0 "https://api.exchangerate-api.com/v4/latest/USD" |};
        {| ev_time := 5040; ev_what := Sleep 1000 |};
        {| ev_time := 6040;
           ev_what := Fetch 0 "https://open.er-api.com/v6/latest/USD" |} ]
  ∧ lastRequestTime run.2 = 6160
  ∧ localStorage run.2 !! "exchangeRatesTimestamp_USD" = Some "6160"
  ∧ localStorage run.2 !! "exchangeRates_USD" = Some "EUR:0.9,GBP:0.8"
  ∧ apiCalls (metrics run.2) = 1%nat
  ∧ attempt_error host "USD" (0%nat, baseUrl ++ "/USD")
    = Some (ThrownError "HTTP 503: Service Unavailable").
Proof.
  cbv zeta. split; [eexists; split; [vm_compute; reflexivity|done]|].
  repeat split; vm_compute; reflexivity.
Qed.

(** ** Strings: prefixes and the keys of the cache *)

Lemma append_nil s : "" ++ s = s.
Proof. reflexivity. Qed.

Lemma append_cons c p s : String c p ++ s = String c (p ++ s).
Proof. reflexivity. Qed.

Lemma prefix_app p rest : String.prefix p (p ++ rest) = true.
Proof.
  induction p as [|c p IH].
  - rewrite append_nil. by destruct rest.
  - rewrite append_cons. cbn. by destruct (Ascii.ascii_dec c c).
Qed.

Lemma prefix_inv p s : String.prefix p s = true → ∃ rest, s = p ++ rest.
Proof.
  revert s. induction p as [|c p IH]; intros s H.
  - by exists s.
  - destruct s as [|c' s]; [done|]. cbn in H.
    destruct (Ascii.ascii_dec c c') as [->|]; [|done].
    destruct (IH s H) as [rest ->]. by exists rest.
Qed.

Lemma substring_all s : String.substring 0 (String.length s) s = s.
Proof. induction s as [|c s IH]; cbn; by rewrite ?IH. Qed.

Lemma substring_skip p rest :
  String.substring (String.length p) (String.length rest) (p ++ rest) = rest.
Proof.
  induction p as [|c p IH].
  - rewrite append_nil. apply substring_all.
  - rewrite append_cons. cbn. exact IH.
Qed.

Lemma length_app p rest :
  String.length (p ++ rest) = (String.length p + String.length rest)%nat.
Proof.
  induction p as [|c p IH]; [done|].
  rewrite append_cons. cbn. by rewrite IH.
Qed.

Lemma js_replace_prefix pat rest rep :
  pat ≠ "" → js_replace (pat ++ rest) pat rep = rep ++ rest.
Proof.
  intros Hpat. unfold js_replace.
  assert (String.index 0 pat (pat ++ rest) = Some 0%nat) as ->.
  { destruct pat as [|c pat]; [done|].
    pose proof (prefix_app (String c pat) rest) as Hp.
    rewrite append_cons in *. cbn [String.index]. by rewrite Hp. }
  rewrite length_app.
  replace (String.length pat + String.length rest - (0 + String.length pat))%nat
    with (String.length rest) by lia.
  cbn [Nat.add]. rewrite substring_skip.
  assert (String.substring 0 0 (pat ++ rest) = "") as ->.
  { by destruct (pat ++ rest). }
  by rewrite append_nil.
Qed.

(** The data key that [cleanOldCache] computes from a timestamp key. *)
Lemma dataKey_of_timestampKey key :
  startsWith key cacheTimestampKey = true →
  ∃ rest, key = cacheTimestampKey ++ rest
          ∧ js_replace key cacheTimestampKey cacheKey = cacheKey ++ rest.
Proof.
  intros H. apply prefix_inv in H as [rest ->]. exists rest.
  split; [done|]. by apply js_replace_prefix.
Qed.

Lemma dataKeyOf_not_timestamp baseCurrency :
  startsWith (dataKeyOf baseCurrency) cacheTimestampKey = false.
Proof. reflexivity. Qed.

Lemma timestampKeyOf_timestamp baseCurrency :
  startsWith (timestampKeyOf baseCurrency) cacheTimestampKey = true.
Proof. reflexivity. Qed.

Lemma replaced_is_dataKey key baseCurrency :
  startsWith key cacheTimestampKey = true →
  js_replace key cacheTimestampKey cacheKey = dataKeyOf baseCurrency →
  key = timestampKeyOf baseCurrency.
Proof.
  intros H Heq. apply dataKey_of_timestampKey in H as (rest & -> & Hrep).
  rewrite Hrep in Heq. vm_compute in Heq. injection Heq as ->. reflexivity.
Qed.

Lemma replaced_is_timestampKey key baseCurrency :
  startsWith key cacheTimestampKey = true →
  js_replace key cacheTimestampKey cacheKey = timestampKeyOf baseCurrency →
  key = shadowKeyOf baseCurrency.
Proof.
  intros H Heq. apply dataKey_of_timestampKey in H as (rest & -> & Hrep).
  rewrite Hrep in Heq. vm_compute in Heq. injection Heq as ->. reflexivity.
Qed.

(** ** The sweep of [cleanOldCache] *)

Section Sweep.
Variable env : Env.
Hypothesis storage_works : reliable env.

Lemma set_localStorage_id s : set_localStorage (fun m => m) s = s.
Proof. by destruct s. Qed.

Lemma cleanOldCache_step_eq now key s :
  cleanOldCache_step env now key s
  = (Ok tt, set_localStorage (fun m => sweep_step env now m key) s).
Proof.
  destruct s as [m t ev online last met fb].
  unfold cleanOldCache_step, sweep_step, expired, set_localStorage.
  cbn [localStorage clock events isOnline lastRequestTime metrics
         fallbackRates].
  destruct (startsWith key cacheTimestampKey); cbn [andb]; [|done].
  unfold mbind at 1, M_bind at 1. rewrite getItem_reliable by done.
  cbn [localStorage].
  destruct (falsy_item (m !! key)); cbn [negb andb]; [done|].
  destruct (age_gt _ _); [|done].
  unfold mbind, M_bind. by rewrite !removeItem_reliable.
Qed.

Lemma forEach_cleanOldCache_step now keys s :
  forEach (cleanOldCache_step env now) keys s
  = (Ok tt,
     set_localStorage (fun m => foldl (sweep_step env now) m keys) s).
Proof.
  revert s. induction keys as [|key keys IH]; intros s.
  - by destruct s.
  - cbn [forEach foldl]. unfold mbind, M_bind.
    rewrite cleanOldCache_step_eq, IH. reflexivity.
Qed.

Lemma cleanOldCache_eq s :
  cleanOldCache env s
  = (Ok tt,
     set_localStorage
       (fun m => foldl (sweep_step env (clock s)) m (map_to_list m).*1) s).
Proof.
  unfold cleanOldCache, try_catch.
  unfold mbind at 1, M_bind at 1. rewrite Object_keys_reliable by done.
  unfold Date_now. unfold mbind at 1, M_bind at 1, gets at 1.
  cbv beta iota. by rewrite forEach_cleanOldCache_step.
Qed.

(** The sweep only deletes. *)
Lemma sweep_step_None now m key q :
  m !! q = None → sweep_step env now m key !! q = None.
Proof.
  intros H. unfold sweep_step. destruct (expired env now m key); [|done].
  rewrite !lookup_delete_None. auto.
Qed.

Lemma sweep_None now keys m q :
  m !! q = None → foldl (sweep_step env now) m keys !! q = None.
Proof.
  revert m. induction keys as [|key keys IH]; intros m H; [done|].
  cbn [foldl]. apply IH. by apply sweep_step_None.
Qed.

Lemma expired_lookup now m m' key :
  m' !! key = m !! key → expired env now m' key = expired env now m key.
Proof. unfold expired. by intros ->. Qed.

(** One step on a key other than the entry's timestamp key leaves the
    two items of the entry alone, if nothing shadows the entry. *)
Lemma sweep_step_other now m key baseCurrency :
  m !! shadowKeyOf baseCurrency = None →
  key ≠ timestampKeyOf baseCurrency →
  sweep_step env now m key !! timestampKeyOf baseCurrency
  = m !! timestampKeyOf baseCurrency
  ∧ sweep_step env now m key !! dataKeyOf baseCurrency
    = m !! dataKeyOf baseCurrency.
Proof.
  intros Hshadow Hkey. unfold sweep_step.
  destruct (expired env now m key) eqn:Hexp; [|done].
  unfold expired in Hexp.
  apply andb_prop in Hexp as [Hexp _].
  apply andb_prop in Hexp as [Hts Hstored].
  assert (key ≠ dataKeyOf baseCurrency) as Hkey'.
  { intros ->. by rewrite dataKeyOf_not_timestamp in Hts. }
  assert (js_replace key cacheTimestampKey cacheKey
          ≠ timestampKeyOf baseCurrency) as Hrep.
  { intros Heq. apply replaced_is_timestampKey in Heq; [|done].
    subst key. by rewrite Hshadow in Hstored. }
  assert (js_replace key cacheTimestampKey cacheKey
          ≠ dataKeyOf baseCurrency) as Hrep'.
  { intros Heq. by apply replaced_is_dataKey in Heq. }
  by rewrite !lookup_delete_ne.
Qed.

Lemma sweep_keeps now keys m baseCurrency :
  m !! shadowKeyOf baseCurrency = None →
  expired env now m (timestampKeyOf baseCurrency) = false →
  foldl (sweep_step env now) m keys !! timestampKeyOf baseCurrency
  = m !! timestampKeyOf baseCurrency
  ∧ foldl (sweep_step env now) m keys !! dataKeyOf baseCurrency
    = m !! dataKeyOf baseCurrency.
Proof.
  revert m. induction keys as [|key keys IH]; intros m Hshadow Hexp; [done|].
  cbn [foldl].
  destruct (decide (key = timestampKeyOf baseCurrency)) as [->|Hkey].
  - unfold sweep_step at 2 4. rewrite Hexp. by apply IH.
  - destruct (sweep_step_other now m key baseCurrency Hshadow Hkey)
      as [Hts Hdata].
    rewrite <- Hts, <- Hdata. apply IH.
    + by apply sweep_step_None.
    + by rewrite (expired_lookup now m).
Qed.

Lemma sweep_removes now keys m baseCurrency :
  m !! shadowKeyOf baseCurrency = None →
  expired env now m (timestampKeyOf baseCurrency) = true →
  timestampKeyOf baseCurrency ∈ keys →
  foldl (sweep_step env now) m keys !! timestampKeyOf baseCurrency = None
  ∧ foldl (sweep_step env now) m keys !! dataKeyOf baseCurrency = None.
Proof.
  revert m.
  induction keys as [|key keys IH]; intros m Hshadow Hexp Hin.
  { by apply elem_of_nil in Hin. }
  cbn [foldl].
  destruct (decide (key = timestampKeyOf baseCurrency)) as [->|Hkey].
  - split; apply sweep_None; unfold sweep_step; rewrite Hexp.
    + rewrite lookup_delete_ne by done. apply lookup_delete_eq.
    + assert (js_replace (timestampKeyOf baseCurrency) cacheTimestampKey
                cacheKey = dataKeyOf baseCurrency) as ->.
      { by apply (js_replace_prefix cacheTimestampKey). }
      apply lookup_delete_eq.
  - apply elem_of_cons in Hin as [Heq|Hin]; [done|].
    destruct (sweep_step_other now m key baseCurrency Hshadow Hkey)
      as [Hts Hdata].
    apply IH; [by apply sweep_step_None| |done].
    by rewrite (expired_lookup now m).
Qed.

Lemma stored_key_listed (m : gmap string string) key value :
  m !! key = Some value → key ∈ (map_to_list m).*1.
Proof.
  intros H. apply list_elem_of_fmap. exists (key, value).
  split; [done|]. by apply elem_of_map_to_list.
Qed.
End Sweep.

(** ** Staleness and the round trip through the cache *)

Section CacheEntries.
Variable env : Env.
Hypothesis storage_works : reliable env.

Lemma falsy_item_stored value : value ≠ "" → falsy_item (Some value) = false.
Proof. intros H. cbn. by destruct (decide (value = "")). Qed.

(** What a cache read yields for an entry whose items are known. *)
Lemma cache_read_entry baseCurrency allowStale s data timestamp table :
  localStorage s !! dataKeyOf baseCurrency = Some data →
  localStorage s !! timestampKeyOf baseCurrency = Some timestamp →
  data ≠ "" → timestamp ≠ "" →
  JSON_parse env data = Some table →
  cache_read env baseCurrency allowStale s
  = if allowStale
       || age_lt (age_of env (clock s) timestamp) cacheDuration
    then Some {| c_rates := table; c_timestamp := timestamp;
                 c_age := age_of env (clock s) timestamp |}
    else None.
Proof.
  intros Hdata Hts Hd Ht Hparse.
  rewrite cache_read_reliable by done.
  unfold entry_exists, entry_view. cbv zeta. rewrite Hdata, Hts.
  cbn [default from_option id c_age].
  rewrite !falsy_item_stored by done. rewrite Hparse.
  cbn [negb andb default from_option id].
  rewrite bool_decide_eq_true_2 by eauto. reflexivity.
Qed.

Lemma cacheRates_reliable baseCurrency table s :
  cacheRates env baseCurrency table s
  = (Ok tt,
     (cleanOldCache env
        (set_localStorage
           (insert (timestampKeyOf baseCurrency) (toISOString env (clock s)))
           (set_localStorage
              (insert (dataKeyOf baseCurrency) (JSON_stringify env table))
              s))).2).
Proof.
  unfold cacheRates, try_catch, Date_now.
  unfold mbind at 1, M_bind at 1, gets at 1. cbv beta iota.
  unfold mbind at 1, M_bind at 1. rewrite setItem_reliable by done.
  unfold mbind at 1, M_bind at 1. rewrite setItem_reliable by done.
  match goal with
  | |- context [cleanOldCache env ?s1] =>
      by destruct (cleanOldCache_total env s1) as ([] & s' & ->)
  end.
Qed.
End CacheEntries.

(** C5: after [cacheRates] has stored a table for a base currency, a
    read with [allowStale = false] made before [cacheDuration]
    (5 minutes) has passed returns exactly that table, with the timestamp
    of the write. The host is assumed to read back what it writes (the
    table and the date), to write neither as an empty string, to have a
    working storage, and the storage to hold no foreign item under the
    key that the sweep maps to the entry's timestamp key. *)
Theorem cache_round_trip env baseCurrency table s later :
  reliable env →
  JSON_parse env (JSON_stringify env table) = Some table →
  JSON_stringify env table ≠ "" →
  Date_parse env (toISOString env (clock s)) = Some (clock s) →
  toISOString env (clock s) ≠ "" →
  localStorage s !! shadowKeyOf baseCurrency = None →
  (later - clock s < cacheDuration)%Z →
  let stored := (cacheRates env baseCurrency table s).2 in
  (getCachedRates env baseCurrency false (set_clock later stored)).1
  = Ok (Some {| c_rates := table;
                c_timestamp := toISOString env (clock s);
                c_age := Some (later - clock s)%Z |}).
Proof.
  intros Hrel Hjson Hj Hdate Hd Hshadow Hlater. cbv zeta.
  rewrite cacheRates_reliable by done. rewrite cleanOldCache_eq by done.
  cbn [snd set_localStorage localStorage clock].
  set (m := <[timestampKeyOf baseCurrency := toISOString env (clock s)]>
              (<[dataKeyOf baseCurrency := JSON_stringify env table]>
                 (localStorage s))).
  assert (m !! timestampKeyOf baseCurrency = Some (toISOString env (clock s)))
    as Hts by apply lookup_insert_eq.
  assert (m !! dataKeyOf baseCurrency = Some (JSON_stringify env table))
    as Hdata.
  { unfold m. rewrite lookup_insert_ne by done. apply lookup_insert_eq. }
  assert (m !! shadowKeyOf baseCurrency = None) as Hshadow'.
  { unfold m. rewrite !lookup_insert_ne; [done| |].
    - intros H; vm_compute in H; discriminate.
    - intros H; vm_compute in H; discriminate. }
  assert (expired env (clock s) m (timestampKeyOf baseCurrency) = false)
    as Hexp.
  { unfold expired. rewrite Hts. cbn [default from_option id]. unfold age_of.
    rewrite Hdate, Z.sub_diag. cbn. by rewrite andb_false_r. }
  destruct (sweep_keeps env (clock s) (map_to_list m).*1 m baseCurrency
              Hshadow' Hexp) as [H1 H2].
  rewrite getCachedRates_eq. cbn [fst].
  rewrite (cache_read_entry env Hrel baseCurrency false _
             (JSON_stringify env table) (toISOString env (clock s)) table);
    [| exact (eq_trans H2 Hdata) | exact (eq_trans H1 Hts)
     | done | done | done].
  cbn [clock set_clock]. unfold age_of. rewrite Hdate. cbn [orb age_lt].
  by rewrite (proj2 (Z.ltb_lt _ _) Hlater).
Qed.

(** The table of the examples, written at time 5000 into an empty
    storage and read back four minutes later. *)
Lemma cache_round_trip_witness :
  (getCachedRates (example_host unreachable) "USD" false
     (set_clock 245000
        (cacheRates (example_host unreachable) "USD" example_table
           (service_at 5000 ∅)).2)).1
  = Ok (Some {| c_rates := example_table; c_timestamp := "5000";
                c_age := Some 240000 |}).
Proof.
  apply (cache_round_trip (example_host unreachable) "USD" example_table
           (service_at 5000 ∅) 245000).
  - intros op. reflexivity.
  - reflexivity.
  - discriminate.
  - reflexivity.
  - discriminate.
  - reflexivity.
  - reflexivity.
Defined.

(** The service writes no shadow key: a storage without them stays
    without them through every write of the cache. *)
Lemma cacheRates_no_shadow env written table s baseCurrency :
  reliable env →
  localStorage s !! shadowKeyOf baseCurrency = None →
  localStorage (cacheRates env written table s).2
    !! shadowKeyOf baseCurrency = None.
Proof.
  intros Hrel Hshadow. rewrite cacheRates_reliable by done.
  rewrite cleanOldCache_eq by done.
  cbn [snd set_localStorage localStorage]. apply sweep_None.
  rewrite !lookup_insert_ne; [done| |].
  - intros H; vm_compute in H; discriminate.
  - intros H; vm_compute in H; discriminate.
Qed.

(** ** The sweep that a write performs on the other entries *)

(** [cacheRates] for one base currency sweeps the entries of the others:
    an entry of another base currency is removed by the write if it is
    older than twice the TTL, and is left as it is otherwise. *)
Lemma cacheRates_sweeps_others
    env written table baseCurrency s data timestamp stored :
  reliable env →
  written ≠ baseCurrency →
  localStorage s !! dataKeyOf baseCurrency = Some data →
  localStorage s !! timestampKeyOf baseCurrency = Some timestamp →
  timestamp ≠ "" →
  Date_parse env timestamp = Some stored →
  localStorage s !! shadowKeyOf baseCurrency = None →
  let swept := localStorage (cacheRates env written table s).2 in
  if (cacheDuration * 2 <? clock s - stored)%Z
  then swept !! dataKeyOf baseCurrency = None
       ∧ swept !! timestampKeyOf baseCurrency = None
  else swept !! dataKeyOf baseCurrency = Some data
       ∧ swept !! timestampKeyOf baseCurrency = Some timestamp.
Proof.
  intros Hrel Hne Hdata Hts Ht Hdate Hshadow. cbv zeta.
  rewrite cacheRates_reliable by done. rewrite cleanOldCache_eq by done.
  cbn [snd set_localStorage localStorage clock].
  set (m := <[timestampKeyOf written := toISOString env (clock s)]>
              (<[dataKeyOf written := JSON_stringify env table]>
                 (localStorage s))).
  assert (∀ key, key ≠ timestampKeyOf written → key ≠ dataKeyOf written →
                 m !! key = localStorage s !! key) as Hother.
  { intros key H1 H2. unfold m. by rewrite !lookup_insert_ne. }
  assert (dataKeyOf baseCurrency ≠ dataKeyOf written) as Hdd.
  { intros H. vm_compute in H. by injection H. }
  assert (timestampKeyOf baseCurrency ≠ timestampKeyOf written) as Htt.
  { intros H. vm_compute in H. by injection H. }
  assert (dataKeyOf baseCurrency ≠ timestampKeyOf written) as Hdt.
  { intros H; vm_compute in H; discriminate. }
  assert (timestampKeyOf baseCurrency ≠ dataKeyOf written) as Htd.
  { intros H; vm_compute in H; discriminate. }
  assert (m !! shadowKeyOf baseCurrency = None) as Hshadow'.
  { rewrite Hother; [done| |].
    - intros H; vm_compute in H; discriminate.
    - intros H; vm_compute in H; discriminate. }
  assert (expired env (clock s) m (timestampKeyOf baseCurrency)
          = (cacheDuration * 2 <? clock s - stored)%Z) as Hexp.
  { unfold expired. rewrite Hother, Hts, timestampKeyOf_timestamp by done.
    rewrite falsy_item_stored by done. cbn [default from_option id negb andb].
    unfold age_of. by rewrite Hdate. }
  destruct (cacheDuration * 2 <? clock s - stored)%Z.
  - destruct (sweep_removes env (clock s) (map_to_list m).*1 m baseCurrency
                Hshadow' Hexp) as [H1 H2]; [|done].
    eapply stored_key_listed. by rewrite Hother.
  - destruct (sweep_keeps env (clock s) (map_to_list m).*1 m baseCurrency
                Hshadow' Hexp) as [H1 H2].
    rewrite H1, H2, !Hother by done. done.
Qed.

(** C6: for a stored entry of age [a] (its data item parses and its
    timestamp item is a date), a read with [allowStale = false] returns
    the entry iff [a < cacheDuration] (5 minutes); a read with
    [allowStale = true] returns it whatever [a] is; and the sweep that a
    put performs, [cacheRates] writing the entry of any other base
    currency, removes both items of the entry if [a > 2 * cacheDuration]
    and leaves both as they are otherwise, as does [cleanOldCache] run
    by itself. The storage is assumed to work and to hold no foreign
    item under the key that the sweep maps to the entry's timestamp
    key. *)
Theorem cache_staleness
    env baseCurrency s data timestamp table written other rates :
  reliable env →
  localStorage s !! dataKeyOf baseCurrency = Some data →
  localStorage s !! timestampKeyOf baseCurrency = Some timestamp →
  data ≠ "" → timestamp ≠ "" →
  JSON_parse env data = Some table →
  Date_parse env timestamp = Some written →
  localStorage s !! shadowKeyOf baseCurrency = None →
  other ≠ baseCurrency →
  let age := (clock s - written)%Z in
  let entry := {| c_rates := table; c_timestamp := timestamp;
                  c_age := Some age |} in
  let put := localStorage (cacheRates env other rates s).2 in
  let swept := localStorage (cleanOldCache env s).2 in
  (getCachedRates env baseCurrency false s).1
  = Ok (if (age <? cacheDuration)%Z then Some entry else None)
  ∧ (getCachedRates env baseCurrency true s).1 = Ok (Some entry)
  ∧ (if (cacheDuration * 2 <? age)%Z
     then put !! dataKeyOf baseCurrency = None
          ∧ put !! timestampKeyOf baseCurrency = None
          ∧ swept !! dataKeyOf baseCurrency = None
          ∧ swept !! timestampKeyOf baseCurrency = None
     else put !! dataKeyOf baseCurrency = Some data
          ∧ put !! timestampKeyOf baseCurrency = Some timestamp
          ∧ swept !! dataKeyOf baseCurrency = Some data
          ∧ swept !! timestampKeyOf baseCurrency = Some timestamp).
Proof.
  intros Hrel Hdata Hts Hd Ht Hparse Hdate Hshadow Hother. cbv zeta.
  assert (age_of env (clock s) timestamp = Some (clock s - written)%Z) as Hage.
  { unfold age_of. by rewrite Hdate. }
  split; [|split].
  - rewrite getCachedRates_eq. cbn [fst].
    rewrite (cache_read_entry env Hrel baseCurrency false s data timestamp table)
      by done.
    rewrite Hage. reflexivity.
  - rewrite getCachedRates_eq. cbn [fst].
    rewrite (cache_read_entry env Hrel baseCurrency true s data timestamp table)
      by done.
    rewrite Hage. reflexivity.
  - pose proof (cacheRates_sweeps_others env other rates baseCurrency s data
                  timestamp written Hrel Hother Hdata Hts Ht Hdate Hshadow)
      as Hput.
    cbv zeta in Hput.
    rewrite cleanOldCache_eq by done.
    cbn [snd set_localStorage localStorage].
    assert (expired env (clock s) (localStorage s)
              (timestampKeyOf baseCurrency)
            = (cacheDuration * 2 <? clock s - written)%Z) as Hexp.
    { unfold expired. rewrite Hts, timestampKeyOf_timestamp.
      rewrite falsy_item_stored by done. cbn [default from_option id negb andb].
      by rewrite Hage. }
    destruct (cacheDuration * 2 <? clock s - written)%Z.
    + destruct Hput as [Hp1 Hp2].
      destruct (sweep_removes env (clock s) (map_to_list (localStorage s)).*1
                  (localStorage s) baseCurrency Hshadow Hexp) as [H1 H2];
        [by eapply stored_key_listed|done].
    + destruct Hput as [Hp1 Hp2].
      destruct (sweep_keeps env (clock s) (map_to_list (localStorage s)).*1
                  (localStorage s) baseCurrency Hshadow Hexp) as [H1 H2].
      by rewrite H1, H2.
Qed.

(** An entry for USD written at time 1000, read at time 2000000, when
    the entry for EUR is put: it is stale for a fresh read, served to a
    stale read, and removed by the sweep of the put. *)
Lemma cache_staleness_witness :
  let s := service_at 2000000 stored_entry in
  let host := example_host unreachable in
  let entry := {| c_rates := example_table; c_timestamp := "1000";
                  c_age := Some 1999000 |} in
  let put := localStorage (cacheRates host "EUR" example_table s).2 in
  let swept := localStorage (cleanOldCache host s).2 in
  (getCachedRates host "USD" false s).1 = Ok None
  ∧ (getCachedRates host "USD" true s).1 = Ok (Some entry)
  ∧ (put !! dataKeyOf "USD" = None
     ∧ put !! timestampKeyOf "USD" = None
     ∧ swept !! dataKeyOf "USD" = None
     ∧ swept !! timestampKeyOf "USD" = None).
Proof.
  apply (cache_staleness (example_host unreachable) "USD"
           (service_at 2000000 stored_entry) "EUR:0.9,GBP:0.8" "1000"
           example_table 1000 "EUR" example_table).
  - intros op. reflexivity.
  - reflexivity.
  - reflexivity.
  - discriminate.
  - discriminate.
  - reflexivity.
  - reflexivity.
  - reflexivity.
  - discriminate.
Defined.

(** The sweep touches cache items only: an item whose key does not start
    with [cacheKey] is left as it is. *)
Lemma sweep_step_other_keys env now m key q :
  startsWith q cacheKey = false →
  sweep_step env now m key !! q = m !! q.
Proof.
  intros Hq. unfold sweep_step.
  destruct (expired env now m key) eqn:Hexp; [|done].
  unfold expired in Hexp. apply andb_prop in Hexp as [Hexp _].
  apply andb_prop in Hexp as [Hts _].
  apply dataKey_of_timestampKey in Hts as (rest & -> & ->).
  rewrite !lookup_delete_ne; [done| |].
  - intros <-. unfold startsWith in Hq.
    change (cacheTimestampKey ++ rest)
      with (cacheKey ++ ("Timestamp" ++ rest)) in Hq.
    by rewrite prefix_app in Hq.
  - intros <-. unfold startsWith in Hq. by rewrite prefix_app in Hq.
Qed.

Lemma cleanOldCache_other_keys env s q :
  reliable env →
  startsWith q cacheKey = false →
  localStorage (cleanOldCache env s).2 !! q = localStorage s !! q.
Proof.
  intros Hrel Hq. rewrite cleanOldCache_eq by done.
  cbn [snd set_localStorage localStorage].
  generalize (map_to_list (localStorage s)).*1. intros keys.
  generalize (localStorage s). induction keys as [|key keys IH]; intros m.
  - reflexivity.
  - cbn [foldl]. rewrite IH. by apply sweep_step_other_keys.
Qed.

(** ** Clearing the cache *)

Section ClearCache.
Variable env : Env.
Hypothesis storage_works : reliable env.

Lemma clearCache_step_eq key s :
  clearCache_step env key s
  = (Ok tt, set_localStorage (fun m => clear_step m key) s).
Proof.
  destruct s as [m t ev online last met fb].
  unfold clearCache_step, clear_step, set_localStorage.
  cbn [localStorage clock events isOnline lastRequestTime metrics
         fallbackRates].
  destruct (_ || _); [|done]. by rewrite removeItem_reliable.
Qed.

Lemma forEach_clearCache_step keys s :
  forEach (clearCache_step env) keys s
  = (Ok tt, set_localStorage (fun m => foldl clear_step m keys) s).
Proof.
  revert s. induction keys as [|key keys IH]; intros s.
  - by destruct s.
  - cbn [forEach foldl]. unfold mbind, M_bind.
    rewrite clearCache_step_eq, IH. reflexivity.
Qed.

Lemma clearCache_eq s :
  clearCache env s
  = (Ok tt,
     set_localStorage
       (fun m => foldl clear_step m (map_to_list m).*1) s).
Proof.
  unfold clearCache, mbind, M_bind.
  rewrite Object_keys_reliable by done.
  by rewrite forEach_clearCache_step.
Qed.

Lemma clear_lookup keys (m : gmap string string) q :
  foldl clear_step m keys !! q
  = if (startsWith q cacheKey || startsWith q cacheTimestampKey)
       && bool_decide (q ∈ keys)
    then None else m !! q.
Proof.
  revert m. induction keys as [|key keys IH]; intros m.
  - cbn [foldl]. rewrite bool_decide_eq_false_2 by apply not_elem_of_nil.
    by rewrite andb_false_r.
  - cbn [foldl]. rewrite IH. unfold clear_step.
    destruct (decide (q = key)) as [->|Hne].
    + rewrite (bool_decide_eq_true_2 (key ∈ key :: keys))
        by apply list_elem_of_here.
      rewrite andb_true_r.
      destruct (startsWith key cacheKey || startsWith key cacheTimestampKey).
      * rewrite lookup_delete_eq. by destruct (_ && _).
      * done.
    + assert (bool_decide (q ∈ key :: keys) = bool_decide (q ∈ keys)) as ->.
      { apply bool_decide_ext. rewrite elem_of_cons.
        split; [by intros [?|?] | by right]. }
      destruct (startsWith key cacheKey || startsWith key cacheTimestampKey);
        [|done].
      by rewrite lookup_delete_ne.
Qed.
End ClearCache.

(** C9: on a storage that works, [clearCache] removes exactly the items
    whose key starts with [cacheKey] (exchangeRates) or with
    [cacheTimestampKey] (exchangeRatesTimestamp): every other item is
    left as it is, and so are the clock, the metrics, the last request
    time, the connectivity flag and the fallback table. *)
Theorem clearCache_removes_cache_keys_only env s :
  reliable env →
  let run := clearCache env s in
  run.1 = Ok tt
  ∧ (∀ key,
       localStorage run.2 !! key
       = if startsWith key cacheKey || startsWith key cacheTimestampKey
         then None
         else localStorage s !! key)
  ∧ same_service s run.2.
Proof.
  intros Hrel. cbv zeta. split; [|split].
  - by rewrite clearCache_eq.
  - intros key. rewrite clearCache_eq by done.
    cbn [snd set_localStorage localStorage]. rewrite clear_lookup.
    destruct (startsWith key cacheKey || startsWith key cacheTimestampKey);
      [|done].
    cbn [andb]. case_bool_decide as Hin; [done|].
    destruct (localStorage s !! key) as [value|] eqn:Hkey; [|done].
    exfalso. apply Hin. by eapply stored_key_listed.
  - apply storage_only_clearCache.
Qed.

(** A storage with the entry for USD and an item of another feature:
    the entry goes, the other item stays. *)
Lemma clearCache_removes_cache_keys_only_witness :
  let s := service_at 5000 (<["theme" := "dark"]> stored_entry) in
  let run := clearCache (example_host unreachable) s in
  run.1 = Ok tt
  ∧ (∀ key,
       localStorage run.2 !! key
       = if startsWith key cacheKey || startsWith key cacheTimestampKey
         then None
         else localStorage s !! key)
  ∧ same_service s run.2.
Proof.
  apply (clearCache_removes_cache_keys_only (example_host unreachable)
           (service_at 5000 (<["theme" := "dark"]> stored_entry))).
  intros op. reflexivity.
Defined.

(** ** Metrics *)

Lemma Qis_zero_counters (calls hits : nat) :
  Qis_zero (inject_Z (Z.of_nat calls) + inject_Z (Z.of_nat hits))
  = bool_decide (calls = 0%nat ∧ hits = 0%nat).
Proof.
  unfold Qis_zero. cbn [Qplus Qnum Qden inject_Z].
  case_bool_decide as H.
  - destruct H as [-> ->]. reflexivity.
  - apply Z.eqb_neq. lia.
Qed.

(** C10: [getMetrics] divides without a guard. With no network success
    and no cache hit recorded the quotient is 0/0 and [cacheHitRate] is
    NaN; in every other state of the counters the divisor is positive
    and [cacheHitRate] is the finite number
    cacheHits / (apiCalls + cacheHits) x 100. *)
Theorem getMetrics_hit_rate m :
  cacheHitRate (getMetrics m)
  = if bool_decide (apiCalls m = 0%nat ∧ cacheHits m = 0%nat)
    then JNaN
    else JFin (inject_Z (Z.of_nat (cacheHits m))
               / (inject_Z (Z.of_nat (apiCalls m))
                  + inject_Z (Z.of_nat (cacheHits m)))
               * inject_Z 100).
Proof.
  unfold getMetrics, cacheHitRate, js_of_nat, js_of_Z.
  cbn [js_add js_div]. rewrite Qis_zero_counters.
  case_bool_decide as H; [|reflexivity].
  destruct H as [_ ->]. reflexivity.
Qed.

(** After one cache hit and one network success the hit rate is 50. *)
Example hit_rate_one_of_two :
  ∃ q, cacheHitRate
         (getMetrics (recordApiSuccess (js_of_Z 120)
                        (recordCacheHit (js_of_Z 1) initial_metrics)))
       = JFin q ∧ (q == 50)%Q.
Proof. eexists. split; [reflexivity|]. reflexivity. Qed.

(** ** Notification rounds *)

Section Rounds.
Variable behaviour : nat -> EngineState -> list Action.
Variable a : nat.
Variable subs : list nat.
Variable merged : EngineState.

Lemma steady_subscribe callback c :
  steady a subs merged c → steady a subs merged (subscribe callback c).
Proof.
  intros [[extra Harr] Hstate]. split; [|done].
  unfold subscribe. cbn [arrays set_subscribers].
  destruct (decide (subscribers c = a)) as [Heq|Hne].
  - exists (extra ++ [callback])%list. rewrite Heq, lookup_insert_eq.
    unfold array_at. rewrite Harr. cbn. by rewrite app_assoc.
  - exists extra. by rewrite lookup_insert_ne.
Qed.

Lemma steady_unsubscribe callback c :
  steady a subs merged c → steady a subs merged (unsubscribe callback c).
Proof.
  intros [[extra Harr] Hstate]. split; [|done].
  exists extra. unfold unsubscribe. cbn [arrays set_subscribers].
  rewrite lookup_insert_ne; [done|].
  intros Heq. pose proof (is_fresh (dom (arrays c))) as Hfresh.
  rewrite Heq in Hfresh. apply Hfresh. apply elem_of_dom. eauto.
Qed.

Lemma steady_actions acts c :
  steady a subs merged c →
  steady a subs merged (fold_left run_action acts c)
  ∧ calls (fold_left run_action acts c) = calls c.
Proof.
  revert c. induction acts as [|act acts IH]; intros c Hc; [done|].
  cbn [fold_left].
  destruct act as [callback|callback]; cbn [run_action].
  - destruct (IH _ (steady_subscribe callback c Hc)) as [H1 H2].
    by rewrite H2.
  - destruct (IH _ (steady_unsubscribe callback c Hc)) as [H1 H2].
    by rewrite H2.
Qed.

Lemma steady_invoke callback c :
  steady a subs merged c →
  steady a subs merged (invoke behaviour callback c)
  ∧ calls (invoke behaviour callback c) = (callback, merged) :: calls c.
Proof.
  intros Hc. unfold invoke.
  assert (steady a subs merged (log_call callback (state c) c)) as Hlogged.
  { destruct Hc as [Harr Hstate]. by split. }
  destruct (steady_actions (behaviour callback (state c)) _ Hlogged)
    as [H1 H2].
  split; [done|]. rewrite H2. cbn. by destruct Hc as [_ ->].
Qed.

(** The loop calls the callbacks that were in the array when the round
    began, one after the other. *)
Lemma forEach_array_steady remaining k c :
  steady a subs merged c →
  (k + remaining = length subs)%nat →
  let c' := forEach_array behaviour a remaining k c in
  steady a subs merged c'
  ∧ call_log c'
    = (call_log c ++ map (fun cb => (cb, merged)) (drop k subs))%list.
Proof.
  revert k c. induction remaining as [|r IH]; intros k c Hc Hlen; cbv zeta.
  - cbn [forEach_array]. split; [done|].
    rewrite drop_ge by lia. cbn. by rewrite app_nil_r.
  - cbn [forEach_array].
    destruct (lookup_lt_is_Some_2 subs k) as [callback Hk]; [lia|].
    assert (array_at c a !! k = Some callback) as ->.
    { destruct Hc as [[extra Harr] _]. unfold array_at. rewrite Harr.
      cbn. by apply lookup_app_l_Some. }
    destruct (steady_invoke callback c Hc) as [Hsteady Hcalls].
    destruct (IH (S k) _ Hsteady) as [H1 H2]; [lia|].
    split; [done|]. rewrite H2. unfold call_log at 1. rewrite Hcalls.
    cbn [rev]. rewrite <- app_assoc. f_equal.
    by rewrite (drop_S subs callback k Hk).
Qed.
End Rounds.

(** C8: [setState] merges the update into the state and then calls, one
    after the other and before it returns, every callback that was in
    the subscriber array when it was invoked, in the order of
    subscription and each with the merged state; this holds whatever the
    callbacks do to the subscriptions while they run: unsubscribing
    (oneself or another callback) replaces the array and does not touch
    the one being walked, and a callback subscribed during the round is
    not called in it. *)
Theorem setState_notifies_every_subscriber behaviour newState c :
  let subs := array_at c (subscribers c) in
  let merged := merge (state c) newState in
  let c' := setState behaviour newState c in
  state c' = merged
  ∧ call_log c'
    = (call_log c ++ map (fun callback => (callback, merged)) subs)%list.
Proof.
  cbv zeta. unfold setState.
  cbn [subscribers set_state].
  change (array_at (set_state (merge (state c) newState) c) (subscribers c))
    with (array_at c (subscribers c)).
  destruct (arrays c !! subscribers c) as [subs|] eqn:Harr.
  - assert (array_at c (subscribers c) = subs) as ->.
    { unfold array_at. by rewrite Harr. }
    destruct (forEach_array_steady behaviour (subscribers c) subs
                (merge (state c) newState) (length subs) 0
                (set_state (merge (state c) newState) c))
      as [[_ Hstate] Hlog]; [|done|done].
    split; [|done]. exists []. by rewrite app_nil_r.
  - assert (array_at c (subscribers c) = []) as ->.
    { unfold array_at. by rewrite Harr. }
    cbn. by rewrite app_nil_r.
Qed.

(** Three subscribers; the first one, when called, unsubscribes itself
    and the second one and subscribes a fourth: the round still calls the
    three of them, in order, with the new state, and the next round calls
    the third and the fourth. *)
Example unsubscribe_during_round :
  let c := converter_with example_table [1; 2; 3]%nat in
  let update := {| patch_loading := Some true; patch_error := None;
                   patch_rates := None; patch_lastUpdate := None;
                   patch_isOffline := None; patch_source := None |} in
  let c' := setState unsubscribing update c in
  map fst (call_log c') = [1; 2; 3]%nat
  ∧ array_at c' (subscribers c') = [3; 4]%nat
  ∧ map fst (call_log (setState unsubscribing update c'))
    = [1; 2; 3; 3; 4]%nat.
Proof. vm_compute. done. Qed.

(** ** Conversion *)




Lemma no_keys_empty (table : RateTable) :
  (length (map_to_list table).*1 =? 0)%nat = bool_decide (table = ∅).
Proof.
  rewrite length_fmap. case_bool_decide as H.
  - subst table. by rewrite map_to_list_empty.
  - apply Nat.eqb_neq. intros Hlen. apply H.
    apply map_to_list_empty_iff. by apply nil_length_inv.
Qed.


(** The same example, evaluated: the rate is 8/9 and the amount 800/9. *)
Example triangulation_EUR_GBP :
  ∃ rate converted c',
    convertCurrency (example_host unreachable) observers (JFin 100)
      "EUR" "GBP" (converter_with example_table [])
    = (Resolved {| convertedAmount := JFin converted;
                   exchangeRate := JFin rate; conv_error := None;
                   conv_source := None; conv_lastUpdate := None |}, c')
    ∧ (rate == 8 # 9)%Q ∧ (converted == 800 # 9)%Q.
Proof. eexists _, _, _. split; [vm_compute; reflexivity|]. split; reflexivity. Qed.

(** * Further properties of the service *)

(** ** The paths of a resolution *)

(** The case analysis of [getExchangeRates_eq]: a cache hit, the two
    offline answers, a network answer, and the two answers of the
    [catch] block. *)
Ltac resolution_cases env baseCurrency forceRefresh s :=
  rewrite (getExchangeRates_eq env baseCurrency forceRefresh s);
  let Hfresh := fresh "Hfresh" in
  let Honline := fresh "Honline" in
  let Hfetch := fresh "Hfetch" in
  let Hstale := fresh "Hstale" in
  destruct (if forceRefresh then None
            else cache_read env baseCurrency false s) as [?hit|] eqn:Hfresh;
  [| destruct (isOnline s) eqn:Honline; cbn [negb];
     [ destruct (fetchWithRetry env baseCurrency 3 (rate_limited s))
         as [[?fetched|[|?message]] ?s2] eqn:Hfetch;
       [ cbv zeta
       | by apply fetchWithRetry_throws_error in Hfetch
       | cbv zeta;
         destruct (cache_read env baseCurrency true
                     (after_failure message (clock s) s2))
           as [?stale|] eqn:Hstale ]
     | destruct (cache_read env baseCurrency true s)
         as [?stale|] eqn:Hstale ] ].

(** Comparisons of two source tags are evaluated. *)
Ltac decide_tags :=
  unfold error_source;
  repeat match goal with
         | |- context [bool_decide (?a = ?b)] =>
             let v := eval vm_compute in (bool_decide (a = b)) in
             change (bool_decide (a = b)) with v
         end;
  cbn [orb].

Lemma after_success_frame env baseCurrency table startTime s :
  let s' := after_success env baseCurrency table startTime s in
  clock s' = clock s ∧ events s' = events s ∧ isOnline s' = isOnline s
  ∧ lastRequestTime s' = clock s
  ∧ fallbackRates s' = fallbackRates s
  ∧ metrics s'
    = recordApiSuccess (js_of_Z (clock s - startTime)) (metrics s)
  ∧ localStorage s'
    = localStorage (cacheRates env baseCurrency table
                      (set_lastRequestTime (clock s) s)).2.
Proof.
  unfold after_success.
  destruct (storage_only_cacheRates env baseCurrency table
              (set_lastRequestTime (clock s) s))
    as (Hc & He & Ho & Hl & Hm & Hf).
  cbn in *. rewrite Hc, He, Ho, Hl, Hm, Hf. done.
Qed.

Lemma fetch_starts_log_fetch attempt url s :
  fetch_starts (trace (log_event (Fetch attempt url) s))
  = (fetch_starts (trace s) ++ [(attempt, clock s)])%list.
Proof. rewrite trace_log_event, fetch_starts_app. done. Qed.

Lemma attempt_budget_bound maxRetries x :
  (fetchTimeout ≤ attempt_budget maxRetries x)%Z.
Proof. unfold attempt_budget. destruct (_ <? _)%nat; lia. Qed.

Lemma time_budget_nonneg maxRetries l : (0 ≤ time_budget maxRetries l)%Z.
Proof.
  induction l as [|y l IH]; cbn; [lia|].
  pose proof (attempt_budget_bound maxRetries y).
  unfold fetchTimeout in *. fold (time_budget maxRetries l). lia.
Qed.

(** The calls and the time of a walk: one call for each failed attempt
    and one for the success, and no more time than the budget of the
    attempts. *)
Lemma walk_profile env baseCurrency maxRetries l lastError s :
  let s' := (walk env baseCurrency maxRetries l lastError s).2 in
  let fails := attempt_fails env baseCurrency in
  network_calls s'
  = (network_calls s + length (failed_prefix fails l)
     + match first_success fails l with Some _ => 1 | None => 0 end)%nat
  ∧ (clock s ≤ clock s' ≤ clock s + time_budget maxRetries l)%Z.
Proof.
  cbv zeta. revert lastError s.
  induction l as [|x l IH]; intros lastError s.
  { cbn. split; lia. }
  cbn [walk failed_prefix first_success time_budget foldr].
  unfold attempt_fails at 1 3.
  pose proof (attempt_duration_nonneg env x.1 x.2) as Hd.
  assert (attempt_duration env x.1 x.2 ≤ fetchTimeout)%Z as Hd'
    by (unfold attempt_duration; lia).
  destruct (attempt_outcome env baseCurrency x.1 x.2) as [r|e].
  - cbn [snd length].
    assert (network_calls (after_attempt env x s) = S (network_calls s))
      as ->.
    { unfold network_calls.
      rewrite trace_after_attempt, fetch_starts_app, List.length_app.
      cbn. lia. }
    change (clock (after_attempt env x s))
      with (clock s + attempt_duration env x.1 x.2)%Z.
    pose proof (time_budget_nonneg maxRetries l).
    pose proof (attempt_budget_bound maxRetries x).
    fold (time_budget maxRetries l).
    split; lia.
  - specialize (IH (Some e)
                  (after_backoff maxRetries x (after_attempt env x s))).
    destruct IH as [IHn IHt]. rewrite IHn. cbn [length].
    fold (time_budget maxRetries l).
    assert (network_calls (after_backoff maxRetries x (after_attempt env x s))
            = S (network_calls s)) as ->.
    { unfold network_calls. rewrite fetch_starts_after_failed, List.length_app.
      cbn. lia. }
    split; [lia|].
    assert (clock s ≤ clock (after_backoff maxRetries x (after_attempt env x s))
            ≤ clock s + attempt_budget maxRetries x)%Z; [|lia].
    unfold after_backoff, after_attempt, attempt_budget, sleep, modify.
    destruct (_ <? _)%nat; cbn; lia.
Qed.

Lemma failed_prefix_length fails l :
  (length (failed_prefix fails l)
   + match first_success fails l with Some _ => 1 | None => 0 end
   ≤ length l)%nat.
Proof.
  induction l as [|x l IH]; cbn; [lia|].
  destruct (fails x); cbn; lia.
Qed.

Lemma failed_prefix_some fails x l :
  (1 ≤ length (failed_prefix fails (x :: l))
       + match first_success fails (x :: l) with Some _ => 1 | None => 0 end)%nat.
Proof. cbn. destruct (fails x); cbn; lia. Qed.

(** The pipeline of a resolution: between one and six calls, and at
    most 66 seconds. *)
Lemma fetchWithRetry_profile env baseCurrency s :
  let s' := (fetchWithRetry env baseCurrency 3 s).2 in
  (network_calls s + 1 ≤ network_calls s' ≤ network_calls s + 6)%nat
  ∧ (clock s ≤ clock s' ≤ clock s + 66000)%Z.
Proof.
  cbv zeta. rewrite fetchWithRetry_walk. cbv zeta. cbn [snd].
  destruct (walk_profile env baseCurrency 3
              (plan 3 (endpoints baseCurrency)) None s) as [Hn Ht].
  cbv zeta in Hn, Ht. rewrite Hn.
  pose proof (failed_prefix_length (attempt_fails env baseCurrency)
                (plan 3 (endpoints baseCurrency))) as Hlen.
  change (length (plan 3 (endpoints baseCurrency))) with 6%nat in Hlen.
  change (time_budget 3 (plan 3 (endpoints baseCurrency))) with 66000%Z in Ht.
  pose proof (failed_prefix_some (attempt_fails env baseCurrency)
                (0%nat, baseUrl ++ "/" ++ baseCurrency)
                (tl (plan 3 (endpoints baseCurrency)))) as Hone.
  change ((0%nat, baseUrl ++ "/" ++ baseCurrency)
            :: tl (plan 3 (endpoints baseCurrency)))
    with (plan 3 (endpoints baseCurrency)) in Hone.
  split; [lia|done].
Qed.

Lemma rate_limited_profile s :
  network_calls (rate_limited s) = network_calls s
  ∧ (clock s ≤ clock (rate_limited s))%Z
  ∧ (lastRequestTime s ≤ clock s →
     clock (rate_limited s) ≤ clock s + minRequestInterval)%Z.
Proof.
  unfold network_calls. rewrite rate_limited_starts. split; [done|].
  unfold rate_limited, sleep, modify, minRequestInterval.
  destruct (_ <? _)%Z eqn:Hlt; cbn; lia.
Qed.

Lemma dataKeyOf_cache baseCurrency :
  startsWith (dataKeyOf baseCurrency) cacheKey = true.
Proof. reflexivity. Qed.

Lemma timestampKeyOf_cache baseCurrency :
  startsWith (timestampKeyOf baseCurrency) cacheKey = true.
Proof. reflexivity. Qed.

(** ** Offline and forced resolutions *)

(** X1: while the service is offline, [getExchangeRates] answers from
    what it has: the source is "cache", "offline_cache" or "fallback",
    and a "fallback" answer carries the service's fallback table. No
    network call is made and nothing is waited for (the log and the
    clock are as before), and neither the storage, nor the time of the
    last request, nor the counts of network calls and of errors change. *)
Theorem getExchangeRates_offline env baseCurrency forceRefresh s :
  isOnline s = false →
  let run := getExchangeRates env baseCurrency forceRefresh s in
  ∃ r, run.1 = Ok r
       ∧ source r ∈ ["cache"; "offline_cache"; "fallback"]
       ∧ (source r = "fallback" → r_rates r = fallbackRates s)
       ∧ events run.2 = events s
       ∧ clock run.2 = clock s
       ∧ localStorage run.2 = localStorage s
       ∧ lastRequestTime run.2 = lastRequestTime s
       ∧ apiCalls (metrics run.2) = apiCalls (metrics s)
       ∧ errors (metrics run.2) = errors (metrics s).
Proof.
  intros Hoff. cbv zeta.
  resolution_cases env baseCurrency forceRefresh s; try congruence.
  - eexists. split; [done|]. cbn. split; [set_solver|]. done.
  - eexists. split; [done|]. cbn. split; [set_solver|]. done.
  - eexists. split; [done|]. cbn. split; [set_solver|]. done.
Qed.

Lemma getExchangeRates_offline_witness :
  let s := offline_at 2000000 stored_entry in
  let run := getExchangeRates (example_host unreachable) "USD" false s in
  ∃ r, run.1 = Ok r
       ∧ source r ∈ ["cache"; "offline_cache"; "fallback"]
       ∧ (source r = "fallback" → r_rates r = fallbackRates s)
       ∧ events run.2 = events s
       ∧ clock run.2 = clock s
       ∧ localStorage run.2 = localStorage s
       ∧ lastRequestTime run.2 = lastRequestTime s
       ∧ apiCalls (metrics run.2) = apiCalls (metrics s)
       ∧ errors (metrics run.2) = errors (metrics s).
Proof.
  apply (getExchangeRates_offline (example_host unreachable) "USD" false
           (offline_at 2000000 stored_entry)).
  reflexivity.
Defined.

(** X2: a forced refresh never answers with the source "cache" and
    counts no cache hit; while the service is online it makes at least
    one network call and at most six. *)
Theorem getExchangeRates_forced_refresh env baseCurrency s :
  let run := getExchangeRates env baseCurrency true s in
  ∃ r, run.1 = Ok r
       ∧ source r ≠ "cache"
       ∧ cacheHits (metrics run.2) = cacheHits (metrics s)
       ∧ (if isOnline s
          then (network_calls s + 1 ≤ network_calls run.2
                ≤ network_calls s + 6)%nat
          else network_calls run.2 = network_calls s).
Proof.
  cbv zeta.
  pose proof (fetchWithRetry_profile env baseCurrency (rate_limited s))
    as [Hcalls _].
  cbv zeta in Hcalls.
  destruct (rate_limited_profile s) as [Hsame _]. rewrite Hsame in Hcalls.
  pose proof (fetchWithRetry_frame env baseCurrency 3 (rate_limited s))
    as (_ & _ & _ & Hm2 & _).
  pose proof (rate_limited_frame s) as (_ & _ & _ & Hm1 & _).
  resolution_cases env baseCurrency true s; try done.
  - cbn [snd] in Hcalls. eexists. split; [done|]. cbn [snd source].
    split; [done|].
    destruct (after_success_frame env baseCurrency (f_rates fetched)
                (clock s) s2) as (_ & He & _ & _ & _ & Hm & _).
    cbn [snd] in Hm2. rewrite Hm. split; [cbn; congruence|].
    unfold network_calls, trace in *. rewrite He. done.
  - cbn [snd] in Hcalls, Hm2. eexists. split; [done|]. cbn.
    split; [done|]. split; [congruence|done].
  - cbn [snd] in Hcalls, Hm2. eexists. split; [done|]. cbn.
    split; [done|]. split; [congruence|done].
  - eexists. split; [done|]. by cbn.
  - eexists. split; [done|]. by cbn.
Qed.

(** ** What a resolution records *)

(** X3: every resolution is counted once, by its source: a "cache"
    answer adds one cache hit, an "api" answer one network call, an
    answer of the [catch] block ("error_fallback_cache" or
    "error_fallback_hardcoded") one error, and an offline answer
    ("offline_cache", "fallback") nothing. The other counters stay as
    they are. *)
Theorem getExchangeRates_counts_by_source env baseCurrency forceRefresh s :
  let run := getExchangeRates env baseCurrency forceRefresh s in
  ∃ r, run.1 = Ok r
       ∧ apiCalls (metrics run.2)
         = (apiCalls (metrics s)
            + if bool_decide (source r = "api") then 1 else 0)%nat
       ∧ cacheHits (metrics run.2)
         = (cacheHits (metrics s)
            + if bool_decide (source r = "cache") then 1 else 0)%nat
       ∧ errors (metrics run.2)
         = (errors (metrics s)
            + if error_source (source r) then 1 else 0)%nat.
Proof.
  cbv zeta.
  pose proof (fetchWithRetry_frame env baseCurrency 3 (rate_limited s))
    as (_ & _ & _ & Hm2 & _).
  pose proof (rate_limited_frame s) as (_ & _ & _ & Hm1 & _).
  resolution_cases env baseCurrency forceRefresh s.
  - eexists. split; [done|]. cbn. decide_tags. lia.
  - cbn [snd] in Hm2.
    destruct (after_success_frame env baseCurrency (f_rates fetched)
                (clock s) s2) as (_ & _ & _ & _ & _ & Hm & _).
    eexists. split; [done|]. cbn [snd source]. rewrite Hm, Hm2, Hm1.
    cbn. decide_tags. lia.
  - cbn [snd] in Hm2.
    eexists. split; [done|]. cbn. rewrite Hm2, Hm1. decide_tags. lia.
  - cbn [snd] in Hm2.
    eexists. split; [done|]. cbn. rewrite Hm2, Hm1. decide_tags. lia.
  - eexists. split; [done|]. cbn. decide_tags. lia.
  - eexists. split; [done|]. cbn. decide_tags. lia.
Qed.

(** X4: a resolution changes the local storage only when it answers from
    the network (source "api"), and then, on a storage that works, only
    items whose key starts with [cacheKey] (exchangeRates). It never
    changes the connectivity flag or the fallback table. *)
Theorem getExchangeRates_storage_frame env baseCurrency forceRefresh s :
  let run := getExchangeRates env baseCurrency forceRefresh s in
  ∃ r, run.1 = Ok r
       ∧ (source r ≠ "api" → localStorage run.2 = localStorage s)
       ∧ (reliable env →
          ∀ key, startsWith key cacheKey = false →
                 localStorage run.2 !! key = localStorage s !! key)
       ∧ isOnline run.2 = isOnline s
       ∧ fallbackRates run.2 = fallbackRates s.
Proof.
  cbv zeta.
  pose proof (fetchWithRetry_frame env baseCurrency 3 (rate_limited s))
    as (Hl2 & Ho2 & _ & _ & Hf2).
  pose proof (rate_limited_frame s) as (Hl1 & Ho1 & _ & _ & Hf1).
  resolution_cases env baseCurrency forceRefresh s.
  - eexists. split; [done|]. by cbn.
  - cbn [snd] in Hl2, Ho2, Hf2.
    destruct (after_success_frame env baseCurrency (f_rates fetched)
                (clock s) s2) as (_ & _ & Ho & _ & Hf & _ & Hl).
    eexists. split; [done|]. cbn [source snd].
    split; [done|]. split; [|by rewrite Ho, Hf, Ho2, Hf2, Ho1, Hf1].
    intros Hrel key Hkey. rewrite Hl, cacheRates_reliable by done.
    cbn [snd]. rewrite cleanOldCache_other_keys by done. cbn.
    rewrite !lookup_insert_ne.
    + by rewrite Hl2, Hl1.
    + intros <-. by rewrite dataKeyOf_cache in Hkey.
    + intros <-. by rewrite timestampKeyOf_cache in Hkey.
  - cbn [snd] in Hl2, Ho2, Hf2.
    eexists. split; [done|]. cbn.
    rewrite Hl2, Hl1, Ho2, Ho1, Hf2, Hf1. done.
  - cbn [snd] in Hl2, Ho2, Hf2.
    eexists. split; [done|]. cbn.
    rewrite Hl2, Hl1, Ho2, Ho1, Hf2, Hf1. done.
  - eexists. split; [done|]. by cbn.
  - eexists. split; [done|]. by cbn.
Qed.

Lemma getExchangeRates_storage_frame_witness :
  let host := example_host primary_down in
  let s := service_at 5000 {[ "theme" := "dark" ]} in
  let run := getExchangeRates host "USD" false s in
  ∃ r, run.1 = Ok r
       ∧ source r = "api"
       ∧ ∀ key, startsWith key cacheKey = false →
                localStorage run.2 !! key = localStorage s !! key.
Proof.
  destruct (getExchangeRates_storage_frame (example_host primary_down) "USD"
              false (service_at 5000 {[ "theme" := "dark" ]}))
    as (r & Hr & _ & Hframe & _).
  exists r. split; [done|]. split.
  - vm_compute in Hr. injection Hr as <-. reflexivity.
  - apply Hframe. intros op. reflexivity.
Defined.

(** ** Time *)

(** X5: when the time of the last request is not in the future, a
    resolution ends no earlier than it began and at most 67 seconds
    later (one second of rate limiting, six attempts of ten seconds, and
    the four backoff pauses of 1, 1, 2 and 2 seconds); it makes at most
    six network calls; and the time of the last request is still not in
    the future afterwards. The time of an attempt is the time its
    response takes to arrive, cut by the abort timer at ten seconds: the
    body of a response that has arrived is read at once. *)
Theorem getExchangeRates_time_bound env baseCurrency forceRefresh s :
  (lastRequestTime s ≤ clock s)%Z →
  let run := getExchangeRates env baseCurrency forceRefresh s in
  (clock s ≤ clock run.2 ≤ clock s + 67000)%Z
  ∧ (network_calls s ≤ network_calls run.2 ≤ network_calls s + 6)%nat
  ∧ (lastRequestTime run.2 ≤ clock run.2)%Z.
Proof.
  intros Hlast. cbv zeta.
  pose proof (fetchWithRetry_profile env baseCurrency (rate_limited s))
    as [Hcalls Htime].
  cbv zeta in Hcalls, Htime.
  pose proof (fetchWithRetry_frame env baseCurrency 3 (rate_limited s))
    as (_ & _ & Hl2 & _).
  pose proof (rate_limited_frame s) as (_ & _ & Hl1 & _).
  destruct (rate_limited_profile s) as (Hsame & Hlo & Hhi).
  specialize (Hhi Hlast). unfold minRequestInterval in Hhi.
  rewrite Hsame in Hcalls.
  resolution_cases env baseCurrency forceRefresh s.
  - unfold network_calls, trace in *. cbn. lia.
  - cbn [snd] in Hcalls, Htime, Hl2.
    destruct (after_success_frame env baseCurrency (f_rates fetched)
                (clock s) s2) as (Hc & He & _ & Hl & _).
    unfold network_calls, trace in *. cbn [snd]. rewrite Hc, He, Hl. lia.
  - cbn [snd] in Hcalls, Htime, Hl2.
    unfold network_calls, trace in *. cbn. lia.
  - cbn [snd] in Hcalls, Htime, Hl2.
    unfold network_calls, trace in *. cbn. lia.
  - unfold network_calls, trace in *. cbn. lia.
  - unfold network_calls, trace in *. cbn. lia.
Qed.

Lemma getExchangeRates_time_bound_witness :
  let s := service_at 5000 ∅ in
  let run := getExchangeRates (example_host unreachable) "USD" false s in
  (clock s ≤ clock run.2 ≤ clock s + 67000)%Z
  ∧ (network_calls s ≤ network_calls run.2 ≤ network_calls s + 6)%nat
  ∧ (lastRequestTime run.2 ≤ clock run.2)%Z.
Proof.
  apply (getExchangeRates_time_bound (example_host unreachable) "USD" false
           (service_at 5000 ∅)).
  vm_compute. discriminate.
Defined.

(** X6: the time of the last request is written by a network answer
    only: after a resolution with the source "api" it is the time at
    which the resolution ended, and after every other resolution, a
    failed one included, it is what it was. *)
Theorem getExchangeRates_stamps_success_only
    env baseCurrency forceRefresh s :
  let run := getExchangeRates env baseCurrency forceRefresh s in
  ∃ r, run.1 = Ok r
       ∧ lastRequestTime run.2
         = if bool_decide (source r = "api")
           then clock run.2
           else lastRequestTime s.
Proof.
  cbv zeta.
  pose proof (fetchWithRetry_frame env baseCurrency 3 (rate_limited s))
    as (_ & _ & Hl2 & _).
  pose proof (rate_limited_frame s) as (_ & _ & Hl1 & _).
  resolution_cases env baseCurrency forceRefresh s.
  - eexists. split; [done|]. cbn. by decide_tags.
  - destruct (after_success_frame env baseCurrency (f_rates fetched)
                (clock s) s2) as (Hc & _ & _ & Hl & _).
    eexists. split; [done|]. cbn [snd source]. decide_tags. by rewrite Hc, Hl.
  - cbn [snd] in Hl2.
    eexists. split; [done|]. cbn. decide_tags. by rewrite Hl2, Hl1.
  - cbn [snd] in Hl2.
    eexists. split; [done|]. cbn. decide_tags. by rewrite Hl2, Hl1.
  - eexists. split; [done|]. cbn. by decide_tags.
  - eexists. split; [done|]. cbn. by decide_tags.
Qed.

(** ** A network answer is served from the cache afterwards *)

(** What [cacheRates] leaves in a storage that works: both items of the
    entry, unless the host reads the timestamp it has just written as a
    date long past. *)
Lemma cacheRates_stores env baseCurrency table s :
  reliable env →
  Date_parse env (toISOString env (clock s)) = Some (clock s) →
  localStorage s !! shadowKeyOf baseCurrency = None →
  let m := localStorage (cacheRates env baseCurrency table s).2 in
  m !! dataKeyOf baseCurrency = Some (JSON_stringify env table)
  ∧ m !! timestampKeyOf baseCurrency = Some (toISOString env (clock s)).
Proof.
  intros Hrel Hdate Hshadow. cbv zeta.
  rewrite cacheRates_reliable by done. rewrite cleanOldCache_eq by done.
  cbn [snd set_localStorage localStorage clock].
  set (m := <[timestampKeyOf baseCurrency := toISOString env (clock s)]>
              (<[dataKeyOf baseCurrency := JSON_stringify env table]>
                 (localStorage s))).
  assert (m !! timestampKeyOf baseCurrency = Some (toISOString env (clock s)))
    as Hts by apply lookup_insert_eq.
  assert (m !! dataKeyOf baseCurrency = Some (JSON_stringify env table))
    as Hdata.
  { unfold m. rewrite lookup_insert_ne by done. apply lookup_insert_eq. }
  assert (m !! shadowKeyOf baseCurrency = None) as Hshadow'.
  { unfold m. rewrite !lookup_insert_ne; [done| |].
    - intros H; vm_compute in H; discriminate.
    - intros H; vm_compute in H; discriminate. }
  assert (expired env (clock s) m (timestampKeyOf baseCurrency) = false)
    as Hexp.
  { unfold expired. rewrite Hts. cbn [default from_option id]. unfold age_of.
    rewrite Hdate, Z.sub_diag. cbn. by rewrite andb_false_r. }
  destruct (sweep_keeps env (clock s) (map_to_list m).*1 m baseCurrency
              Hshadow' Hexp) as [H1 H2].
  split; [exact (eq_trans H2 Hdata) | exact (eq_trans H1 Hts)].
Qed.

(** X7: after a resolution that answered from the network (source
    "api"), a resolution for the same base currency that is not forced
    and starts less than [cacheDuration] (5 minutes) after the first one
    ended answers with the source "cache", the same table and no
    warning, without a network call or a pause. The storage is assumed
    to work, to hold no foreign item under the key the sweep maps to the
    entry's timestamp key, and the host to read back the table and the
    timestamp it wrote. *)
Theorem getExchangeRates_network_answer_is_cached
    env baseCurrency forceRefresh s later r :
  reliable env →
  localStorage s !! shadowKeyOf baseCurrency = None →
  let first := getExchangeRates env baseCurrency forceRefresh s in
  let ended := clock first.2 in
  first.1 = Ok r →
  source r = "api" →
  JSON_parse env (JSON_stringify env (r_rates r)) = Some (r_rates r) →
  JSON_stringify env (r_rates r) ≠ "" →
  Date_parse env (toISOString env ended) = Some ended →
  toISOString env ended ≠ "" →
  (later - ended < cacheDuration)%Z →
  let second :=
    getExchangeRates env baseCurrency false (set_clock later first.2) in
  ∃ r', second.1 = Ok r'
        ∧ source r' = "cache"
        ∧ r_rates r' = r_rates r
        ∧ warning r' = None
        ∧ events second.2 = events first.2
        ∧ clock second.2 = later.
Proof.
  intros Hrel Hshadow. cbv zeta.
  pose proof (fetchWithRetry_frame env baseCurrency 3 (rate_limited s))
    as (Hl2 & _).
  pose proof (rate_limited_frame s) as (Hl1 & _).
  resolution_cases env baseCurrency forceRefresh s;
    cbn [fst snd]; intros [= <-]; try (intros [=]; fail).
  intros _. cbn [r_rates].
  destruct (after_success_frame env baseCurrency (f_rates fetched)
              (clock s) s2) as (Hc & He & _ & _ & _ & _ & Hl).
  set (s3 := after_success env baseCurrency (f_rates fetched) (clock s) s2)
    in *.
  rewrite Hc. intros Hjson Hj Hdate Hd Hlater.
  cbn [snd] in Hl2.
  destruct (cacheRates_stores env baseCurrency (f_rates fetched)
              (set_lastRequestTime (clock s2) s2) Hrel Hdate) as [Hdata Hts].
  { cbn. by rewrite Hl2, Hl1. }
  cbv zeta in Hdata, Hts. rewrite <- Hl in Hdata, Hts.
  cbn [clock set_lastRequestTime] in Hts.
  rewrite (getExchangeRates_eq env baseCurrency false (set_clock later s3)).
  rewrite (cache_read_entry env Hrel baseCurrency false _
             (JSON_stringify env (f_rates fetched))
             (toISOString env (clock s2)) (f_rates fetched));
    [| done | done | done | done | done].
  cbn [clock set_clock orb]. unfold age_of. rewrite Hdate. cbn [age_lt].
  rewrite (proj2 (Z.ltb_lt _ _) Hlater).
  eexists. split; [done|]. done.
Qed.

Lemma getExchangeRates_network_answer_is_cached_witness :
  let host := example_host primary_down in
  let first := getExchangeRates host "USD" false (service_at 5000 ∅) in
  let second := getExchangeRates host "USD" false (set_clock 100000 first.2) in
  ∃ r', second.1 = Ok r'
        ∧ source r' = "cache"
        ∧ r_rates r' = example_table
        ∧ warning r' = None
        ∧ events second.2 = events first.2
        ∧ clock second.2 = 100000%Z.
Proof.
  apply (getExchangeRates_network_answer_is_cached
           (example_host primary_down) "USD" false (service_at 5000 ∅)
           100000
           {| success := true; r_rates := example_table;
              r_timestamp := "6160"; source := "api"; warning := None |}).
  - intros op. reflexivity.
  - reflexivity.
  - vm_compute. reflexivity.
  - reflexivity.
  - vm_compute. reflexivity.
  - vm_compute. discriminate.
  - vm_compute. reflexivity.
  - vm_compute. discriminate.
  - vm_compute. reflexivity.
Defined.

(** ** Cache statistics *)

Lemma startsWith_timestamp_cache key :
  startsWith key cacheTimestampKey = true → startsWith key cacheKey = true.
Proof.
  intros H. apply prefix_inv in H as [rest ->]. reflexivity.
Qed.

Lemma listed_key_stored (m : gmap string string) key :
  key ∈ (map_to_list m).*1 → is_Some (m !! key).
Proof.
  intros H. apply list_elem_of_fmap in H as [[k v] [-> H]].
  apply elem_of_map_to_list in H. by exists v.
Qed.

Lemma filter_none {A} (P : A -> bool) l :
  (∀ x, x ∈ l → P x = false) → List.filter P l = [].
Proof.
  induction l as [|x l IH]; intros H; [done|]. cbn.
  rewrite (H x) by left. apply IH. intros y Hy. apply H. by right.
Qed.

Lemma elem_of_filter {A} (P : A -> bool) l x :
  x ∈ List.filter P l ↔ P x = true ∧ x ∈ l.
Proof.
  rewrite !list_elem_of_In, filter_In. tauto.
Qed.

Lemma filter_length_Permutation {A} (P : A -> bool) l l' :
  l ≡ₚ l' → length (List.filter P l) = length (List.filter P l').
Proof.
  induction 1 as [|x l l' _ IH|x y l|l l' l'' _ IH1 _ IH2]; cbn.
  - done.
  - destruct (P x); cbn; lia.
  - destruct (P x), (P y); cbn; lia.
  - lia.
Qed.

Section CacheStats.
Variable env : Env.
Hypothesis storage_works : reliable env.

Lemma add_size_eq size key s :
  add_size env size key s
  = (Ok (size + length_or_0 (localStorage s !! key))%nat, s).
Proof.
  unfold add_size.
  erewrite bind_ok by (apply getItem_reliable; exact storage_works).
  done.
Qed.

Lemma reduce_add_size keys size s :
  reduce (add_size env) keys size s
  = (Ok (size_of (localStorage s) keys size), s).
Proof.
  revert size. induction keys as [|key keys IH]; intros size; [done|].
  cbn [reduce size_of foldl].
  erewrite bind_ok by apply add_size_eq. apply IH.
Qed.

Lemma older_eq oldest key s :
  older env oldest key s = (Ok (older_of env (localStorage s) oldest key), s).
Proof.
  unfold older, older_of.
  erewrite bind_ok by (apply getItem_reliable; exact storage_works).
  by destruct (_ && _).
Qed.

Lemma reduce_older keys oldest s :
  reduce (older env) keys oldest s
  = (Ok (foldl (older_of env (localStorage s)) oldest keys), s).
Proof.
  revert oldest. induction keys as [|key keys IH]; intros oldest; [done|].
  cbn [reduce foldl]. erewrite bind_ok by apply older_eq. apply IH.
Qed.

Lemma getCacheStats_reliable s :
  getCacheStats env s
  = (Ok (stats_of env (localStorage s) (map_to_list (localStorage s)).*1), s).
Proof.
  unfold getCacheStats.
  erewrite bind_ok by (apply Object_keys_reliable; exact storage_works).
  erewrite bind_ok by apply reduce_add_size.
  erewrite bind_ok by apply reduce_older.
  done.
Qed.

(** The fold that looks for the oldest timestamp, begun with a dated
    item: it ends with a dated item that is the earliest it has seen. *)
Lemma oldest_fold m keys acc d0 :
  (∀ key, key ∈ keys →
          ∃ value, m !! key = Some value ∧ value ≠ ""
                   ∧ is_Some (Date_parse env value)) →
  acc ≠ "" →
  Date_parse env acc = Some d0 →
  ∃ t d,
    foldl (older_of env m) (Some acc) keys = Some t
    ∧ Date_parse env t = Some d
    ∧ (d ≤ d0)%Z
    ∧ (t = acc ∨ ∃ key, key ∈ keys ∧ m !! key = Some t)
    ∧ ∀ key value d', key ∈ keys → m !! key = Some value →
                      Date_parse env value = Some d' → (d ≤ d')%Z.
Proof.
  revert acc d0. induction keys as [|key keys IH]; intros acc d0 Hkeys Ha Hd.
  { exists acc, d0. cbn. split; [done|]. split; [done|]. split; [lia|].
    split; [by left|]. intros ??? H. by apply elem_of_nil in H. }
  destruct (Hkeys key) as (v & Hv & Hne & [dv Hdv]); [by left|].
  cbn [foldl]. unfold older_of at 2. rewrite Hv.
  rewrite (falsy_item_stored v Hne), (falsy_item_stored acc Ha).
  cbn [negb andb orb default from_option id]. unfold date_lt.
  rewrite Hdv, Hd.
  assert (∀ k, k ∈ keys →
               ∃ value, m !! k = Some value ∧ value ≠ ""
                        ∧ is_Some (Date_parse env value)) as Hrest.
  { intros k Hk. apply Hkeys. by right. }
  destruct (dv <? d0)%Z eqn:Hlt.
  - apply Z.ltb_lt in Hlt.
    destruct (IH v dv Hrest Hne Hdv) as (t & d & Hf & Ht & Hle & Hin & Hmin).
    exists t, d. split; [done|]. split; [done|]. split; [lia|]. split.
    + right. destruct Hin as [->|(k & Hk & Hkt)].
      * exists key. split; [by left|done].
      * exists k. split; [by right|done].
    + intros k value d' Hk Hkv Hd'.
      apply elem_of_cons in Hk as [->|Hk]; [|by eapply Hmin].
      rewrite Hv in Hkv. injection Hkv as <-. rewrite Hdv in Hd'.
      injection Hd' as <-. done.
  - apply Z.ltb_ge in Hlt.
    destruct (IH acc d0 Hrest Ha Hd) as (t & d & Hf & Ht & Hle & Hin & Hmin).
    exists t, d. split; [done|]. split; [done|]. split; [lia|]. split.
    + destruct Hin as [->|(k & Hk & Hkt)]; [by left|].
      right. exists k. split; [by right|done].
    + intros k value d' Hk Hkv Hd'.
      apply elem_of_cons in Hk as [->|Hk]; [|by eapply Hmin].
      rewrite Hv in Hkv. injection Hkv as <-. rewrite Hdv in Hd'.
      injection Hd' as <-. lia.
Qed.
End CacheStats.

Lemma timestamps_are_dates_spec env (m : gmap string string) key value :
  timestamps_are_dates env m = true →
  startsWith key cacheTimestampKey = true →
  m !! key = Some value →
  value ≠ "" ∧ is_Some (Date_parse env value).
Proof.
  unfold timestamps_are_dates. rewrite forallb_forall. intros H Hp Hl.
  assert (In (key, value) (map_to_list m)) as Hin.
  { apply list_elem_of_In. by apply elem_of_map_to_list. }
  apply H in Hin. cbn [fst snd] in Hin. rewrite Hp in Hin.
  cbn [implb] in Hin. apply andb_true_iff in Hin as [H1 H2].
  apply bool_decide_eq_true in H2. split; [|done].
  intros ->. done.
Qed.

Lemma no_cache_items_spec (m : gmap string string) key :
  no_cache_items m = true →
  startsWith key cacheKey = true →
  m !! key = None.
Proof.
  unfold no_cache_items. rewrite forallb_forall. intros H Hp.
  destruct (m !! key) as [value|] eqn:Hl; [|done].
  assert (In (key, value) (map_to_list m)) as Hin.
  { apply list_elem_of_In. by apply elem_of_map_to_list. }
  apply H in Hin. cbn [fst snd] in Hin. by rewrite Hp in Hin.
Qed.

(** X8: on a storage that works, the statistics read right after
    [clearCache] are empty: no entry, no size, no oldest timestamp.
    Reading them changes nothing. *)
Theorem getCacheStats_after_clearCache env s :
  reliable env →
  let cleared := (clearCache env s).2 in
  getCacheStats env cleared
  = (Ok {| totalEntries := 0; totalSize := 0; oldestEntry := None |},
     cleared).
Proof.
  intros Hrel. cbv zeta.
  rewrite getCacheStats_reliable by done. f_equal. f_equal.
  rewrite clearCache_eq by done. cbn [snd set_localStorage localStorage].
  set (m := localStorage s).
  set (m' := foldl clear_step m (map_to_list m).*1).
  assert (∀ key, key ∈ (map_to_list m').*1 →
                 startsWith key cacheKey = false
                 ∧ startsWith key cacheTimestampKey = false) as Hnone.
  { intros key Hkey. apply listed_key_stored in Hkey as [value Hvalue].
    unfold m' in Hvalue. rewrite clear_lookup in Hvalue.
    destruct (startsWith key cacheKey || startsWith key cacheTimestampKey)
      eqn:Hp.
    - cbn [andb] in Hvalue. destruct (bool_decide _) eqn:Hin; [done|].
      apply bool_decide_eq_false in Hin. destruct Hin.
      by eapply stored_key_listed.
    - by apply orb_false_iff in Hp. }
  unfold stats_of.
  rewrite (filter_none (fun key => startsWith key cacheKey))
    by (intros; by apply Hnone).
  rewrite (filter_none (fun key => startsWith key cacheTimestampKey))
    by (intros; by apply Hnone).
  done.
Qed.

Lemma getCacheStats_after_clearCache_witness :
  let cleared :=
    (clearCache (example_host unreachable)
       (service_at 5000 two_entries)).2 in
  getCacheStats (example_host unreachable) cleared
  = (Ok {| totalEntries := 0; totalSize := 0; oldestEntry := None |},
     cleared).
Proof.
  apply (getCacheStats_after_clearCache (example_host unreachable)
           (service_at 5000 two_entries)).
  intros op. reflexivity.
Defined.

(** X9: on a storage that works and whose timestamp items hold dates,
    [getCacheStats] changes nothing, and its [oldestEntry] is [null]
    iff no timestamp item is stored; otherwise it is the value of a
    stored timestamp item, and no stored timestamp item holds an earlier
    date. *)
Theorem getCacheStats_oldestEntry env s :
  reliable env →
  timestamps_are_dates env (localStorage s) = true →
  ∃ stats,
    getCacheStats env s = (Ok stats, s)
    ∧ match oldestEntry stats with
      | None =>
          ∀ key, startsWith key cacheTimestampKey = true →
                 localStorage s !! key = None
      | Some t =>
          ∃ key d,
            startsWith key cacheTimestampKey = true
            ∧ localStorage s !! key = Some t
            ∧ Date_parse env t = Some d
            ∧ ∀ key' value' d',
                startsWith key' cacheTimestampKey = true →
                localStorage s !! key' = Some value' →
                Date_parse env value' = Some d' →
                (d ≤ d')%Z
      end.
Proof.
  intros Hrel Hdates. eexists. split; [by apply getCacheStats_reliable|].
  cbn [oldestEntry stats_of].
  set (m := localStorage s) in *.
  set (keys := List.filter (fun key => startsWith key cacheTimestampKey)
                 (map_to_list m).*1).
  assert (∀ key, key ∈ keys ↔
                 startsWith key cacheTimestampKey = true ∧ is_Some (m !! key))
    as Hkeys.
  { intros key. unfold keys. rewrite elem_of_filter. split.
    - intros [Hp Hin]. split; [done|]. by apply listed_key_stored.
    - intros [Hp [value Hvalue]]. split; [done|].
      by eapply stored_key_listed. }
  assert (∀ key, key ∈ keys →
                 ∃ value, m !! key = Some value ∧ value ≠ ""
                          ∧ is_Some (Date_parse env value)) as Hdated.
  { intros key Hkey. apply Hkeys in Hkey as [Hp [value Hvalue]].
    exists value. split; [done|].
    by eapply timestamps_are_dates_spec. }
  destruct keys as [|key keys'] eqn:Hlist.
  { cbn. intros key Hp. destruct (m !! key) as [value|] eqn:Hvalue; [|done].
    assert (key ∈ @nil string) as Hin by (apply Hkeys; eauto).
    by apply elem_of_nil in Hin. }
  destruct (Hdated key) as (v & Hv & Hne & [dv Hdv]); [by left|].
  cbn [foldl]. unfold older_of at 2. rewrite Hv.
  rewrite (falsy_item_stored v Hne). cbn [negb andb orb falsy_item].
  destruct (oldest_fold env m keys' v dv) as (t & d & Hf & Ht & Hle & Hin & Hmin);
    [intros k Hk; apply Hdated; by right | done | done |].
  rewrite Hf.
  assert (∃ k, k ∈ key :: keys' ∧ m !! k = Some t) as (k & Hk & Hkt).
  { destruct Hin as [->|(k & Hk & Hkt)].
    - exists key. split; [by left|done].
    - exists k. split; [by right|done]. }
  exists k, d. apply Hkeys in Hk as [Hp _].
  split; [done|]. split; [done|]. split; [done|].
  intros key' value' d' Hp' Hvalue' Hd'.
  assert (key' ∈ key :: keys') as Hin' by (apply Hkeys; eauto).
  apply elem_of_cons in Hin' as [->|Hin']; [|by eapply Hmin].
  rewrite Hv in Hvalue'. injection Hvalue' as <-.
  rewrite Hdv in Hd'. injection Hd' as <-. done.
Qed.

Lemma getCacheStats_oldestEntry_witness :
  let s := service_at 9000 two_entries in
  let host := example_host unreachable in
  ∃ stats,
    getCacheStats host s = (Ok stats, s)
    ∧ match oldestEntry stats with
      | None =>
          ∀ key, startsWith key cacheTimestampKey = true →
                 localStorage s !! key = None
      | Some t =>
          ∃ key d,
            startsWith key cacheTimestampKey = true
            ∧ localStorage s !! key = Some t
            ∧ Date_parse host t = Some d
            ∧ ∀ key' value' d',
                startsWith key' cacheTimestampKey = true →
                localStorage s !! key' = Some value' →
                Date_parse host value' = Some d' →
                (d ≤ d')%Z
      end.
Proof.
  apply (getCacheStats_oldestEntry (example_host unreachable)
           (service_at 9000 two_entries)).
  - intros op. reflexivity.
  - vm_compute. reflexivity.
Defined.

Lemma filter_Permutation {A} (P : A -> bool) l l' :
  l ≡ₚ l' → List.filter P l ≡ₚ List.filter P l'.
Proof.
  induction 1 as [|x l l' _ IH|x y l|l l' l'' _ IH1 _ IH2]; cbn.
  - done.
  - destruct (P x); by rewrite IH.
  - destruct (P x), (P y); try done. apply perm_swap.
  - by etrans.
Qed.

Lemma size_of_Permutation m l l' size :
  l ≡ₚ l' → size_of m l size = size_of m l' size.
Proof.
  intros H. revert size.
  induction H as [|x l l' _ IH|x y l|l l' l'' _ IH1 _ IH2]; intros size;
    cbn.
  - done.
  - apply IH.
  - f_equal. lia.
  - by rewrite IH1.
Qed.

Lemma sweep_nothing env now m keys :
  (∀ key, key ∈ keys → expired env now m key = false) →
  foldl (sweep_step env now) m keys = m.
Proof.
  induction keys as [|key keys IH]; intros H; [done|].
  cbn [foldl]. unfold sweep_step at 2. rewrite (H key) by left.
  apply IH. intros k Hk. apply H. by right.
Qed.

(** X10: [getCacheStats] counts the timestamp item of an entry as an
    entry of its own. After [cacheRates] has written one entry into a
    storage that works and held no cache item, [totalEntries] is 2,
    [totalSize] is the length of the data item plus the length of the
    timestamp item, and [oldestEntry] is the timestamp just written (the
    host is assumed to read it back as the date it stands for). *)
Theorem getCacheStats_after_first_write env baseCurrency table s :
  reliable env →
  no_cache_items (localStorage s) = true →
  Date_parse env (toISOString env (clock s)) = Some (clock s) →
  toISOString env (clock s) ≠ "" →
  let written := (cacheRates env baseCurrency table s).2 in
  ∃ stats,
    getCacheStats env written = (Ok stats, written)
    ∧ totalEntries stats = 2%nat
    ∧ totalSize stats
      = (String.length (JSON_stringify env table)
         + String.length (toISOString env (clock s)))%nat
    ∧ oldestEntry stats = Some (toISOString env (clock s)).
Proof.
  intros Hrel Hnone Hdate Hd. cbv zeta.
  eexists. split; [by apply getCacheStats_reliable|].
  rewrite cacheRates_reliable by done. rewrite cleanOldCache_eq by done.
  cbn [snd set_localStorage localStorage clock].
  set (data := JSON_stringify env table).
  set (timestamp := toISOString env (clock s)) in *.
  set (m := localStorage s) in *.
  set (m1 := <[timestampKeyOf baseCurrency := timestamp]>
               (<[dataKeyOf baseCurrency := data]> m)).
  assert (m !! dataKeyOf baseCurrency = None) as Hnd
    by (by apply no_cache_items_spec).
  assert (m !! timestampKeyOf baseCurrency = None) as Hnt
    by (by apply no_cache_items_spec).
  assert (∀ key, expired env (clock s) m1 key = false) as Hexp.
  { intros key. unfold expired.
    destruct (startsWith key cacheTimestampKey) eqn:Hp; [|done].
    cbn [andb].
    destruct (decide (key = timestampKeyOf baseCurrency)) as [->|Hne].
    - unfold m1. rewrite lookup_insert_eq.
      cbn [default from_option id]. unfold age_of.
      rewrite Hdate, Z.sub_diag. cbn. by rewrite andb_false_r.
    - unfold m1. rewrite !lookup_insert_ne.
      + rewrite (no_cache_items_spec m key) by
          (done || by apply startsWith_timestamp_cache).
        done.
      + intros <-. by rewrite dataKeyOf_not_timestamp in Hp.
      + done. }
  rewrite sweep_nothing by (intros; apply Hexp).
  assert ((map_to_list m1).*1
          ≡ₚ timestampKeyOf baseCurrency :: dataKeyOf baseCurrency
               :: (map_to_list m).*1) as Hperm.
  { unfold m1. rewrite map_to_list_insert.
    - rewrite map_to_list_insert by done. done.
    - by rewrite lookup_insert_ne. }
  assert (∀ P : string -> bool,
            (∀ key, P key = true → startsWith key cacheKey = true) →
            List.filter P (map_to_list m).*1 = []) as Hrest.
  { intros P HP. apply filter_none. intros key Hkey.
    destruct (P key) eqn:HPk; [|done].
    apply listed_key_stored in Hkey as [value Hvalue].
    rewrite (no_cache_items_spec m key) in Hvalue by (done || by apply HP).
    done. }
  pose proof (filter_Permutation (fun key => startsWith key cacheKey)
                _ _ Hperm) as Hall.
  pose proof (filter_Permutation (fun key => startsWith key cacheTimestampKey)
                _ _ Hperm) as Hts.
  cbn [List.filter] in Hall, Hts.
  rewrite timestampKeyOf_cache, dataKeyOf_cache, Hrest in Hall by done.
  rewrite timestampKeyOf_timestamp, dataKeyOf_not_timestamp, Hrest in Hts
    by apply startsWith_timestamp_cache.
  apply Permutation_singleton_r in Hts.
  unfold stats_of. cbn [totalEntries totalSize oldestEntry].
  rewrite Hts, (Permutation_length Hall), (size_of_Permutation _ _ _ _ Hall).
  split; [done|]. split.
  - cbn. unfold m1. rewrite lookup_insert_eq.
    rewrite lookup_insert_ne by done. rewrite lookup_insert_eq. cbn. lia.
  - cbn. unfold older_of, m1. rewrite lookup_insert_eq.
    by rewrite (falsy_item_stored _ Hd).
Qed.

Lemma getCacheStats_after_first_write_witness :
  let host := example_host unreachable in
  let s := service_at 5000 {[ "theme" := "dark" ]} in
  let written := (cacheRates host "USD" example_table s).2 in
  ∃ stats,
    getCacheStats host written = (Ok stats, written)
    ∧ totalEntries stats = 2%nat
    ∧ totalSize stats
      = (String.length (JSON_stringify host example_table)
         + String.length (toISOString host (clock s)))%nat
    ∧ oldestEntry stats = Some (toISOString host (clock s)).
Proof.
  apply (getCacheStats_after_first_write (example_host unreachable) "USD"
           example_table (service_at 5000 {[ "theme" := "dark" ]})).
  - intros op. reflexivity.
  - vm_compute. reflexivity.
  - vm_compute. reflexivity.
  - vm_compute. discriminate.
Defined.

(** ** The request queue and the connectivity listeners *)

Lemma getExchangeRates_forced_online env baseCurrency s :
  isOnline s = true →
  ∃ r s',
    getExchangeRates env baseCurrency true s = (Ok r, s')
    ∧ source r ≠ "cache"
    ∧ isOnline s' = true
    ∧ (network_calls s + 1 ≤ network_calls s')%nat.
Proof.
  intros Hon.
  pose proof (fetchWithRetry_profile env baseCurrency (rate_limited s))
    as [Hcalls _].
  cbv zeta in Hcalls.
  destruct (rate_limited_profile s) as [Hsame _]. rewrite Hsame in Hcalls.
  pose proof (fetchWithRetry_frame env baseCurrency 3 (rate_limited s))
    as (_ & Ho2 & _).
  pose proof (rate_limited_frame s) as (_ & Ho1 & _).
  resolution_cases env baseCurrency true s; try congruence;
    cbn [snd] in Hcalls, Ho2.
  - destruct (after_success_frame env baseCurrency (f_rates fetched)
                (clock s) s2) as (_ & He & Ho & _).
    eexists _, _. split; [done|]. cbn [source]. split; [done|].
    split; [congruence|].
    unfold network_calls, trace in *. rewrite He. lia.
  - eexists _, _. split; [done|]. cbn. split; [done|].
    split; [congruence|]. unfold network_calls, trace in *. cbn. lia.
  - eexists _, _. split; [done|]. cbn. split; [done|].
    split; [congruence|]. unfold network_calls, trace in *. cbn. lia.
Qed.

Lemma getExchangeRates_offline_quiet env baseCurrency forceRefresh s :
  isOnline s = false →
  events (getExchangeRates env baseCurrency forceRefresh s).2 = events s.
Proof.
  intros Hoff. resolution_cases env baseCurrency forceRefresh s;
    try congruence; done.
Qed.

Lemma processRequestQueue_online env requestQueue s :
  isOnline s = true →
  ∃ results s',
    processRequestQueue env requestQueue s
    = (Ok ([], zip_with Resolve (map q_id requestQueue) results), s')
    ∧ length results = length requestQueue
    ∧ Forall (fun r => source r ≠ "cache") results
    ∧ isOnline s' = true
    ∧ (network_calls s + length requestQueue ≤ network_calls s')%nat.
Proof.
  revert s. induction requestQueue as [|request rest IH]; intros s Hon.
  { exists [], s. cbn. split; [done|]. split; [done|]. split; [done|].
    split; [done|]. lia. }
  destruct (getExchangeRates_forced_online env (q_baseCurrency request) s Hon)
    as (r & s1 & Hrun & Hsrc & Hon1 & Hcalls).
  destruct (IH s1 Hon1) as (results & s' & Hrest & Hlen & Hall & Hon' & Hn).
  exists (r :: results), s'.
  cbn [processRequestQueue]. unfold mbind at 1, M_bind at 1, gets at 1.
  cbv beta iota. rewrite Hon.
  unfold mbind at 1, M_bind at 1, try_catch at 1.
  unfold mbind at 1, M_bind at 1. rewrite Hrun.
  unfold mret at 1, M_ret at 1. cbv beta iota.
  unfold mbind at 1, M_bind at 1. rewrite Hrest. cbn.
  split; [done|]. split; [by rewrite Hlen|].
  split; [by constructor|]. split; [done|]. lia.
Qed.

(** X11: [processRequestQueue] leaves the queue and the service as they
    are while the service is offline. While it is online it empties the
    queue: every request is resolved, none is rejected, in the order of
    the queue; each one is answered by a forced refresh, so never with
    the source "cache" and at the price of at least one network call. *)
Theorem processRequestQueue_settles_all env requestQueue s :
  let run := processRequestQueue env requestQueue s in
  if isOnline s
  then
    ∃ results,
      run.1 = Ok ([], zip_with Resolve (map q_id requestQueue) results)
      ∧ length results = length requestQueue
      ∧ Forall (fun r => source r ≠ "cache") results
      ∧ isOnline run.2 = true
      ∧ (network_calls s + length requestQueue ≤ network_calls run.2)%nat
  else run = (Ok (requestQueue, []), s).
Proof.
  cbv zeta. destruct (isOnline s) eqn:Hon.
  - destruct (processRequestQueue_online env requestQueue s Hon)
      as (results & s' & -> & H).
    by exists results.
  - destruct requestQueue as [|request rest]; [done|].
    cbn [processRequestQueue]. unfold mbind, M_bind, gets.
    by rewrite Hon.
Qed.

(** X12: the listeners of the service. After the "online" listener the
    service is online and the queue it was given is empty, every request
    of it resolved. After the "offline" listener the service is offline,
    and a resolution made then makes no network call and waits for
    nothing. *)
Theorem service_listeners env requestQueue baseCurrency forceRefresh s :
  (∃ results s',
     service_online env requestQueue s
     = (Ok ([], zip_with Resolve (map q_id requestQueue) results), s')
     ∧ length results = length requestQueue
     ∧ isOnline s' = true)
  ∧ (let s' := (service_offline s).2 in
     isOnline s' = false
     ∧ events (getExchangeRates env baseCurrency forceRefresh s').2
       = events s).
Proof.
  split.
  - destruct (processRequestQueue_online env requestQueue
                (set_isOnline true s)) as (results & s' & Hrun & Hlen & _ & Hon & _);
      [done|].
    exists results, s'. unfold service_online, mbind, M_bind, modify.
    by rewrite Hrun.
  - cbv zeta. split; [done|].
    by rewrite getExchangeRates_offline_quiet.
Qed.

(** ** Histories of the metrics *)

Lemma history_invariant history m :
  averageResponseTime m = average_of m →
  let m' := foldl record m history in
  apiCalls m' = (apiCalls m + length (success_times history))%nat
  ∧ cacheHits m'
    = (cacheHits m + length (List.filter is_CacheHit history))%nat
  ∧ errors m'
    = (errors m + length (List.filter is_ApiError history))%nat
  ∧ totalResponseTime m'
    = foldl js_add (totalResponseTime m) (success_times history)
  ∧ averageResponseTime m' = average_of m'.
Proof.
  cbv zeta. revert m.
  induction history as [|call history IH]; intros m Havg.
  { cbn. split; [lia|]. split; [lia|]. split; [lia|]. done. }
  assert (averageResponseTime (record m call) = average_of (record m call))
    as Havg1.
  { destruct call as [t| |]; [reflexivity|exact Havg|exact Havg]. }
  destruct (IH (record m call) Havg1) as (H1 & H2 & H3 & H4 & H5).
  cbn [foldl]. rewrite H1, H2, H3, H4. unfold success_times.
  split; [destruct call; cbn; lia|].
  split; [destruct call; cbn; lia|].
  split; [destruct call; cbn; lia|].
  split; [by destruct call|done].
Qed.

(** X13: after any sequence of calls of the three recording methods on
    fresh metrics, [apiCalls] is the number of recorded successes,
    [cacheHits] the number of hits and [errors] the number of errors;
    [totalResponseTime] is the sum, in the order of the calls, of the
    response times of the successes only (the times passed to
    [recordCacheHit] and [recordApiError] are not counted); and
    [averageResponseTime] is 0 before the first success and
    [totalResponseTime / apiCalls] after it. *)
Theorem metrics_history history :
  let m := foldl record initial_metrics history in
  apiCalls m = length (success_times history)
  ∧ cacheHits m = length (List.filter is_CacheHit history)
  ∧ errors m = length (List.filter is_ApiError history)
  ∧ totalResponseTime m = foldl js_add (js_of_Z 0) (success_times history)
  ∧ averageResponseTime m = average_of m.
Proof.
  cbv zeta.
  destruct (history_invariant history initial_metrics) as (H1 & H2 & H3 & H4 & H5);
    [done|].
  done.
Qed.

(** X14: the hit rate of [getMetrics] is never infinite: it is NaN
    exactly when neither a network call nor a cache hit has been
    counted, and a number between 0 and 100 otherwise. *)
Theorem getMetrics_hit_rate_bounds m :
  match cacheHitRate (getMetrics m) with
  | JNaN => apiCalls m = 0%nat ∧ cacheHits m = 0%nat
  | JInf _ => False
  | JFin q => (0 <= q)%Q ∧ (q <= 100)%Q
                ∧ (0 < apiCalls m + cacheHits m)%nat
  end.
Proof.
  unfold getMetrics, cacheHitRate, js_of_nat, js_of_Z.
  cbn [js_add js_div]. rewrite Qis_zero_counters.
  destruct (bool_decide _) eqn:Hz.
  - apply bool_decide_eq_true in Hz as [-> ->]. by cbn.
  - apply bool_decide_eq_false in Hz. cbn [js_mul].
    set (a := Z.of_nat (apiCalls m)). set (h := Z.of_nat (cacheHits m)).
    assert (0 ≤ a)%Z by lia. assert (0 ≤ h)%Z by lia.
    assert (0 < a + h)%Z by lia.
    split; [|split; [|lia]].
    + apply Qmult_le_0_compat; [|done].
      apply Qle_shift_div_l; [unfold Qlt; cbn; lia|].
      unfold Qle. cbn. lia.
    + apply Qle_trans with (1 * inject_Z 100)%Q; [|done].
      apply Qmult_le_compat_r; [|done].
      apply Qle_shift_div_r; [unfold Qlt; cbn; lia|].
      unfold Qle. cbn. lia.
Qed.

(** * Further properties of the converter *)

(** ** What a notification round leaves alone *)

Section ConverterFrames.
Variable env : Env.
Variable behaviour : nat -> EngineState -> list Action.

Lemma run_actions_frame acts c :
  let c' := fold_left run_action acts c in
  apiService c' = apiService c ∧ state c' = state c
  ∧ debounceTimer c' = debounceTimer c.
Proof.
  cbv zeta. revert c. induction acts as [|act acts IH]; intros c; [done|].
  cbn [fold_left]. destruct (IH (run_action c act)) as (-> & -> & ->).
  by destruct act.
Qed.

Lemma invoke_frame callback c :
  let c' := invoke behaviour callback c in
  apiService c' = apiService c ∧ state c' = state c
  ∧ debounceTimer c' = debounceTimer c.
Proof.
  cbv zeta. unfold invoke.
  by destruct (run_actions_frame (behaviour callback (state c))
                 (log_call callback (state c) c)) as (-> & -> & ->).
Qed.

Lemma forEach_array_frame a remaining k c :
  let c' := forEach_array behaviour a remaining k c in
  apiService c' = apiService c ∧ state c' = state c
  ∧ debounceTimer c' = debounceTimer c.
Proof.
  cbv zeta. revert k c.
  induction remaining as [|remaining IH]; intros k c; [done|].
  cbn [forEach_array]. destruct (array_at c a !! k) as [callback|].
  - destruct (IH (S k) (invoke behaviour callback c)) as (-> & -> & ->).
    apply invoke_frame.
  - apply IH.
Qed.

(** [setState]: the merged state, a round over the subscribers of the
    moment, and nothing else. *)
Lemma setState_spec newState c :
  let c' := setState behaviour newState c in
  state c' = merge (state c) newState
  ∧ apiService c' = apiService c
  ∧ debounceTimer c' = debounceTimer c
  ∧ call_log c'
    = (call_log c
       ++ round (array_at c (subscribers c)) (merge (state c) newState))%list.
Proof.
  cbv zeta. unfold setState. cbn [subscribers set_state].
  change (array_at (set_state (merge (state c) newState) c) (subscribers c))
    with (array_at c (subscribers c)).
  destruct (forEach_array_frame (subscribers c)
              (length (array_at c (subscribers c))) 0
              (set_state (merge (state c) newState) c)) as (-> & -> & ->).
  split; [done|]. split; [done|]. split; [done|].
  destruct (arrays c !! subscribers c) as [subs|] eqn:Harr.
  - assert (array_at c (subscribers c) = subs) as ->.
    { unfold array_at. by rewrite Harr. }
    destruct (forEach_array_steady behaviour (subscribers c) subs
                (merge (state c) newState) (length subs) 0
                (set_state (merge (state c) newState) c))
      as [_ Hlog]; [|done|done].
    split; [|done]. exists []. by rewrite app_nil_r.
  - assert (array_at c (subscribers c) = []) as ->.
    { unfold array_at. by rewrite Harr. }
    cbn. by rewrite app_nil_r.
Qed.

(** [fetchRates] in one equation: the pause of the debounce timer, the
    round that announces the loading, the resolution, and the round that
    publishes its result. The [catch] block is never entered. *)
Lemma fetchRates_eq baseCurrency forceRefresh c :
  ∃ result c1 c',
    fetchRates env behaviour baseCurrency forceRefresh c
    = (Resolved (Some result), c')
    ∧ c1 = setState behaviour loading_patch
             (set_apiService (sleep 300 (apiService c)).2
                (set_debounceTimer (Some (clock (apiService c) + 300)%Z) c))
    ∧ getExchangeRates env baseCurrency forceRefresh
        (sleep 300 (apiService c)).2
      = (Ok result, apiService c')
    ∧ c' = setState behaviour (loaded_patch result)
             (set_apiService (apiService c') c1).
Proof.
  unfold fetchRates. cbv zeta.
  change (apiService (set_debounceTimer (Some (clock (apiService c) + 300)%Z) c))
    with (apiService c).
  set (c0 := set_apiService (sleep 300 (apiService c)).2
               (set_debounceTimer (Some (clock (apiService c) + 300)%Z) c)).
  fold loading_patch.
  destruct (setState_spec loading_patch c0) as (_ & Hsvc & _).
  rewrite Hsvc. cbn [apiService c0 set_apiService].
  destruct (getExchangeRates_total env baseCurrency forceRefresh
              (sleep 300 (apiService c)).2) as (result & s' & Hrun).
  rewrite Hrun. fold (loaded_patch result).
  eexists result, _, _. split; [done|]. split; [done|].
  destruct (setState_spec (loaded_patch result)
              (set_apiService s' (setState behaviour loading_patch c0)))
    as (_ & Hsvc' & _).
  rewrite Hsvc'. cbn [apiService set_apiService]. done.
Qed.
End ConverterFrames.

(** ** Amounts and rates *)

Lemma amount_guard amount :
  negb (js_truthy amount) || js_le0 amount = negb (js_gt0 amount).
Proof.
  destruct amount as [|[]|q]; try done.
  cbn. unfold Qis_zero, Qnegative.
  destruct (Z.eqb_spec (Qnum q) 0), (Z.ltb_spec (Qnum q) 0),
    (Z.ltb_spec 0 (Qnum q)); cbn; try done; lia.
Qed.

Lemma convertCurrency_holding env behaviour amount fromCurrency toCurrency c :
  js_gt0 amount = true →
  rates (state c) ≠ ∅ →
  convertCurrency env behaviour amount fromCurrency toCurrency c
  = (Resolved
       {| convertedAmount :=
            js_mul amount
              (exchange_rate (rates (state c)) fromCurrency toCurrency);
          exchangeRate :=
            exchange_rate (rates (state c)) fromCurrency toCurrency;
          conv_error := None;
          conv_source := state_source (state c);
          conv_lastUpdate := lastUpdate (state c) |}, c).
Proof.
  intros Hamount Htable. unfold convertCurrency.
  rewrite amount_guard, Hamount. cbn [negb].
  rewrite no_keys_empty, bool_decide_eq_false_2 by done.
  done.
Qed.

(** X15: [convertCurrency] converts the amounts that are greater than 0
    and no others. For NaN, 0, a negative number or -Infinity it
    resolves at once to the amount 0 at the rate 0, without an error,
    and touches nothing, also when the table is empty: no fetch is
    started, nobody is notified. For an amount greater than 0, when the
    table it holds is not empty and the two codes are not names that
    objects inherit, it resolves at once and without an error, touching
    nothing, to the amount times the rate it reads off that table:
    [rates[to] || 1] from USD, [1 / (rates[from] || 1)] to USD, and
    [(rates[to] || 1) / (rates[from] || 1)] otherwise. *)
Theorem convertCurrency_amount_guard
    env behaviour amount fromCurrency toCurrency c :
  let run := convertCurrency env behaviour amount fromCurrency toCurrency c in
  if js_gt0 amount
  then
    rates (state c) ≠ ∅ →
    inherited fromCurrency = false →
    inherited toCurrency = false →
    ∃ r,
      run = (Resolved r, c)
      ∧ exchangeRate r
        = exchange_rate (rates (state c)) fromCurrency toCurrency
      ∧ convertedAmount r = js_mul amount (exchangeRate r)
      ∧ conv_error r = None
  else run = (Resolved nothing_converted, c).
Proof.
  cbv zeta. destruct (js_gt0 amount) eqn:Hamount.
  2:{ unfold convertCurrency. by rewrite amount_guard, Hamount. }
  intros Htable _ _. rewrite convertCurrency_holding by done.
  eexists. split; [done|]. done.
Qed.

Lemma convertCurrency_amount_guard_witness :
  let c := converter_with example_table [] in
  ∃ r,
    convertCurrency (example_host unreachable) observers (JFin 100)
      "EUR" "GBP" c
    = (Resolved r, c)
    ∧ exchangeRate r = exchange_rate example_table "EUR" "GBP"
    ∧ convertedAmount r = js_mul (JFin 100) (exchangeRate r)
    ∧ conv_error r = None.
Proof.
  pose proof (convertCurrency_amount_guard (example_host unreachable)
                observers (JFin 100) "EUR" "GBP"
                (converter_with example_table [])) as H.
  cbv zeta in H. change (js_gt0 (JFin 100)) with true in H. cbv iota in H.
  apply H.
  - intros Hempty. apply (f_equal (fun m => m !! "EUR")) in Hempty.
    vm_compute in Hempty. discriminate Hempty.
  - vm_compute. reflexivity.
  - vm_compute. reflexivity.
Defined.

(** ** The popular pairs *)

Lemma rate_or_0_truthy table code v :
  table !! code = Some v → js_truthy v = true →
  rate_or_0 table code = rate_or_1 table code.
Proof. unfold rate_or_0, rate_or_1, js_or. by intros -> ->. Qed.

(** X16: when the table holds a rate other than 0 and NaN for EUR, for
    GBP and for JPY, [getPopularRates] returns the five pairs in the
    order usdeur, usdgbp, usdjpy, eurgbp, gbpusd, and the rate shown for
    each is the formatted [exchangeRate] that [convertCurrency] reports
    for that pair, whatever the amount converted. *)
Theorem getPopularRates_agrees_with_convertCurrency
    env behaviour NumberFormat_format amount c :
  js_gt0 amount = true →
  (∀ code, code ∈ ["EUR"; "GBP"; "JPY"] →
           ∃ v, rates (state c) !! code = Some v ∧ js_truthy v = true) →
  Forall2
    (fun (pair : string * string * string) shown =>
       pair_from shown = pair.1.1
       ∧ pair_to shown = pair.1.2
       ∧ pair_id shown = pair.2
       ∧ ∃ r,
           convertCurrency env behaviour amount pair.1.1 pair.1.2 c
           = (Resolved r, c)
           ∧ pair_rate shown
             = formatCurrency NumberFormat_format (exchangeRate r))
    popularPairs (getPopularRates NumberFormat_format c).
Proof.
  intros Hamount Hcodes.
  destruct (Hcodes "EUR") as (eur & Heur & Heur'); [set_solver|].
  destruct (Hcodes "GBP") as (gbp & Hgbp & Hgbp'); [set_solver|].
  destruct (Hcodes "JPY") as (jpy & Hjpy & Hjpy'); [set_solver|].
  assert (rates (state c) ≠ ∅) as Htable.
  { intros Hempty. by rewrite Hempty in Heur. }
  unfold getPopularRates, popularPairs. cbn [map].
  repeat apply List.Forall2_cons; try apply List.Forall2_nil.
  all: cbn [fst snd pair_from pair_to pair_id].
  all: split; [done|]; split; [done|]; split; [done|].
  all: rewrite convertCurrency_holding by done.
  all: eexists; (split; [done|]); cbn [pair_rate exchangeRate]; f_equal.
  - by eapply rate_or_0_truthy.
  - by eapply rate_or_0_truthy.
  - by eapply rate_or_0_truthy.
Qed.

Lemma getPopularRates_agrees_with_convertCurrency_witness :
  let c := converter_with hardcoded_fallbackRates [] in
  Forall2
    (fun (pair : string * string * string) shown =>
       pair_from shown = pair.1.1
       ∧ pair_to shown = pair.1.2
       ∧ pair_id shown = pair.2
       ∧ ∃ r,
           convertCurrency (example_host unreachable) observers (JFin 100)
             pair.1.1 pair.1.2 c
           = (Resolved r, c)
           ∧ pair_rate shown = formatCurrency plain_format (exchangeRate r))
    popularPairs (getPopularRates plain_format c).
Proof.
  apply (getPopularRates_agrees_with_convertCurrency
           (example_host unreachable) observers plain_format (JFin 100)
           (converter_with hardcoded_fallbackRates [])).
  - reflexivity.
  - intros code Hcode.
    apply elem_of_cons in Hcode as [->|Hcode];
      [eexists; split; vm_compute; reflexivity|].
    apply elem_of_cons in Hcode as [->|Hcode];
      [eexists; split; vm_compute; reflexivity|].
    apply elem_of_cons in Hcode as [->|Hcode];
      [eexists; split; vm_compute; reflexivity|].
    by apply elem_of_nil in Hcode.
Defined.

(** X17: for a currency the table has no rate for, the two functions
    disagree: [getPopularRates] shows the pair from USD to it at the
    rate 0, and [convertCurrency] converts from USD to it at the
    rate 1. *)
Theorem getPopularRates_missing_rate
    env behaviour NumberFormat_format amount c toCurrency id :
  ("USD", toCurrency, id) ∈ popularPairs →
  js_gt0 amount = true →
  rates (state c) ≠ ∅ →
  rates (state c) !! toCurrency = None →
  {| pair_from := "USD"; pair_to := toCurrency; pair_id := id;
     pair_rate := formatCurrency NumberFormat_format (js_of_Z 0) |}
    ∈ getPopularRates NumberFormat_format c
  ∧ ∃ r,
      convertCurrency env behaviour amount "USD" toCurrency c
      = (Resolved r, c)
      ∧ exchangeRate r = js_of_Z 1.
Proof.
  intros Hpair Hamount Htable Hmissing. split.
  - unfold getPopularRates. apply list_elem_of_fmap.
    exists ("USD", toCurrency, id). split; [|done].
    unfold popular_rate, rate_or_0. cbn. by rewrite Hmissing.
  - rewrite convertCurrency_holding by done. eexists. split; [done|].
    unfold exchange_rate, rate_or_1. cbn. by rewrite Hmissing.
Qed.

Lemma getPopularRates_missing_rate_witness :
  let c := converter_with example_table [] in
  {| pair_from := "USD"; pair_to := "JPY"; pair_id := "usdjpy";
     pair_rate := formatCurrency plain_format (js_of_Z 0) |}
    ∈ getPopularRates plain_format c
  ∧ ∃ r,
      convertCurrency (example_host unreachable) observers (JFin 100)
        "USD" "JPY" c
      = (Resolved r, c)
      ∧ exchangeRate r = js_of_Z 1.
Proof.
  apply (getPopularRates_missing_rate (example_host unreachable) observers
           plain_format (JFin 100) (converter_with example_table [])
           "JPY" "usdjpy").
  - set_solver.
  - reflexivity.
  - vm_compute. discriminate.
  - reflexivity.
Defined.

(** ** Fetching and publishing *)

Lemma getExchangeRates_keeps_isOnline env baseCurrency forceRefresh s :
  isOnline (getExchangeRates env baseCurrency forceRefresh s).2 = isOnline s.
Proof.
  pose proof (fetchWithRetry_frame env baseCurrency 3 (rate_limited s))
    as (_ & Ho2 & _).
  pose proof (rate_limited_frame s) as (_ & Ho1 & _).
  resolution_cases env baseCurrency forceRefresh s; try done;
    cbn [snd] in Ho2.
  - destruct (after_success_frame env baseCurrency (f_rates fetched)
                (clock s) s2) as (_ & _ & Ho & _).
    cbn [snd]. congruence.
  - cbn. congruence.
  - cbn. congruence.
Qed.

Section Publishing.
Variable env : Env.
Variable behaviour : nat -> EngineState -> list Action.

Lemma forEach_array_quiet a remaining k c :
  (∀ callback s, behaviour callback s = []) →
  let c' := forEach_array behaviour a remaining k c in
  arrays c' = arrays c ∧ subscribers c' = subscribers c.
Proof.
  intros Hquiet. cbv zeta. revert k c.
  induction remaining as [|remaining IH]; intros k c; [done|].
  cbn [forEach_array]. destruct (array_at c a !! k) as [callback|].
  - destruct (IH (S k) (invoke behaviour callback c)) as (-> & ->).
    unfold invoke. by rewrite Hquiet.
  - apply IH.
Qed.

Lemma setState_quiet newState c :
  (∀ callback s, behaviour callback s = []) →
  let c' := setState behaviour newState c in
  arrays c' = arrays c ∧ subscribers c' = subscribers c.
Proof.
  intros Hquiet. cbv zeta. unfold setState.
  by destruct (forEach_array_quiet
                 (subscribers (set_state (merge (state c) newState) c))
                 (length (array_at (set_state (merge (state c) newState) c)
                            (subscribers
                               (set_state (merge (state c) newState) c))))
                 0 (set_state (merge (state c) newState) c) Hquiet)
    as (-> & ->).
Qed.

Lemma fetchRates_flags baseCurrency forceRefresh c :
  let c' := (fetchRates env behaviour baseCurrency forceRefresh c).2 in
  isOffline (state c') = isOffline (state c)
  ∧ isOnline (apiService c') = isOnline (apiService c).
Proof.
  cbv zeta.
  destruct (fetchRates_eq env behaviour baseCurrency forceRefresh c)
    as (result & c1 & c' & -> & Hc1 & Hrun & Hc').
  cbn [snd].
  pose proof (getExchangeRates_keeps_isOnline env baseCurrency forceRefresh
                (sleep 300 (apiService c)).2) as Hon.
  rewrite Hrun in Hon. cbn [snd] in Hon. split; [|done].
  rewrite Hc'.
  destruct (setState_spec behaviour (loaded_patch result)
              (set_apiService (apiService c') c1)) as (-> & _).
  cbn. rewrite Hc1.
  by destruct (setState_spec behaviour loading_patch
                 (set_apiService (sleep 300 (apiService c)).2
                    (set_debounceTimer (Some (clock (apiService c) + 300)%Z)
                       c))) as (-> & _).
Qed.
End Publishing.

(** A call of [fetchRates] that nothing supersedes, followed to its
    end: the result, the state it leaves and the two rounds of
    notifications. *)
Lemma fetchRates_followed env behaviour baseCurrency forceRefresh c :
  ∃ result c',
    fetchRates env behaviour baseCurrency forceRefresh c
    = (Resolved (Some result), c')
    ∧ getExchangeRates env baseCurrency forceRefresh
        (sleep 300 (apiService c)).2
      = (Ok result, apiService c')
    ∧ state c'
      = {| loading := false;
           error := warning_or_null (warning result);
           rates := r_rates result;
           lastUpdate := Some (r_timestamp result);
           isOffline := isOffline (state c);
           state_source := Some (source result) |}
    ∧ debounceTimer c' = Some (clock (apiService c) + 300)%Z
    ∧ ∃ subs',
        call_log c'
        = (call_log c
           ++ round (array_at c (subscribers c))
                (merge (state c) loading_patch)
           ++ round subs' (state c'))%list
        ∧ ((∀ callback s, behaviour callback s = []) →
           subs' = array_at c (subscribers c)).
Proof.
  destruct (fetchRates_eq env behaviour baseCurrency forceRefresh c)
    as (result & c1 & c' & Hfetch & Hc1 & Hrun & Hc').
  exists result, c'. split; [done|]. split; [done|].
  set (c0 := set_apiService (sleep 300 (apiService c)).2
               (set_debounceTimer (Some (clock (apiService c) + 300)%Z) c))
    in *.
  destruct (setState_spec behaviour loading_patch c0)
    as (Hs1 & _ & Hd1 & Hl1).
  rewrite <- Hc1 in Hs1, Hd1, Hl1.
  destruct (setState_spec behaviour (loaded_patch result)
              (set_apiService (apiService c') c1)) as (Hs2 & _ & Hd2 & Hl2).
  rewrite <- Hc' in Hs2, Hd2, Hl2.
  cbn [state set_apiService debounceTimer] in Hs2, Hd2.
  split; [by rewrite Hs2, Hs1|]. split; [by rewrite Hd2, Hd1|].
  exists (array_at c1 (subscribers c1)). split.
  - rewrite Hl2. unfold call_log at 1. cbn [calls set_apiService].
    fold (call_log c1). rewrite Hl1, <- app_assoc. f_equal. f_equal.
    cbn [state set_apiService]. by rewrite Hs2.
  - intros Hquiet.
    destruct (setState_quiet behaviour loading_patch c0 Hquiet) as [Ha Hsub].
    rewrite <- Hc1 in Ha, Hsub. unfold array_at. by rewrite Ha, Hsub.
Qed.

(** ** Clearing the cache from the converter *)





(** X20: when the host refuses the listing of the storage keys, the
    converter's [clearCache] throws the error of the host and changes
    nothing: no item is removed, the state is not updated, nobody is
    notified and no reload is started. *)
Theorem converter_clearCache_storage_fault env behaviour c message :
  storage_fault env OpKeys = Some message →
  converter_clearCache env behaviour c = (Throw (ThrownError message), c).
Proof.
  intros Hfault. unfold converter_clearCache, clearCache, Object_keys,
    storage_op. rewrite Hfault. cbn. by destruct c.
Qed.

Lemma converter_clearCache_storage_fault_witness :
  converter_clearCache storage_denied observers
    (converter_with example_table [7%nat])
  = (Throw (ThrownError "The operation is insecure."),
     converter_with example_table [7%nat]).
Proof.
  apply (converter_clearCache_storage_fault storage_denied observers
           (converter_with example_table [7%nat])
           "The operation is insecure.").
  reflexivity.
Defined.

(** ** Subscriptions *)

(** X21: the function returned by [subscribe] removes every copy of its
    callback from the subscribers, also when the callback was subscribed
    more than once, and keeps the others in their order. It does so in a
    new array: the array that was current is left as it was. The next
    round of [setState] calls the callbacks that are left and does not
    call the one removed. *)
Theorem unsubscribe_removes_every_copy behaviour callback newState c :
  let c1 := unsubscribe callback c in
  let kept := filter (fun sub => sub ≠ callback) (array_at c (subscribers c)) in
  array_at c1 (subscribers c1) = kept
  ∧ (callback ∉ kept)
  ∧ array_at c1 (subscribers c) = array_at c (subscribers c)
  ∧ call_log (setState behaviour newState c1)
    = (call_log c ++ round kept (merge (state c) newState))%list.
Proof.
  cbv zeta.
  assert (array_at (unsubscribe callback c) (subscribers (unsubscribe callback c))
          = filter (fun sub => sub ≠ callback) (array_at c (subscribers c)))
    as Hkept.
  { unfold unsubscribe. unfold array_at at 1.
    cbn [subscribers arrays set_subscribers].
    by rewrite lookup_insert_eq. }
  split; [done|]. split.
  { intros Hin. apply list_elem_of_filter in Hin as [Hne _]. done. }
  split.
  { unfold unsubscribe. unfold array_at at 1. cbn [arrays set_subscribers].
    destruct (decide (fresh (dom (arrays c)) = subscribers c)) as [Heq|Hne].
    - pose proof (is_fresh (dom (arrays c))) as Hfresh.
      assert (arrays c !! subscribers c = None) as Hnone.
      { apply not_elem_of_dom. by rewrite <- Heq. }
      rewrite Heq, lookup_insert_eq. unfold array_at. rewrite Hnone. done.
    - by rewrite lookup_insert_ne. }
  destruct (setState_spec behaviour newState (unsubscribe callback c))
    as (_ & _ & _ & ->).
  by rewrite Hkept.
Qed.

(** ** Connectivity *)

Section Connectivity.
Variable env : Env.
Variable behaviour : nat -> EngineState -> list Action.

Lemma fetchRates_flags_agree baseCurrency forceRefresh c :
  flags_agree c →
  flags_agree (fetchRates env behaviour baseCurrency forceRefresh c).2.
Proof.
  unfold flags_agree. intros H.
  destruct (fetchRates_flags env behaviour baseCurrency forceRefresh c)
    as (-> & ->).
  done.
Qed.

Lemma page_step_flags_agree c ev :
  flags_agree c → flags_agree (page_step env behaviour c ev).
Proof.
  intros H. destruct ev as [field| |amount from to|field| |callback|callback];
    cbn [page_step].
  - unfold converter_online, refreshRates.
    match goal with
    | |- flags_agree (fetchRates _ _ ?b ?f ?c0).2 =>
        destruct (fetchRates_flags env behaviour b f c0) as [Hs Ho];
        unfold flags_agree; rewrite Hs, Ho
    end.
    match goal with
    | |- context [setState behaviour ?p ?c0] =>
        destruct (setState_spec behaviour p c0) as (-> & -> & _)
    end.
    done.
  - unfold converter_offline, flags_agree.
    match goal with
    | |- context [setState behaviour ?p ?c0] =>
        destruct (setState_spec behaviour p c0) as (-> & -> & _)
    end.
    done.
  - unfold convertCurrency.
    destruct (negb (js_truthy amount) || js_le0 amount); [done|].
    destruct (length (map_to_list (rates (state c))).*1 =? 0)%nat.
    + pose proof (fetchRates_flags_agree from false c H) as Hf.
      destruct (fetchRates env behaviour from false c) as [[result|] c'];
        done.
    + done.
  - unfold refreshRates. by apply fetchRates_flags_agree.
  - unfold converter_clearCache.
    pose proof (storage_only_clearCache env (apiService c))
      as (_ & _ & Ho & _).
    destruct (clearCache env (apiService c)) as [[[]|e] s1]; cbn [snd] in Ho.
    + unfold loadInitialRates.
      match goal with
      | |- context [fetchRates env behaviour ?b ?f ?c0] =>
          pose proof (fetchRates_flags_agree b f c0) as Hf;
          destruct (fetchRates env behaviour b f c0) as [result c']
      end.
      cbn [snd] in *. apply Hf. unfold flags_agree.
      match goal with
      | |- context [setState behaviour ?p ?c0] =>
          destruct (setState_spec behaviour p c0) as (-> & -> & _)
      end.
      cbn. by rewrite Ho.
    + unfold flags_agree. cbn. by rewrite Ho.
  - done.
  - done.
Qed.
End Connectivity.

(** X22: the converter's [isOffline] and the service's [isOnline] never
    disagree. They are set from the same [navigator.onLine] when the
    converter is built, and after any sequence of connectivity events
    and of calls from the user interface (conversions, refreshes,
    clearing the cache, subscribing and unsubscribing), each handled to
    its end before the next, [isOffline] is still the negation of
    [isOnline]. *)
Theorem connectivity_flags_agree env behaviour store now onLine history :
  let built := (new_CurrencyConverter env behaviour store now onLine).2 in
  flags_agree built
  ∧ flags_agree (foldl (page_step env behaviour) built history).
Proof.
  cbv zeta.
  assert (flags_agree
            (new_CurrencyConverter env behaviour store now onLine).2)
    as Hbuilt.
  { unfold new_CurrencyConverter, loadInitialRates.
    by apply fetchRates_flags_agree. }
  split; [done|].
  revert Hbuilt.
  generalize (new_CurrencyConverter env behaviour store now onLine).2.
  induction history as [|ev history IH]; intros c Hc; [done|].
  cbn [foldl]. apply IH. by apply page_step_flags_agree.
Qed.

(** * Properties of the service worker *)

Section WorkerProperties.
Variable toString : Z -> string.
Variable parseInt : string -> option Z.

Local Abbreviation answer := (handleApiRequest toString parseInt).
Local Abbreviation from_cache := (handleApiRequest_catch parseInt).

Lemma from_cache_stored now url cache copy :
  cache !! url = Some copy →
  from_cache now url cache = copy
  ∨ from_cache now url cache = with_header "sw-cache-stale" "true" copy.
Proof.
  intros Hcopy. unfold handleApiRequest_catch. rewrite Hcopy.
  destruct (_ && _); [by left|by right].
Qed.

Lemma from_cache_ok now url cache :
  copies_ok cache →
  response_ok (sw_status (from_cache now url cache)) = true
  ∨ from_cache now url cache = offline_notice.
Proof.
  intros Hok. destruct (cache !! url) as [copy|] eqn:Hcopy.
  - left. destruct (from_cache_stored now url cache copy Hcopy) as [->| ->];
      exact (Hok _ _ Hcopy).
  - right. unfold handleApiRequest_catch. by rewrite Hcopy.
Qed.

Lemma handle_ok network now url cache :
  copies_ok cache →
  (response_ok (sw_status (answer network now url cache).1) = true
   ∨ (answer network now url cache).1 = offline_notice)
  ∧ copies_ok (answer network now url cache).2.
Proof.
  intros Hok. unfold handleApiRequest.
  destruct network as [message|r]; [by split; [apply from_cache_ok|]|].
  destruct (response_ok (sw_status r)) eqn:Hr;
    [|by split; [apply from_cache_ok|]].
  cbn [fst snd]. split; [by left|].
  intros u copy Hcopy. apply lookup_insert_Some in Hcopy as [[_ <-]|[_ Hcopy]].
  - done.
  - exact (Hok _ _ Hcopy).
Qed.

Lemma serve_ok requests cache :
  copies_ok cache →
  Forall (fun r => response_ok (sw_status r) = true ∨ r = offline_notice)
    (serve toString parseInt requests cache).1
  ∧ copies_ok (serve toString parseInt requests cache).2.
Proof.
  revert cache. induction requests as [|rq rest IH]; intros cache Hok.
  { by split. }
  cbn [serve].
  destruct (handle_ok (rq_network rq) (rq_now rq) (rq_url rq) cache Hok)
    as [Hresponse Hcache].
  destruct (answer (rq_network rq) (rq_now rq) (rq_url rq) cache)
    as [response cache'].
  destruct (IH cache' Hcache) as [Hrest Hend].
  destruct (serve toString parseInt rest cache') as [responses cache''].
  cbn [fst snd] in *. split; [by constructor|done].
Qed.
End WorkerProperties.

(** X23: the worker never passes a failure of the API on to the page.
    Whatever the network does to a sequence of API requests handled from
    an empty cache, every response the page gets has a status from 200
    to 299 or is the notice the worker makes up (status 503, "Network
    unavailable and no cached data"); a response of the network with
    another status is neither returned nor stored, and every stored copy
    has a status from 200 to 299. *)
Theorem worker_hides_failures toString parseInt requests :
  let run := serve toString parseInt requests ∅ in
  Forall (fun r => response_ok (sw_status r) = true ∨ r = offline_notice)
    run.1
  ∧ copies_ok run.2.
Proof.
  cbv zeta. apply serve_ok. intros url r Hr. by rewrite lookup_empty in Hr.
Qed.

(** X24: a response of the network with a status from 200 to 299 is
    returned as it is and stored with the time and a TTL of 5 minutes,
    the [cacheDuration] of the service. When the network fails on a
    later request for the same URL, the page gets the stored copy: as it
    was stored if less than 5 minutes have passed, and with the header
    "sw-cache-stale: true" added otherwise, however old it is. The cache
    is not changed by the failed request. The host is assumed to read
    back the numbers it printed. *)
Theorem handleApiRequest_cached_copy
    toString parseInt stored later url response cache network :
  response_ok (sw_status response) = true →
  network_fails network = true →
  parseInt (toString stored) = Some stored →
  toString stored ≠ "" →
  parseInt (toString cacheDuration) = Some cacheDuration →
  toString cacheDuration ≠ "" →
  let first :=
    handleApiRequest toString parseInt (SwAnswered response) stored url
      cache in
  let second := handleApiRequest toString parseInt network later url first.2 in
  let copy := cachedResponse_of toString stored response in
  first.1 = response
  ∧ second.1 = (if (later - stored <? cacheDuration)%Z then copy
                else with_header "sw-cache-stale" "true" copy)
  ∧ second.2 = first.2.
Proof.
  intros Hok Hfails Hstamp Hs Httl Ht. cbv zeta.
  assert (handleApiRequest toString parseInt (SwAnswered response) stored
            url cache
          = (response, <[url := cachedResponse_of toString stored response]>
                         cache)) as ->.
  { unfold handleApiRequest. by rewrite Hok. }
  cbn [fst snd]. split; [done|].
  assert (handleApiRequest toString parseInt network later url
            (<[url := cachedResponse_of toString stored response]> cache)
          = (handleApiRequest_catch parseInt later url
               (<[url := cachedResponse_of toString stored response]> cache),
             <[url := cachedResponse_of toString stored response]> cache))
    as ->.
  { unfold handleApiRequest. destruct network as [message|r]; [done|].
    cbn in Hfails. by destruct (response_ok (sw_status r)). }
  cbn [fst snd]. split; [|done].
  assert (sw_headers (cachedResponse_of toString stored response)
            !! "sw-cache-timestamp" = Some (toString stored)) as Hh1.
  { unfold cachedResponse_of. cbn [sw_headers with_header].
    rewrite lookup_insert_ne by done. apply lookup_insert_eq. }
  assert (sw_headers (cachedResponse_of toString stored response)
            !! "sw-cache-ttl" = Some (toString cacheDuration)) as Hh2.
  { unfold cachedResponse_of. cbn [sw_headers with_header].
    apply lookup_insert_eq. }
  unfold handleApiRequest_catch. rewrite lookup_insert_eq. cbv zeta.
  rewrite Hh1, Hh2. cbn [default from_option id].
  rewrite (falsy_item_stored _ Hs), (falsy_item_stored _ Ht).
  cbn [negb andb]. unfold within_ttl. rewrite Hstamp, Httl.
  done.
Qed.

Lemma handleApiRequest_cached_copy_witness :
  let first :=
    handleApiRequest decimal parse_decimal (SwAnswered api_response) 5000
      "https://open.er-api.com/v6/latest/USD" ∅ in
  let second :=
    handleApiRequest decimal parse_decimal (SwRejected "Failed to fetch")
      86400000 "https://open.er-api.com/v6/latest/USD" first.2 in
  let copy := cachedResponse_of decimal 5000 api_response in
  first.1 = api_response
  ∧ second.1 = (if (86400000 - 5000 <? cacheDuration)%Z then copy
                else with_header "sw-cache-stale" "true" copy)
  ∧ second.2 = first.2.
Proof.
  apply (handleApiRequest_cached_copy decimal parse_decimal 5000 86400000
           "https://open.er-api.com/v6/latest/USD" api_response ∅
           (SwRejected "Failed to fetch")).
  - reflexivity.
  - reflexivity.
  - vm_compute. reflexivity.
  - vm_compute. discriminate.
  - vm_compute. reflexivity.
  - vm_compute. discriminate.
Defined.

(** X25: the worker takes the requests of the service for API requests:
    [isApiRequest] holds of both endpoints of [fetchWithRetry], for
    every base currency (the URL is taken to be its own [href]). *)
Theorem isApiRequest_endpoints baseCurrency :
  Forall (fun url => isApiRequest url = true) (endpoints baseCurrency).
Proof.
  unfold endpoints.
  apply List.Forall_cons; [|apply List.Forall_cons; [|apply List.Forall_nil]].
  - unfold isApiRequest, apiUrls. cbn [existsb].
    apply orb_true_iff. left. vm_compute. reflexivity.
  - unfold isApiRequest, apiUrls. cbn [existsb].
    apply orb_true_iff. right. apply orb_true_iff. left.
    vm_compute. reflexivity.
Qed.

(** X26: [handleStaticRequest] never refreshes what it has stored. Once
    a response with a status from 200 to 299 has been returned for a URL
    that was not in the cache, every later request for that URL is
    answered with that same response, whatever the network would answer
    and without the cache changing. *)
Theorem handleStaticRequest_pins
    response navigate url cache network' navigate' :
  cache !! url = None →
  response_ok (sw_status response) = true →
  let first := handleStaticRequest (SwAnswered response) navigate url cache in
  first.1 = inl response
  ∧ handleStaticRequest network' navigate' url first.2
    = (inl response, first.2).
Proof.
  intros Hnew Hok. cbv zeta.
  assert (handleStaticRequest (SwAnswered response) navigate url cache
          = (inl response, <[url := response]> cache)) as ->.
  { unfold handleStaticRequest. by rewrite Hnew, Hok. }
  cbn [fst snd]. split; [done|].
  unfold handleStaticRequest. by rewrite lookup_insert_eq.
Qed.

Lemma handleStaticRequest_pins_witness :
  let first :=
    handleStaticRequest (SwAnswered api_response) false "/js/ui.js" ∅ in
  first.1 = inl api_response
  ∧ handleStaticRequest (SwRejected "Failed to fetch") false "/js/ui.js"
      first.2
    = (inl api_response, first.2).
Proof.
  apply (handleStaticRequest_pins api_response false "/js/ui.js" ∅
           (SwRejected "Failed to fetch") false).
  - reflexivity.
  - reflexivity.
Defined.

(** X27: the copy that the background sync stores carries no time: when
    the response of the network has no "sw-cache-timestamp" header, the
    copy that [updateExchangeRates] stores, under the URL of the
    service's first endpoint for USD, is served by [handleApiRequest]
    with the header "sw-cache-stale: true" whenever the network fails,
    even at once. *)
Theorem updateExchangeRates_copy_is_stale
    toString parseInt response cache network now :
  response_ok (sw_status response) = true →
  sw_headers response !! "sw-cache-timestamp" = None →
  network_fails network = true →
  let url := baseUrl ++ "/" ++ "USD" in
  let synced := updateExchangeRates (SwAnswered response) cache in
  synced !! url = Some response
  ∧ handleApiRequest toString parseInt network now url synced
    = (with_header "sw-cache-stale" "true" response, synced).
Proof.
  intros Hok Hnone Hfails. cbv zeta. unfold updateExchangeRates.
  rewrite Hok.
  change (baseUrl ++ "/" ++ "USD")
    with "https://api.exchangerate-api.com/v4/latest/USD".
  rewrite lookup_insert_eq. split; [done|].
  assert (∀ c, handleApiRequest toString parseInt network now
                 "https://api.exchangerate-api.com/v4/latest/USD" c
               = (handleApiRequest_catch parseInt now
                    "https://api.exchangerate-api.com/v4/latest/USD" c, c))
    as ->.
  { intros c. unfold handleApiRequest. destruct network as [message|r]; [done|].
    cbn in Hfails. by destruct (response_ok (sw_status r)). }
  f_equal. unfold handleApiRequest_catch.
  rewrite lookup_insert_eq, Hnone. done.
Qed.

Lemma updateExchangeRates_copy_is_stale_witness :
  let url := baseUrl ++ "/" ++ "USD" in
  let synced := updateExchangeRates (SwAnswered api_response) ∅ in
  synced !! url = Some api_response
  ∧ handleApiRequest decimal parse_decimal (SwRejected "Failed to fetch")
      5000 url synced
    = (with_header "sw-cache-stale" "true" api_response, synced).
Proof.
  apply (updateExchangeRates_copy_is_stale decimal parse_decimal api_response
           ∅ (SwRejected "Failed to fetch") 5000).
  - reflexivity.
  - reflexivity.
  - reflexivity.
Defined.

(** ** The worker in front of the service *)

Lemma network_calls_after_attempt env x s :
  network_calls (after_attempt env x s) = S (network_calls s).
Proof.
  unfold network_calls.
  rewrite trace_after_attempt, fetch_starts_app, List.length_app.
  cbn. lia.
Qed.

Lemma reply_of_copy parseInt json now url cache copy :
  cache !! url = Some copy →
  reply_of json (handleApiRequest_catch parseInt now url cache)
  = reply_of json copy.
Proof.
  intros Hcopy. unfold handleApiRequest_catch. rewrite Hcopy.
  by destruct (_ && _).
Qed.

(** X28: the service takes a stale copy of the worker for an answer of
    the network. When the network is out of reach and the worker holds a
    copy of the response of the first endpoint, however old, a
    resolution made online that does not find a fresh entry in the
    service's own cache answers with the table of that copy, the
    source "api" and no warning, after one network call, and counts it
    as a successful API call: the "sw-cache-stale" header is not looked
    at. *)
Theorem stale_copy_served_as_network_answer
    env toString parseInt json delay times cache baseCurrency forceRefresh s
    copy text table conversion_rates base :
  let host := behind_worker env toString parseInt json delay times cache in
  cache !! (baseUrl ++ "/" ++ baseCurrency) = Some copy →
  response_ok (sw_status copy) = true →
  sw_body copy = Payload text →
  json text = BodyJson (Some table) conversion_rates base →
  (Z.of_N delay < fetchTimeout)%Z →
  isOnline s = true →
  forceRefresh = true ∨ cache_read host baseCurrency false s = None →
  let run := getExchangeRates host baseCurrency forceRefresh s in
  ∃ r, run.1 = Ok r
       ∧ source r = "api"
       ∧ r_rates r = table
       ∧ warning r = None
       ∧ network_calls run.2 = S (network_calls s)
       ∧ apiCalls (metrics run.2) = S (apiCalls (metrics s)).
Proof.
  intros host Hcopy Hok Hbody Hjson Hdelay Honline Hfresh. cbv zeta.
  set (url := baseUrl ++ "/" ++ baseCurrency) in *.
  assert (∃ b, attempt_outcome host baseCurrency 0 url
               = Ok {| f_rates := table; f_base := b |}) as [b Hattempt].
  { unfold attempt_outcome, attempt_fetch.
    unfold mbind, M_bind, modify, Date_now, gets, throw, mret, M_ret.
    cbn [fst snd net host behind_worker latency reply handleApiRequest].
    rewrite (proj2 (Z.leb_gt _ _) Hdelay).
    rewrite (reply_of_copy parseInt json _ url cache copy Hcopy).
    unfold reply_of. rewrite Hok, Hbody, Hjson. cbn [negb fst].
    eexists. reflexivity. }
  assert (fetchWithRetry host baseCurrency 3 (rate_limited s)
          = (Ok {| f_rates := table; f_base := b |},
             after_attempt host (0%nat, url) (rate_limited s))) as Hfetch.
  { rewrite fetchWithRetry_walk. cbv zeta.
    change (plan 3 (endpoints baseCurrency))
      with ((0%nat, url) :: tl (plan 3 (endpoints baseCurrency))).
    cbn [walk fst snd]. by rewrite Hattempt. }
  rewrite getExchangeRates_eq.
  assert ((if forceRefresh then None
           else cache_read host baseCurrency false s) = None) as ->.
  { destruct Hfresh as [->| ->]; [done|by destruct forceRefresh]. }
  rewrite Honline. cbn [negb]. rewrite Hfetch. cbv zeta.
  destruct (after_success_frame host baseCurrency table (clock s)
              (after_attempt host (0%nat, url) (rate_limited s)))
    as (_ & He & _ & _ & _ & Hm & _).
  eexists. split; [done|]. cbn [source r_rates warning snd f_rates].
  split; [done|]. split; [done|]. split; [done|]. split.
  - unfold network_calls at 1. unfold trace. rewrite He.
    fold (trace (after_attempt host (0%nat, url) (rate_limited s))).
    fold (network_calls (after_attempt host (0%nat, url) (rate_limited s))).
    rewrite network_calls_after_attempt.
    by destruct (rate_limited_profile s) as [-> _].
  - rewrite Hm. unfold after_attempt.
    cbn [apiCalls recordApiSuccess metrics set_clock log_event].
    by destruct (rate_limited_frame s) as (_ & _ & _ & -> & _).
Qed.

Lemma stale_copy_served_as_network_answer_witness :
  let copy := with_header "sw-cache-timestamp" "1000" api_response in
  let cache : SwCache := {[ baseUrl ++ "/" ++ "USD" := copy ]} in
  let host :=
    behind_worker (example_host unreachable) decimal parse_decimal
      example_json 5 (fun _ _ => 86400000%Z) cache in
  let s := service_at 86400000 ∅ in
  let run := getExchangeRates host "USD" false s in
  ∃ r, run.1 = Ok r
       ∧ source r = "api"
       ∧ r_rates r = example_table
       ∧ warning r = None
       ∧ network_calls run.2 = S (network_calls s)
       ∧ apiCalls (metrics run.2) = S (apiCalls (metrics s)).
Proof.
  apply (stale_copy_served_as_network_answer (example_host unreachable)
           decimal parse_decimal example_json 5 (fun _ _ => 86400000%Z)
           {[ baseUrl ++ "/" ++ "USD" :=
                with_header "sw-cache-timestamp" "1000" api_response ]}
           "USD" false (service_at 86400000 ∅)
           (with_header "sw-cache-timestamp" "1000" api_response)
           "EUR:0.9,GBP:0.8" example_table None (Some "USD")).
  - vm_compute. reflexivity.
  - reflexivity.
  - reflexivity.
  - reflexivity.
  - vm_compute. reflexivity.
  - reflexivity.
  - right. vm_compute. reflexivity.
Defined.

(** * Properties of the debounce timer *)

Section DebounceProperties.
Variable env : Env.
Variable behaviour : nat -> EngineState -> list Action.

(** A call of [fetchRates] followed to its end is the call, and then
    the callback of its timer 300 ms later. *)
Lemma fetchRates_as_callback baseCurrency forceRefresh c :
  fetchRates env behaviour baseCurrency forceRefresh c
  = fetchRates_callback env behaviour baseCurrency forceRefresh
      (set_apiService (sleep 300 (apiService c)).2
         (set_debounceTimer (Some (clock (apiService c) + 300)%Z) c)).
Proof. reflexivity. Qed.

Lemma pending_none p : pending_handles p = [] → timers p = [].
Proof. unfold pending_handles. by destruct (timers p). Qed.

Lemma pending_one p h :
  pending_handles p = [h] → ∃ t, timers p = [t] ∧ handle t = h.
Proof.
  unfold pending_handles. destruct (timers p) as [|t [|t' l]]; try done.
  intros [= <-]. by exists t.
Qed.

Lemma clearTimeout_one t : clearTimeout (handle t) [t] = [].
Proof. unfold clearTimeout. cbn. by rewrite Nat.eqb_refl. Qed.

Lemma clearTimeout_handles h pending h' :
  h' ∈ map handle (clearTimeout h pending) → h' ∈ map handle pending.
Proof.
  unfold clearTimeout. rewrite !list_elem_of_fmap.
  intros (t & -> & Ht). exists t. split; [done|].
  apply elem_of_filter in Ht. tauto.
Qed.

(** After a call the one pending timer is the one the call has set. *)
Lemma call_fetchRates_timers baseCurrency forceRefresh p :
  page_ok p →
  let call := call_fetchRates baseCurrency forceRefresh p in
  call.1 = next_handle p
  ∧ timers call.2
    = [{| handle := next_handle p;
          due := clock (apiService (converter p)) + 300;
          timer_baseCurrency := baseCurrency;
          timer_forceRefresh := forceRefresh |}]
  ∧ armed call.2 = Some (next_handle p)
  ∧ next_handle call.2 = S (next_handle p)
  ∧ settled call.2 = settled p
  ∧ converter call.2
    = set_debounceTimer (Some (clock (apiService (converter p)) + 300)%Z)
        (converter p).
Proof.
  intros (_ & _ & Hone). cbv zeta. unfold call_fetchRates. cbn [fst snd].
  cbn [timers armed next_handle settled converter due].
  split; [done|]. split; [|done].
  destruct Hone as [Hnone|(h & Hh & Harmed)].
  - apply pending_none in Hnone. rewrite Hnone.
    by destruct (armed p).
  - apply pending_one in Hh as (t & Ht & <-).
    by rewrite Harmed, Ht, clearTimeout_one.
Qed.

Lemma call_fetchRates_ok baseCurrency forceRefresh p :
  page_ok p → page_ok (call_fetchRates baseCurrency forceRefresh p).2.
Proof.
  intros Hok.
  destruct (call_fetchRates_timers baseCurrency forceRefresh p Hok)
    as (_ & Ht & Ha & Hn & Hs & _).
  destruct Hok as (Hsettled & _ & _).
  unfold page_ok, settled_handles, pending_handles.
  rewrite Ht, Ha, Hn, Hs. cbn [map handle]. split; [|split].
  - intros h Hh. apply Hsettled in Hh. lia.
  - intros h Hh. apply list_elem_of_singleton in Hh as ->. lia.
  - right. by eexists.
Qed.

Lemma fire_shape h p :
  fire env behaviour h p = p
  ∨ ∃ t c value,
      t ∈ timers p ∧ handle t = h
      ∧ fire env behaviour h p
        = {| converter := c;
             timers := clearTimeout h (timers p);
             armed := armed p;
             next_handle := next_handle p;
             settled := (h, value) :: settled p |}.
Proof.
  unfold fire.
  destruct (List.find _ (timers p)) as [t|] eqn:Hfind; [|by left].
  right. apply find_some in Hfind as [Hin Hh].
  apply Nat.eqb_eq in Hh. apply list_elem_of_In in Hin.
  cbv zeta.
  match goal with
  | |- context [fetchRates_callback env behaviour ?b ?f ?c0] =>
      pose proof (fetchRates_eq env behaviour b f
                    (set_apiService (apiService c0) (converter p))) as Hres;
      destruct (fetchRates_callback env behaviour b f c0)
        as [outcome c'] eqn:Hcb
  end.
  assert (∃ value, outcome = Resolved value) as [value ->].
  { unfold fetchRates_callback in Hcb.
    match type of Hcb with
    | context [getExchangeRates env ?b ?f ?s0] =>
        destruct (getExchangeRates_total env b f s0) as (r & s' & Hrun);
        rewrite Hrun in Hcb
    end.
    injection Hcb as <- _. by eexists. }
  by exists t, c', value.
Qed.

Lemma fire_ok h p : page_ok p → page_ok (fire env behaviour h p).
Proof.
  intros Hok. destruct (fire_shape h p) as [->|(t & c & value & Hin & Hh & ->)];
    [done|].
  destruct Hok as (Hsettled & Hpending & Hone).
  assert (h ∈ pending_handles p) as Hhp.
  { unfold pending_handles. apply list_elem_of_fmap. by exists t. }
  unfold page_ok, settled_handles, pending_handles.
  cbn [settled timers armed next_handle fmap list_fmap fst].
  split; [|split].
  - intros h' Hh'. apply elem_of_cons in Hh' as [->|Hh'].
    + by apply Hpending.
    + by apply Hsettled.
  - intros h' Hh'. apply Hpending. by eapply clearTimeout_handles.
  - left. destruct Hone as [Hnone|(h' & Hh' & _)].
    + by rewrite Hnone in Hhp; apply elem_of_nil in Hhp.
    + rewrite Hh' in Hhp. apply list_elem_of_singleton in Hhp as ->.
      apply pending_one in Hh' as (t' & -> & <-).
      by rewrite clearTimeout_one.
Qed.

Lemma page_op_ok p op : page_ok p → page_ok (page_op env behaviour p op).
Proof.
  destruct op; [apply call_fetchRates_ok|apply fire_ok].
Qed.

Lemma run_ok ops p :
  page_ok p → page_ok (foldl (page_op env behaviour) p ops).
Proof.
  revert p. induction ops as [|op ops IH]; intros p Hok; [done|].
  cbn [foldl]. apply IH. by apply page_op_ok.
Qed.

Lemma new_page_ok c : page_ok (new_page c).
Proof.
  split; [|split].
  - intros h Hh. by apply elem_of_nil in Hh.
  - intros h Hh. by apply elem_of_nil in Hh.
  - by left.
Qed.

(** A promise whose timer is not pending and that is not resolved stays
    unresolved. *)
Lemma unsettled_forever a ops p :
  a ∉ settled_handles p → a ∉ pending_handles p → (a < next_handle p)%nat →
  a ∉ settled_handles (foldl (page_op env behaviour) p ops).
Proof.
  revert p. induction ops as [|op ops IH]; intros p Hs Hp Hn; [done|].
  cbn [foldl]. destruct op as [baseCurrency forceRefresh|h]; cbn [page_op].
  - apply IH.
    + done.
    + unfold call_fetchRates, pending_handles. cbn [snd timers].
      rewrite map_app. intros Hin. apply elem_of_app in Hin as [Hin|Hin].
      * apply Hp. destruct (armed p); [|done].
        by eapply clearTimeout_handles.
      * cbn in Hin. apply list_elem_of_singleton in Hin. lia.
    + unfold call_fetchRates. cbn. lia.
  - destruct (fire_shape h p) as [->|(t & c & value & Hin & Hh & ->)];
      [by apply IH|].
    assert (h ≠ a) as Hne.
    { intros ->. apply Hp. unfold pending_handles.
      apply list_elem_of_fmap. by exists t. }
    apply IH.
    + unfold settled_handles. cbn. intros Hin'.
      apply elem_of_cons in Hin' as [->|Hin']; done.
    + unfold pending_handles. cbn [timers]. intros Hin'. apply Hp.
      by eapply clearTimeout_handles.
    + done.
Qed.
End DebounceProperties.

(** X29: a call of [fetchRates] that is followed by another call before
    its timer has fired never settles: the second call clears the timer
    of the first, so that whatever happens on the page afterwards
    (further calls, timers firing), the promise the first call returned
    is never resolved. At every moment at most one timer of
    [fetchRates] is pending. *)
Theorem superseded_fetch_never_settles
    env behaviour c before baseCurrency forceRefresh
    baseCurrency' forceRefresh' after :
  let p0 := foldl (page_op env behaviour) (new_page c) before in
  let first := call_fetchRates baseCurrency forceRefresh p0 in
  let second := call_fetchRates baseCurrency' forceRefresh' first.2 in
  let p := foldl (page_op env behaviour) second.2 after in
  first.1 ≠ second.1
  ∧ (first.1 ∉ settled_handles p)
  ∧ (length (timers p) ≤ 1)%nat.
Proof.
  cbv zeta.
  set (p0 := foldl (page_op env behaviour) (new_page c) before).
  assert (page_ok p0) as Hok0.
  { unfold p0. apply run_ok. apply new_page_ok. }
  destruct (call_fetchRates_timers baseCurrency forceRefresh p0 Hok0)
    as (Ha & _ & _ & Hn1 & Hs1 & _).
  pose proof (call_fetchRates_ok baseCurrency forceRefresh p0 Hok0) as Hok1.
  set (p1 := (call_fetchRates baseCurrency forceRefresh p0).2) in *.
  destruct (call_fetchRates_timers baseCurrency' forceRefresh' p1 Hok1)
    as (Hb & Ht2 & _ & Hn2 & Hs2 & _).
  pose proof (call_fetchRates_ok baseCurrency' forceRefresh' p1 Hok1) as Hok2.
  set (p2 := (call_fetchRates baseCurrency' forceRefresh' p1).2) in *.
  cbv zeta in Ha, Hb, Ht2, Hn2, Hs2, Hn1, Hs1.
  rewrite Ha, Hb, Hn1.
  split; [lia|]. split.
  - apply unsettled_forever.
    + unfold settled_handles. rewrite Hs2, Hs1. intros Hin.
      destruct Hok0 as (Hsettled & _). apply Hsettled in Hin. lia.
    + unfold pending_handles. rewrite Ht2. cbn. intros Hin.
      apply list_elem_of_singleton in Hin. lia.
    + rewrite Hn2, Hn1. lia.
  - pose proof (run_ok env behaviour after p2 Hok2) as (_ & _ & Hone).
    destruct Hone as [Hnone|(h & Hh & _)].
    + apply pending_none in Hnone. rewrite Hnone. cbn. lia.
    + apply pending_one in Hh as (t & -> & _). cbn. lia.
Qed.

(** X30: when the timer that a call of [fetchRates] has set fires, no
    other call having come between, the promise of the call is resolved
    with a result, never with [null], the converter is left as
    [fetchRates] followed to its end leaves it, and no timer is
    pending. *)
Theorem armed_fetch_settles env behaviour c before baseCurrency forceRefresh :
  let p0 := foldl (page_op env behaviour) (new_page c) before in
  let call := call_fetchRates baseCurrency forceRefresh p0 in
  let p := fire env behaviour call.1 call.2 in
  ∃ result,
    fetchRates env behaviour baseCurrency forceRefresh (converter p0)
    = (Resolved (Some result), converter p)
    ∧ settled p = (call.1, Some result) :: settled p0
    ∧ timers p = [].
Proof.
  cbv zeta.
  set (p0 := foldl (page_op env behaviour) (new_page c) before).
  assert (page_ok p0) as Hok0.
  { unfold p0. apply run_ok. apply new_page_ok. }
  destruct (call_fetchRates_timers baseCurrency forceRefresh p0 Hok0)
    as (Ha & Ht & _ & _ & Hs & Hc).
  cbv zeta in Ha, Ht, Hs, Hc. rewrite Ha.
  destruct (fetchRates_eq env behaviour baseCurrency forceRefresh
              (converter p0)) as (result & c1 & c' & Hfetch & _).
  pose proof Hfetch as Hcb. rewrite fetchRates_as_callback in Hcb.
  exists result. rewrite Hfetch.
  unfold fire. rewrite Ht. cbn [List.find handle]. rewrite Nat.eqb_refl.
  cbv zeta. cbn [due timer_baseCurrency timer_forceRefresh]. rewrite Hc.
  cbn [apiService set_debounceTimer].
  assert (Z.max 0 (clock (apiService (converter p0)) + 300
                   - clock (apiService (converter p0))) = 300)%Z as ->
    by lia.
  rewrite Hcb. cbn [converter settled timers]. split; [done|].
  split; [by rewrite Hs|]. apply clearTimeout_one.
Qed.

(** * Calls on the page and their promises *)

Section CallsOnThePage.
Variable env : Env.
Variable behaviour : nat -> EngineState -> list Action.

(** The timer that a call has set fires, no other call having come
    between: the page does what [fetchRates] followed to its end does,
    and resolves the promise of the call. *)
Lemma fire_armed baseCurrency forceRefresh p :
  page_ok p →
  ∃ result c',
    fetchRates env behaviour baseCurrency forceRefresh (converter p)
    = (Resolved (Some result), c')
    ∧ fire env behaviour (next_handle p)
        (call_fetchRates baseCurrency forceRefresh p).2
      = {| converter := c'; timers := [];
           armed := Some (next_handle p);
           next_handle := S (next_handle p);
           settled := (next_handle p, Some result) :: settled p |}.
Proof.
  intros Hok.
  destruct (call_fetchRates_timers baseCurrency forceRefresh p Hok)
    as (_ & Ht & Ha & Hn & Hs & Hc).
  cbv zeta in Ht, Ha, Hn, Hs, Hc.
  destruct (fetchRates_eq env behaviour baseCurrency forceRefresh
              (converter p)) as (result & c1 & c' & Hfetch & _).
  pose proof Hfetch as Hcb. rewrite fetchRates_as_callback in Hcb.
  exists result, c'. split; [done|].
  unfold fire. rewrite Ht. cbn [List.find handle]. rewrite Nat.eqb_refl.
  cbv zeta. cbn [due timer_baseCurrency timer_forceRefresh]. rewrite Hc.
  cbn [apiService set_debounceTimer].
  assert (Z.max 0 (clock (apiService (converter p)) + 300
                   - clock (apiService (converter p))) = 300)%Z as ->
    by lia.
  rewrite Hcb, Ha, Hn, Hs. f_equal. apply clearTimeout_one.
Qed.





End CallsOnThePage.




(** X18: when the timer that a call of [fetchRates] has set fires, no
    other call having come between, the promise of the call is resolved
    with the result of [getExchangeRates] called after the debounce
    pause of 300 ms, never with [null]: the [catch] block, and with it
    the message "Failed to fetch exchange rates", is not reached. The
    state then is not loading, holds the table, the timestamp and the
    source of the result, has the warning of the result as its error or
    [null] if there is none, and the same [isOffline] as before. The
    subscribers are notified in two rounds: the subscribers of the
    moment with the loading state (loading, no error), then those
    subscribed after that round with the final state; these are the same
    callbacks when no callback changes the subscriptions. *)
Theorem fetchRates_settles env behaviour c0 before baseCurrency forceRefresh :
  let p0 := foldl (page_op env behaviour) (new_page c0) before in
  let c := converter p0 in
  let call := call_fetchRates baseCurrency forceRefresh p0 in
  let p := fire env behaviour call.1 call.2 in
  let c' := converter p in
  ∃ result,
    settled p = (call.1, Some result) :: settled p0
    ∧ getExchangeRates env baseCurrency forceRefresh
        (sleep 300 (apiService c)).2
      = (Ok result, apiService c')
    ∧ state c'
      = {| loading := false;
           error := warning_or_null (warning result);
           rates := r_rates result;
           lastUpdate := Some (r_timestamp result);
           isOffline := isOffline (state c);
           state_source := Some (source result) |}
    ∧ debounceTimer c' = Some (clock (apiService c) + 300)%Z
    ∧ ∃ subs',
        call_log c'
        = (call_log c
           ++ round (array_at c (subscribers c))
                (merge (state c) loading_patch)
           ++ round subs' (state c'))%list
        ∧ ((∀ callback s, behaviour callback s = []) →
           subs' = array_at c (subscribers c)).
Proof.
  cbv zeta.
  set (p0 := foldl (page_op env behaviour) (new_page c0) before).
  assert (page_ok p0) as Hok.
  { unfold p0. apply run_ok. apply new_page_ok. }
  destruct (call_fetchRates_timers baseCurrency forceRefresh p0 Hok)
    as (-> & _).
  destruct (fire_armed env behaviour baseCurrency forceRefresh p0 Hok)
    as (result & c' & Hfetch & ->).
  cbn [settled converter].
  destruct (fetchRates_followed env behaviour baseCurrency forceRefresh
              (converter p0))
    as (result' & c'' & Hfetch' & Hrest).
  rewrite Hfetch in Hfetch'. injection Hfetch' as <- <-.
  exists result. split; [done|]. exact Hrest.
Qed.
